(** * Event-driven core of the ECEN 2370 Pearl Gecko firmware

    A shallow embedding of the sleep arbiter (sleep_routines.c), the
    event scheduler (scheduler.c), the I2C transaction state machine
    (i2c.c), the LEUART transmit state machine (leuart.c) and the BLE
    circular buffer (ble.c), with the properties the design document
    states about them.

    Conventions.  C integers are [Z]; where the source type is known its
    wrap-around is written out.  A C array is a [list Z] of the array's
    length, a C string is the list of the bytes found at the pointer and
    ends at the first zero byte (or at the end of the list).  The project is
    built with DEBUG_EFM=1, so a failing EFM_ASSERT never returns: it is
    the outcome [Fatal]. *)

From Stdlib Require Import ZArith Lia Bool.
From stdpp Require Import base list.

Local Open Scope Z_scope.

(** ** Outcomes of a call *)

Inductive outcome (A : Type) : Type :=
| Done (a : A)   (* the call returned *)
| Fatal          (* EFM_ASSERT failed: the core halts in assertEFM *)
| Undef.         (* an array was indexed outside its bounds *)

Arguments Done {A} a.
Arguments Fatal {A}.
Arguments Undef {A}.

#[global] Instance outcome_ret : MRet outcome := fun A a => Done a.

#[global] Instance outcome_bind : MBind outcome := fun A B k m =>
  match m with
  | Done a => k a
  | Fatal => Fatal
  | Undef => Undef
  end.

(** [EFM_ASSERT(c)] *)
Definition EFM_ASSERT (c : bool) : outcome unit :=
  if c then Done tt else Fatal.

(** ** Machine integers and arrays *)

Definition wrap_int (z : Z) : Z := (z + 2 ^ 31) mod 2 ^ 32 - 2 ^ 31.
Definition wrap_u32 (z : Z) : Z := z mod 2 ^ 32.
Definition wrap_u8 (z : Z) : Z := z mod 2 ^ 8.

(** [~x] on a 32-bit unsigned operand. *)
Definition not32 (x : Z) : Z := Z.land (Z.lnot x) (Z.ones 32).

(** [a[i]] as an r-value and [a[i] = v]. *)
Definition arr_read (a : list Z) (i : Z) : outcome Z :=
  if i <? 0 then Undef
  else match a !! Z.to_nat i with
       | Some v => Done v
       | None => Undef
       end.

Definition arr_write (a : list Z) (i v : Z) : outcome (list Z) :=
  if (0 <=? i) && (i <? Z.of_nat (length a))
  then Done (<[Z.to_nat i := v]> a)
  else Undef.

(** Read of a cell whose index is a constant below the array's length. *)
Definition cell (a : list Z) (i : Z) : Z := default 0 (a !! Z.to_nat i).

(** [strlen]: the number of bytes before the first zero byte. *)
Fixpoint strlen (s : list Z) : Z :=
  match s with
  | [] => 0
  | c :: s' => if c =? 0 then 0 else 1 + strlen s'
  end.

(** [string[i]]; past the bytes given, the terminating zero. *)
Definition char_at (s : list Z) (i : Z) : Z := cell s i.

(** ** sleep_routines.c *)

Module Sleep.

(** Modelled from the spec: sleep_routines.h, which defines the energy
    modes and MAX_ENERGY_MODES, is absent.  The modes are ordered from the
    most active to the deepest sleep; sleep_routines.c speaks of "all 5 of
    the energy modes" and of "EM0 - EM4". *)
Definition EM0 : Z := 0.
Definition EM1 : Z := 1.
Definition EM2 : Z := 2.
Definition EM3 : Z := 3.
Definition EM4 : Z := 4.
Definition MAX_ENERGY_MODES : Z := 5.

(** The state is [static int lowest_energy_mode[MAX_ENERGY_MODES]], a list
    of MAX_ENERGY_MODES counters. *)

Fixpoint sleep_open_loop (n : nat) (i : Z) (t : list Z) : list Z :=
  match n with
  | O => t
  | S n' =>
      sleep_open_loop n' (i + 1)
        (<[Z.to_nat i := Z.land (cell t i) (Z.lnot (cell t i))]> t)
  end.

Definition sleep_open (t : list Z) : list Z :=
  sleep_open_loop (Z.to_nat MAX_ENERGY_MODES) 0 t.

Definition sleep_unblock_mode (EM : Z) (t : list Z) : outcome (list Z) :=
  c ← arr_read t EM;
  let c' := wrap_int (c - 1) in
  t' ← arr_write t EM c';
  _ ← EFM_ASSERT (0 <=? c');
  Done t'.

Definition sleep_block_mode (EM : Z) (t : list Z) : outcome (list Z) :=
  c ← arr_read t EM;
  let c' := wrap_int (c + 1) in
  t' ← arr_write t EM c';
  _ ← EFM_ASSERT (c' <? 5);
  Done t'.

(** What [enter_sleep] does with the processor. *)
Inductive sleep_entry : Type :=
| Stay_awake          (* no EMU call: the core stays in EM0 *)
| EMU_EnterEM1
| EMU_EnterEM2
| EMU_EnterEM3.

Definition enter_sleep (t : list Z) : sleep_entry :=
  if 0 <? cell t EM0 then Stay_awake
  else if 0 <? cell t EM1 then Stay_awake
  else if 0 <? cell t EM2 then EMU_EnterEM1
  else if 0 <? cell t EM3 then EMU_EnterEM2
  else EMU_EnterEM3.

(** The energy mode the processor is in after [enter_sleep]. *)
Definition entered_mode (e : sleep_entry) : Z :=
  match e with
  | Stay_awake => EM0
  | EMU_EnterEM1 => EM1
  | EMU_EnterEM2 => EM2
  | EMU_EnterEM3 => EM3
  end.

Fixpoint current_block_loop (n : nat) (i : Z) (t : list Z) : Z :=
  match n with
  | O => MAX_ENERGY_MODES - 1
  | S n' => if negb (cell t i =? 0) then i else current_block_loop n' (i + 1) t
  end.

Definition current_block_energy_mode (t : list Z) : Z :=
  current_block_loop (Z.to_nat MAX_ENERGY_MODES) 0 t.

(** A call of the arbiter's two mutators. *)
Inductive hold_call : Type :=
| Block (EM : Z)
| Unblock (EM : Z).

Definition run_call (c : hold_call) (t : list Z) : outcome (list Z) :=
  match c with
  | Block EM => sleep_block_mode EM t
  | Unblock EM => sleep_unblock_mode EM t
  end.

Fixpoint run_calls (cs : list hold_call) (t : list Z) : outcome (list Z) :=
  match cs with
  | [] => Done t
  | c :: cs' => t' ← run_call c t; run_calls cs' t'
  end.

(** The table as the two mutators keep it: one counter per mode, each
    between 0 and 4. *)
Definition holds_ok (t : list Z) : Prop :=
  Z.of_nat (length t) = MAX_ENERGY_MODES /\ Forall (fun c => 0 <= c < 5) t.

(** Blocks less unblocks of mode [m] among the calls [cs]. *)
Fixpoint net_holds (m : Z) (cs : list hold_call) : Z :=
  match cs with
  | [] => 0
  | Block EM :: cs' => (if EM =? m then 1 else 0) + net_holds m cs'
  | Unblock EM :: cs' => (if EM =? m then -1 else 0) + net_holds m cs'
  end.

End Sleep.

(** ** scheduler.c *)

Module Scheduler.

(** [static unsigned int event_scheduled] is the state. *)

Definition scheduler_open (event_scheduled : Z) : Z :=
  Z.land event_scheduled (not32 event_scheduled).

Definition add_scheduled_event (event : Z) (event_scheduled : Z) : Z :=
  Z.lor event_scheduled event.

Definition remove_scheduled_event (event : Z) (event_scheduled : Z) : Z :=
  Z.land event_scheduled (not32 event).

Definition get_scheduled_events (event_scheduled : Z) : Z := event_scheduled.

End Scheduler.

(** ** The globals the drivers share

    The two state machines call [sleep_block_mode], [sleep_unblock_mode]
    and [add_scheduled_event].  [call_log] records these calls, oldest
    first: a call made exactly once is in it exactly once. *)

Module Shared.

Inductive call : Type :=
| Call_block (EM : Z)
| Call_unblock (EM : Z)
| Call_add_event (event : Z).

Record globals : Type := mk_globals {
  lowest_energy_mode : list Z;
  event_scheduled : Z;
  call_log : list call
}.

Definition sleep_block_mode (EM : Z) (g : globals) : outcome globals :=
  t ← Sleep.sleep_block_mode EM (lowest_energy_mode g);
  Done (mk_globals t (event_scheduled g) (call_log g ++ [Call_block EM])).

Definition sleep_unblock_mode (EM : Z) (g : globals) : outcome globals :=
  t ← Sleep.sleep_unblock_mode EM (lowest_energy_mode g);
  Done (mk_globals t (event_scheduled g) (call_log g ++ [Call_unblock EM])).

Definition add_scheduled_event (event : Z) (g : globals) : globals :=
  mk_globals (lowest_energy_mode g)
    (Scheduler.add_scheduled_event event (event_scheduled g))
    (call_log g ++ [Call_add_event event]).

(** The statics after reset, [sleep_open] and [scheduler_open]. *)
Definition boot : globals := mk_globals [0; 0; 0; 0; 0] 0 [].

End Shared.

(** ** i2c.c and i2c.h *)

Module I2C.

Inductive DEFINED_STATES : Type :=
| start_comm
| send_cmd
| read_request
| read_ms_byte
| read_ls_byte
| stop_comm.

(** Register bits the driver names; they come from the vendor's em_i2c.h
    (EFM32PG12). *)
Definition I2C_CMD_START : Z := 0x1.
Definition I2C_CMD_STOP : Z := 0x2.
Definition I2C_CMD_ACK : Z := 0x4.
Definition I2C_CMD_NACK : Z := 0x8.
Definition I2C_CMD_CLEARTX : Z := 0x40.
Definition I2C_IF_START : Z := 0x1.
Definition I2C_IF_RXDATAV : Z := 0x20.
Definition I2C_IF_ACK : Z := 0x40.
Definition I2C_IF_NACK : Z := 0x80.
Definition I2C_IF_MSTOP : Z := 0x100.
Definition _I2C_STATE_STATE_MASK : Z := 0xE0.
Definition I2C_STATE_STATE_IDLE : Z := 0x0.

(** The registers of one I2C peripheral that the state machine touches,
    as plain 32-bit cells. *)
Record I2C_TypeDef : Type := mk_regs {
  STATE : Z;
  CMD : Z;
  TXDATA : Z;
  RXDATA : Z
}.

(** An [I2C_TypeDef *] is one of the two peripherals of the part. *)
Inductive I2C_ptr : Type := I2C0 | I2C1.

Record I2C_STATE_MACHINE : Type := mk_sm {
  state : DEFINED_STATES;
  peripheral : I2C_ptr;
  device_address : Z;
  command : Z;
  sm_busy : bool;
  read : bool;
  read_value : Z          (* a [uint32_t *]: an address of [ram] *)
}.

Record system : Type := mk_system {
  i2c0 : I2C_TypeDef;
  i2c1 : I2C_TypeDef;
  i2c_peripheral_state : I2C_STATE_MACHINE;
  scheduled_read_cb : Z;
  ram : Z -> Z;           (* the words [read_value] pointers point to *)
  shared : Shared.globals
}.

Definition set_CMD (v : Z) (r : I2C_TypeDef) : I2C_TypeDef :=
  mk_regs (STATE r) v (TXDATA r) (RXDATA r).
Definition set_TXDATA (v : Z) (r : I2C_TypeDef) : I2C_TypeDef :=
  mk_regs (STATE r) (CMD r) v (RXDATA r).
Definition set_RXDATA (v : Z) (r : I2C_TypeDef) : I2C_TypeDef :=
  mk_regs (STATE r) (CMD r) (TXDATA r) v.

Definition set_state (v : DEFINED_STATES) (m : I2C_STATE_MACHINE) :=
  mk_sm v (peripheral m) (device_address m) (command m) (sm_busy m) (read m)
    (read_value m).
Definition set_sm_busy (v : bool) (m : I2C_STATE_MACHINE) :=
  mk_sm (state m) (peripheral m) (device_address m) (command m) v (read m)
    (read_value m).
Definition set_read (v : bool) (m : I2C_STATE_MACHINE) :=
  mk_sm (state m) (peripheral m) (device_address m) (command m) (sm_busy m) v
    (read_value m).

Definition regs (p : I2C_ptr) (s : system) : I2C_TypeDef :=
  match p with I2C0 => i2c0 s | I2C1 => i2c1 s end.

Definition set_regs (p : I2C_ptr) (r : I2C_TypeDef) (s : system) : system :=
  match p with
  | I2C0 => mk_system r (i2c1 s) (i2c_peripheral_state s)
              (scheduled_read_cb s) (ram s) (shared s)
  | I2C1 => mk_system (i2c0 s) r (i2c_peripheral_state s)
              (scheduled_read_cb s) (ram s) (shared s)
  end.
Definition set_sm (m : I2C_STATE_MACHINE) (s : system) : system :=
  mk_system (i2c0 s) (i2c1 s) m (scheduled_read_cb s) (ram s) (shared s).
Definition set_cb (v : Z) (s : system) : system :=
  mk_system (i2c0 s) (i2c1 s) (i2c_peripheral_state s) v (ram s) (shared s).
Definition set_ram (v : Z -> Z) (s : system) : system :=
  mk_system (i2c0 s) (i2c1 s) (i2c_peripheral_state s) (scheduled_read_cb s) v
    (shared s).
Definition set_shared (v : Shared.globals) (s : system) : system :=
  mk_system (i2c0 s) (i2c1 s) (i2c_peripheral_state s) (scheduled_read_cb s)
    (ram s) v.

(** [*p = v] *)
Definition store (p v : Z) (m : Z -> Z) : Z -> Z :=
  fun a => if a =? p then v else m a.

(** Updates through [i2c_peripheral_state.peripheral->...] and of the fields
    of [i2c_peripheral_state]. *)
Definition on_peripheral (f : I2C_TypeDef -> I2C_TypeDef) (s : system) : system :=
  let p := peripheral (i2c_peripheral_state s) in set_regs p (f (regs p s)) s.
Definition on_sm (f : I2C_STATE_MACHINE -> I2C_STATE_MACHINE) (s : system) : system :=
  set_sm (f (i2c_peripheral_state s)) s.

(** [reg |= bits] *)
Definition CMD_or (bits : Z) (r : I2C_TypeDef) : I2C_TypeDef :=
  set_CMD (Z.lor (CMD r) bits) r.
Definition TXDATA_or (bits : Z) (r : I2C_TypeDef) : I2C_TypeDef :=
  set_TXDATA (Z.lor (TXDATA r) bits) r.

(** [slave_address << 1 | read] *)
Definition address_byte (device_address : Z) (read : bool) : Z :=
  Z.lor (wrap_u32 (Z.shiftl device_address 1)) (Z.b2z read).

Definition i2c_start (i2c_peripheral : I2C_ptr)
    (slave_address command read_value callback : Z) (s : system)
  : outcome system :=
  _ ← EFM_ASSERT (Z.land (STATE (regs i2c_peripheral s)) _I2C_STATE_STATE_MASK
                  =? I2C_STATE_STATE_IDLE);
  g ← Shared.sleep_block_mode Sleep.EM2 (shared s);
  let s := set_shared g s in
  let s := set_sm (mk_sm start_comm i2c_peripheral slave_address command
                     (sm_busy (i2c_peripheral_state s)) false read_value) s in
  let s := set_cb callback s in
  let s := on_peripheral (CMD_or I2C_CMD_START) s in
  let s := on_peripheral (TXDATA_or (address_byte slave_address false)) s in
  Done s.

(** The [default:] arms of the five handlers are for values outside the
    enumeration; [DEFINED_STATES] has none. *)

Definition i2c_start_interrupt (s : system) : outcome system :=
  match state (i2c_peripheral_state s) with
  | start_comm => Done s
  | send_cmd => Done s
  | read_request => Done s
  | read_ms_byte => Done s
  | read_ls_byte => Done s
  | stop_comm => _ ← EFM_ASSERT false; Done s
  end.

Definition i2c_ack_interrupt (s : system) : outcome system :=
  match state (i2c_peripheral_state s) with
  | start_comm =>
      let s := on_sm (set_sm_busy true) s in
      let s := on_sm (set_read false) s in
      let s := on_peripheral (set_CMD I2C_CMD_CLEARTX) s in
      let s := on_peripheral (TXDATA_or (command (i2c_peripheral_state s))) s in
      Done (on_sm (set_state send_cmd) s)
  | send_cmd =>
      let s := on_peripheral (CMD_or I2C_CMD_CLEARTX) s in
      let s := on_peripheral (CMD_or I2C_CMD_START) s in
      let s := on_sm (set_read true) s in
      let s := on_peripheral
                 (TXDATA_or (address_byte
                               (device_address (i2c_peripheral_state s))
                               (read (i2c_peripheral_state s)))) s in
      Done (on_sm (set_state read_request) s)
  | read_request =>
      let s := on_peripheral (CMD_or I2C_CMD_CLEARTX) s in
      Done (on_sm (set_state read_ms_byte) s)
  | read_ms_byte => Done s
  | read_ls_byte => Done s
  | stop_comm => _ ← EFM_ASSERT false; Done s
  end.

Definition i2c_nack_interrupt (s : system) : outcome system :=
  match state (i2c_peripheral_state s) with
  | start_comm => _ ← EFM_ASSERT false; Done s
  | send_cmd => Done s            (* the assertion is commented out *)
  | read_request =>
      let s := on_peripheral (CMD_or I2C_CMD_CLEARTX) s in
      let s := on_sm (set_read true) s in
      let s := on_peripheral (CMD_or I2C_CMD_START) s in
      let s := on_peripheral
                 (TXDATA_or (address_byte
                               (device_address (i2c_peripheral_state s))
                               (read (i2c_peripheral_state s)))) s in
      Done (on_sm (set_state read_request) s)
  | read_ms_byte => _ ← EFM_ASSERT false; Done s
  | read_ls_byte => _ ← EFM_ASSERT false; Done s
  | stop_comm => _ ← EFM_ASSERT false; Done s
  end.

Definition i2c_mstop_interrupt (s : system) : outcome system :=
  match state (i2c_peripheral_state s) with
  | start_comm => _ ← EFM_ASSERT false; Done s
  | send_cmd => _ ← EFM_ASSERT false; Done s
  | read_request => _ ← EFM_ASSERT false; Done s
  | read_ms_byte => _ ← EFM_ASSERT false; Done s
  | read_ls_byte => _ ← EFM_ASSERT false; Done s
  | stop_comm =>
      let s := on_sm (set_sm_busy false) s in
      g ← Shared.sleep_unblock_mode Sleep.EM2 (shared s);
      let s := set_shared g s in
      Done (set_shared (Shared.add_scheduled_event (scheduled_read_cb s)
                          (shared s)) s)
  end.

Definition i2c_rxdatav_interrupt (s : system) : outcome system :=
  match state (i2c_peripheral_state s) with
  | start_comm => _ ← EFM_ASSERT false; Done s
  | send_cmd => _ ← EFM_ASSERT false; Done s
  | read_request => _ ← EFM_ASSERT false; Done s
  | read_ms_byte =>
      let s := on_peripheral (CMD_or I2C_CMD_CLEARTX) s in
      let p := peripheral (i2c_peripheral_state s) in
      let s := set_ram (store (read_value (i2c_peripheral_state s))
                          (wrap_u32 (Z.shiftl (RXDATA (regs p s)) 8))
                          (ram s)) s in
      let s := on_peripheral (CMD_or I2C_CMD_ACK) s in
      Done (on_sm (set_state read_ls_byte) s)
  | read_ls_byte =>
      let s := on_peripheral (CMD_or I2C_CMD_CLEARTX) s in
      let p := peripheral (i2c_peripheral_state s) in
      let a := read_value (i2c_peripheral_state s) in
      let s := set_ram (store a (Z.lor (ram s a) (RXDATA (regs p s)))
                          (ram s)) s in
      let s := on_peripheral (CMD_or I2C_CMD_NACK) s in
      let s := on_peripheral (CMD_or I2C_CMD_STOP) s in
      Done (on_sm (set_state stop_comm) s)
  | stop_comm => _ ← EFM_ASSERT false; Done s
  end.

(** [flag_state & bit] as a condition. *)
Definition flagged (flag_state bit : Z) : bool :=
  negb (Z.land flag_state bit =? 0).

(** [I2C0_IRQHandler] and [I2C1_IRQHandler] after they have read and
    cleared [flag_state = IF & IEN]; both have this body. *)
Definition I2C_IRQHandler (flag_state : Z) (s : system) : outcome system :=
  s ← (if flagged flag_state I2C_IF_START then i2c_start_interrupt s else Done s);
  s ← (if flagged flag_state I2C_IF_ACK then i2c_ack_interrupt s else Done s);
  s ← (if flagged flag_state I2C_IF_NACK then i2c_nack_interrupt s else Done s);
  s ← (if flagged flag_state I2C_IF_MSTOP then i2c_mstop_interrupt s else Done s);
  if flagged flag_state I2C_IF_RXDATAV then i2c_rxdatav_interrupt s else Done s.

(** The interrupt conditions of the bus; data-available comes with the byte
    the peripheral has received into RXDATA. *)
Inductive interrupt : Type :=
| START
| ACK
| NACK
| MSTOP
| RXDATAV (data : Z).

Definition deliver (i : interrupt) (s : system) : outcome system :=
  match i with
  | START => I2C_IRQHandler I2C_IF_START s
  | ACK => I2C_IRQHandler I2C_IF_ACK s
  | NACK => I2C_IRQHandler I2C_IF_NACK s
  | MSTOP => I2C_IRQHandler I2C_IF_MSTOP s
  | RXDATAV data =>
      I2C_IRQHandler I2C_IF_RXDATAV (on_peripheral (set_RXDATA data) s)
  end.

Fixpoint deliver_all (irqs : list interrupt) (s : system) : outcome system :=
  match irqs with
  | [] => Done s
  | i :: irqs' => s' ← deliver i s; deliver_all irqs' s'
  end.

(** The transitions section 4.3 of the design lists, with the acknowledge
    that ends the read request (section 8). *)
Definition listed (st : DEFINED_STATES) (i : interrupt) : bool :=
  match st, i with
  | start_comm, ACK => true
  | send_cmd, ACK => true
  | read_request, ACK => true
  | read_request, NACK => true
  | read_ms_byte, RXDATAV _ => true
  | read_ls_byte, RXDATAV _ => true
  | stop_comm, MSTOP => true
  | _, _ => false
  end.

(** The unlisted pairs whose arm in the handler is a bare [break]. *)
Definition ignored (st : DEFINED_STATES) (i : interrupt) : bool :=
  match st, i with
  | (start_comm | send_cmd | read_request | read_ms_byte | read_ls_byte), START
      => true
  | (read_ms_byte | read_ls_byte), ACK => true
  | send_cmd, NACK => true
  | _, _ => false
  end.

(** The statics of i2c.c after reset (zero-initialised, so the state field
    holds [start_comm], the enumeration's first value) over idle
    peripherals; the machine's peripheral pointer is taken to be I2C0. *)
Definition boot : system :=
  mk_system (mk_regs 0 0 0 0) (mk_regs 0 0 0 0)
    (mk_sm start_comm I2C0 0 0 false false 0) 0 (fun _ => 0) Shared.boot.

(** A machine caught in the middle of a read: [boot] after [i2c_start] and
    the three acknowledges that take it to [read_ms_byte], where it waits
    for the first byte. *)
Definition awaiting_data : outcome system :=
  s ← i2c_start I2C0 0x40 0xF3 0x20000000 0x8 boot;
  deliver_all [ACK; ACK; ACK] s.

(** The same read two bytes later, in [stop_comm], where it waits for the
    stop to be confirmed. *)
Definition awaiting_stop : outcome system :=
  s ← i2c_start I2C0 0x40 0xF3 0x20000000 0x8 boot;
  deliver_all [ACK; ACK; ACK; RXDATAV 0x61; RXDATAV 0x2C] s.

End I2C.

(** ** leuart.c *)

Module Leuart.

(** Modelled from the spec: leuart.h, which declares the type, is absent.
    These are the states the two handlers switch on, in the order of the
    design's [idle], [sending], [last_byte_sent], [complete]. *)
Inductive LEUART_STATES : Type :=
| idle
| send_data
| active_trans
| end_comm.

(** Register bits the driver names; they come from the vendor's
    em_leuart.h (EFM32PG12). *)
Definition LEUART_IF_TXC : Z := 0x1.
Definition LEUART_IF_TXBL : Z := 0x2.
Definition LEUART_IEN_TXC : Z := 0x1.
Definition LEUART_IEN_TXBL : Z := 0x2.
Definition LEUART_IFS_TXC : Z := 0x1.
Definition LEUART_STATUS_TXIDLE : Z := 0x40.

(** The registers of LEUART0 that the transmit path touches.  A write to
    TXDATA hands a byte to the transmitter: [wire] lists these bytes, oldest
    first.  A write to IFS sets, a write to IFC clears, the written bits of
    IF. *)
Record LEUART_TypeDef : Type := mk_regs {
  STATUS : Z;
  IEN : Z;
  IF_ : Z;
  wire : list Z
}.

(** [LEUART_SM]; its [leuart] pointer always designates LEUART0, the only
    LEUART of the part and the one [LEUART0_IRQHandler] serves. *)
Record LEUART_SM : Type := mk_sm {
  sm_busy : bool;
  str_length : Z;
  state : LEUART_STATES;
  output : list Z;        (* char output[80] *)
  count : Z
}.

Record system : Type := mk_system {
  LEUART0 : LEUART_TypeDef;
  sm : LEUART_SM;
  rx_done_evt : Z;
  tx_done_evt : Z;
  shared : Shared.globals
}.

Definition set_STATUS (v : Z) (r : LEUART_TypeDef) : LEUART_TypeDef :=
  mk_regs v (IEN r) (IF_ r) (wire r).
Definition set_IEN (v : Z) (r : LEUART_TypeDef) : LEUART_TypeDef :=
  mk_regs (STATUS r) v (IF_ r) (wire r).
Definition set_IF (v : Z) (r : LEUART_TypeDef) : LEUART_TypeDef :=
  mk_regs (STATUS r) (IEN r) v (wire r).
(** [leuart->TXDATA = v] *)
Definition write_TXDATA (v : Z) (r : LEUART_TypeDef) : LEUART_TypeDef :=
  mk_regs (STATUS r) (IEN r) (IF_ r) (wire r ++ [v]).

Definition set_sm_busy (v : bool) (m : LEUART_SM) : LEUART_SM :=
  mk_sm v (str_length m) (state m) (output m) (count m).
Definition set_state (v : LEUART_STATES) (m : LEUART_SM) : LEUART_SM :=
  mk_sm (sm_busy m) (str_length m) v (output m) (count m).
Definition set_count (v : Z) (m : LEUART_SM) : LEUART_SM :=
  mk_sm (sm_busy m) (str_length m) (state m) (output m) v.

Definition on_leuart (f : LEUART_TypeDef -> LEUART_TypeDef) (s : system) : system :=
  mk_system (f (LEUART0 s)) (sm s) (rx_done_evt s) (tx_done_evt s) (shared s).
Definition on_sm (f : LEUART_SM -> LEUART_SM) (s : system) : system :=
  mk_system (LEUART0 s) (f (sm s)) (rx_done_evt s) (tx_done_evt s) (shared s).
Definition set_shared (g : Shared.globals) (s : system) : system :=
  mk_system (LEUART0 s) (sm s) (rx_done_evt s) (tx_done_evt s) g.

(** [strcpy(dst, src)]: the bytes of [src] and the terminating zero. *)
Definition strcpy (dst src : list Z) : outcome (list Z) :=
  let n := Z.to_nat (strlen src) in
  if strlen src + 1 <=? Z.of_nat (length dst)
  then Done (take n src ++ 0 :: drop (S n) dst)
  else Undef.

Section Config.

(** [LEUART_TX_EM], the energy mode the transmitter blocks; leuart.h, which
    defines it, is absent. *)
Variable LEUART_TX_EM : Z.

(** The wait [while(!(leuart->STATUS & LEUART_STATUS_TXIDLE));] ends when
    the hardware has set the bit. *)
Definition leuart_start (string : list Z) (string_len : Z) (s : system)
  : outcome system :=
  let s := on_leuart (fun r => set_STATUS (Z.lor (STATUS r) LEUART_STATUS_TXIDLE) r) s in
  g ← Shared.sleep_block_mode LEUART_TX_EM (shared s);
  let s := set_shared g s in
  let s := on_sm (set_state idle) s in
  let s := on_sm (set_count 0) s in
  out ← strcpy (output (sm s)) string;
  let s := on_sm (fun m => mk_sm true string_len (state m) out (count m)) s in
  Done (on_leuart (set_IEN LEUART_IEN_TXBL) s).

(** [sm.leuart->TXDATA = sm.output[sm.count]; sm.count++;] *)
Definition send_next (s : system) : outcome system :=
  c ← arr_read (output (sm s)) (count (sm s));
  let s := on_leuart (write_TXDATA c) s in
  Done (on_sm (set_count (wrap_u32 (count (sm s) + 1))) s).

Definition leuart0_txbl_interrupt (s : system) : outcome system :=
  match state (sm s) with
  | idle =>
      s ← send_next s;
      Done (on_sm (set_state send_data) s)
  | send_data =>
      if count (sm s) =? wrap_u32 (str_length (sm s) - 1)
      then
        s ← send_next s;
        let s := on_leuart (fun r => set_IEN (Z.land (IEN r) (not32 LEUART_IEN_TXBL)) r) s in
        let s := on_leuart (fun r => set_IEN (Z.lor (IEN r) LEUART_IEN_TXC) r) s in
        Done (on_sm (set_state active_trans) s)
      else
        s ← send_next s;
        Done (on_sm (set_state send_data) s)
  | active_trans => _ ← EFM_ASSERT false; Done s
  | end_comm => _ ← EFM_ASSERT false; Done s
  end.

Definition leuart0_txc_interrupt (s : system) : outcome system :=
  match state (sm s) with
  | idle => _ ← EFM_ASSERT false; Done s
  | send_data => _ ← EFM_ASSERT false; Done s
  | active_trans =>
      let s := on_sm (set_state end_comm) s in
      Done (on_leuart (fun r => set_IF (Z.lor (IF_ r) LEUART_IFS_TXC) r) s)
  | end_comm =>
      let s := on_leuart (fun r => set_IEN (Z.land (IEN r) (not32 LEUART_IEN_TXC)) r) s in
      let s := on_sm (set_sm_busy false) s in
      g ← Shared.sleep_unblock_mode LEUART_TX_EM (shared s);
      let s := set_shared g s in
      Done (set_shared (Shared.add_scheduled_event (tx_done_evt s) (shared s)) s)
  end.

Definition flagged (flags bit : Z) : bool := negb (Z.land flags bit =? 0).

Definition LEUART0_IRQHandler (s : system) : outcome system :=
  let interrupt_flags := Z.land (IF_ (LEUART0 s)) (IEN (LEUART0 s)) in
  let s := on_leuart (fun r => set_IF (Z.land (IF_ r) (not32 interrupt_flags)) r) s in
  s ← (if flagged interrupt_flags LEUART_IF_TXBL
       then leuart0_txbl_interrupt s else Done s);
  if flagged interrupt_flags LEUART_IF_TXC
  then leuart0_txc_interrupt s else Done s.

(** The two interrupt conditions of the transmitter, delivered to their
    handlers. *)
Inductive interrupt : Type := TXBL | TXC.

Definition deliver (i : interrupt) (s : system) : outcome system :=
  match i with
  | TXBL => leuart0_txbl_interrupt s
  | TXC => leuart0_txc_interrupt s
  end.

(** One interrupt request of LEUART0.  The hardware holds "buffer has
    space" and "transmission complete" raised in IF; which of them interrupt
    is left to IEN, as the driver has set it. *)
Definition irq (s : system) : outcome system :=
  LEUART0_IRQHandler
    (on_leuart (fun r => set_IF (Z.lor (IF_ r) (Z.lor LEUART_IF_TXBL LEUART_IF_TXC)) r) s).

Fixpoint irqs (n : nat) (s : system) : outcome system :=
  match n with
  | O => Done s
  | S n' => s' ← irq s; irqs n' s'
  end.

End Config.

(** The transitions section 4.4 of the design lists. *)
Definition listed (st : LEUART_STATES) (i : interrupt) : bool :=
  match st, i with
  | idle, TXBL => true
  | send_data, TXBL => true
  | active_trans, TXC => true
  | end_comm, TXC => true
  | _, _ => false
  end.

(** The statics of leuart.c after reset, over an idle LEUART0. *)
Definition boot (tx_done : Z) : system :=
  mk_system (mk_regs 0 0 0 []) (mk_sm false 0 idle (replicate 80 0) 0)
    0 tx_done Shared.boot.

End Leuart.

(** ** ble.c: the circular buffer *)

Module Ble.

(** Modelled from the spec: ble.h, which declares [BLE_CIRCULAR_BUF] and
    defines CSIZE, the length of [cbuf], is absent.  The buffer is a byte
    array of power-of-two capacity with a read and a write cursor; the
    fields are the ones ble.c uses.  Cursors and sizes are non-negative
    integers wide enough for twice CSIZE, and [cbuf] holds 8-bit unsigned
    [char]s (the ARM EABI's [char]).  CSIZE is a parameter. *)
Record BLE_CIRCULAR_BUF : Type := mk_cbuf {
  cbuf : list Z;
  size : Z;
  size_mask : Z;
  read_ptr : Z;
  write_ptr : Z
}.

Definition ble_circ_init (CSIZE : Z) (b : BLE_CIRCULAR_BUF) : BLE_CIRCULAR_BUF :=
  mk_cbuf (cbuf b) CSIZE (CSIZE - 1) 0 0.

(** The result is a [uint8_t]. *)
Definition ble_circ_space (b : BLE_CIRCULAR_BUF) : Z :=
  if read_ptr b <=? write_ptr b
  then wrap_u8 (size b - Z.abs (write_ptr b - read_ptr b))
  else wrap_u8 (read_ptr b - write_ptr b).

Definition update_circ_wrtindex (update_by : Z) (b : BLE_CIRCULAR_BUF) :=
  mk_cbuf (cbuf b) (size b) (size_mask b) (read_ptr b)
    (Z.land (write_ptr b + update_by) (size_mask b)).

Definition update_circ_readindex (update_by : Z) (b : BLE_CIRCULAR_BUF) :=
  mk_cbuf (cbuf b) (size b) (size_mask b)
    (Z.land (read_ptr b + update_by) (size_mask b)) (write_ptr b).

(** [for(i...) cbuf[(write_ptr + i + 1) & size_mask] = string[i];] with [n]
    iterations left. *)
Fixpoint push_loop (n : nat) (i : Z) (string : list Z) (w mask : Z)
    (c : list Z) : outcome (list Z) :=
  match n with
  | O => Done c
  | S n' =>
      c' ← arr_write c (Z.land (w + i + 1) mask) (char_at string i);
      push_loop n' (i + 1) string w mask c'
  end.

Definition ble_circ_push (string : list Z) (b : BLE_CIRCULAR_BUF)
  : outcome BLE_CIRCULAR_BUF :=
  let string_len := strlen string + 1 in
  _ ← (if ble_circ_space b <? string_len then EFM_ASSERT false else Done tt);
  c ← arr_write (cbuf b) (write_ptr b) (wrap_u8 string_len);
  c ← push_loop (Z.to_nat (string_len - 1)) 0 string (write_ptr b)
        (size_mask b) c;
  Done (update_circ_wrtindex string_len
          (mk_cbuf c (size b) (size_mask b) (read_ptr b) (write_ptr b))).

(** [for(i...) print_str[i] = cbuf[(read_ptr + i + 1) & size_mask];] with
    [n] iterations left: the bytes of [print_str] from index [i] on. *)
Fixpoint pop_loop (n : nat) (i : Z) (r mask : Z) (c : list Z)
  : outcome (list Z) :=
  match n with
  | O => Done []
  | S n' =>
      x ← arr_read c (Z.land (r + i + 1) mask);
      rest ← pop_loop n' (i + 1) r mask c;
      Done (x :: rest)
  end.

(** Where a pop hands the string it has taken off the buffer. *)
Inductive delivery : Type :=
| Nothing
| To_leuart_start (print_str : list Z) (string_len : Z)
| To_result_str (result_str : list Z).

(** [ble_circ_pop(test)]; [tx_busy] is what [leuart_tx_busy(HM10_LEUART0)]
    answers.  The result is the returned flag, the delivery and the buffer.
    In test mode [result_str] is zeroed over [size] bytes and then
    receives the string. *)
Definition ble_circ_pop (test tx_busy : bool) (b : BLE_CIRCULAR_BUF)
  : outcome (bool * delivery * BLE_CIRCULAR_BUF) :=
  if tx_busy then Done (true, Nothing, b)
  else if read_ptr b =? write_ptr b then Done (true, Nothing, b)
  else
    str_length ← arr_read (cbuf b) (read_ptr b);
    print_str ← pop_loop (Z.to_nat (str_length - 1)) 0 (read_ptr b)
                  (size_mask b) (cbuf b);
    let d :=
      if test
      then To_result_str
             (print_str ++
              replicate (Z.to_nat (size b) - length print_str)%nat 0)
      else To_leuart_start print_str (str_length - 1) in
    Done (false, d, update_circ_readindex str_length b).

(** Pushes one after the other. *)
Fixpoint push_all (strings : list (list Z)) (b : BLE_CIRCULAR_BUF)
  : outcome BLE_CIRCULAR_BUF :=
  match strings with
  | [] => Done b
  | s :: rest => b' ← ble_circ_push s b; push_all rest b'
  end.

(** The bytes a list of strings takes in the buffer: payload plus the
    length byte, each. *)
Definition encoded_size (strings : list (list Z)) : Z :=
  foldr (fun s acc => strlen s + 1 + acc) 0 strings.

(** What [ble_circ_init] sets up over an array of CSIZE bytes, with both
    cursors moved to [p]. *)
Definition empty_at (CSIZE p : Z) (b : BLE_CIRCULAR_BUF) : Prop :=
  Z.of_nat (length (cbuf b)) = CSIZE /\ size b = CSIZE /\
  size_mask b = CSIZE - 1 /\ read_ptr b = p /\ write_ptr b = p.

(** The static [ble_cbuf] after reset and [ble_circ_init]. *)
Definition fresh (CSIZE : Z) : BLE_CIRCULAR_BUF :=
  ble_circ_init CSIZE (mk_cbuf (replicate (Z.to_nat CSIZE) 0) 0 0 0 0).

(** Modelled from the spec: the two values of the [test] argument are
    defined in the absent ble.h.  A pop with CIRC_TEST fills [result_str], a
    pop with CIRC_OPER calls [leuart_start]. *)
Definition CIRC_TEST : bool := true.
Definition CIRC_OPER : bool := false.

(** [ble_write]; the result of the pop is kept, to see what was handed
    on. *)
Definition ble_write (string : list Z) (tx_busy : bool) (b : BLE_CIRCULAR_BUF)
  : outcome (bool * delivery * BLE_CIRCULAR_BUF) :=
  b' ← ble_circ_push string b;
  ble_circ_pop CIRC_OPER tx_busy b'.

(** The strings [strings] lie in the array from position [pos] on, each as
    its length byte and its bytes, positions taken modulo CSIZE. *)
Fixpoint queued (CSIZE : Z) (c : list Z) (pos : Z) (strings : list (list Z))
  : Prop :=
  match strings with
  | [] => True
  | s :: rest =>
      cell c (pos mod CSIZE) = strlen s + 1 /\
      (forall i, 0 <= i < strlen s ->
         cell c ((pos + i + 1) mod CSIZE) = char_at s i) /\
      queued CSIZE c (pos + (strlen s + 1)) rest
  end.

(** The buffer holds the queue [q]: the strings lie from the read cursor
    on, the write cursor is their encoded size further, and they take less
    than the whole array. *)
Definition represents (CSIZE : Z) (b : BLE_CIRCULAR_BUF) (q : list (list Z))
  : Prop :=
  Z.of_nat (length (cbuf b)) = CSIZE /\ size b = CSIZE /\
  size_mask b = CSIZE - 1 /\ 0 <= read_ptr b < CSIZE /\
  encoded_size q < CSIZE /\
  write_ptr b = (read_ptr b + encoded_size q) mod CSIZE /\
  queued CSIZE (cbuf b) (read_ptr b) q.

(** What a pop hands to [leuart_start] for the string [s]. *)
Definition payload (s : list Z) : delivery :=
  To_leuart_start (take (Z.to_nat (strlen s)) s) (strlen s).

(** Pushes and pops (with CIRC_OPER and the transmitter idle) in any
    order; the deliveries of the pops are collected. *)
Inductive op : Type :=
| Push (string : list Z)
| Pop.

Fixpoint run_ops (ops : list op) (b : BLE_CIRCULAR_BUF)
  : outcome (list delivery * BLE_CIRCULAR_BUF) :=
  match ops with
  | [] => Done ([], b)
  | Push s :: ops' => b' ← ble_circ_push s b; run_ops ops' b'
  | Pop :: ops' =>
      '(_, d, b') ← ble_circ_pop CIRC_OPER false b;
      '(ds, b'') ← run_ops ops' b';
      Done (d :: ds, b'')
  end.

(** The same operations on a first-in first-out queue of strings that takes
    a string only while the queued bytes stay below CSIZE. *)
Fixpoint fifo (CSIZE : Z) (ops : list op) (q : list (list Z))
  : option (list delivery * list (list Z)) :=
  match ops with
  | [] => Some ([], q)
  | Push s :: ops' =>
      if encoded_size q + (strlen s + 1) <? CSIZE
      then fifo CSIZE ops' (q ++ [s])
      else None
  | Pop :: ops' =>
      match q with
      | [] => '(ds, q') ← fifo CSIZE ops' []; Some (Nothing :: ds, q')
      | s :: q0 => '(ds, q') ← fifo CSIZE ops' q0; Some (payload s :: ds, q')
      end
  end.

(** [circular_buff_test].  The three test strings: [len] bytes counting up
    from [first], and the terminating zero. *)
Definition test_string (len first : Z) : list Z :=
  ((fun i => wrap_u8 (Z.of_nat i + first)) <$> seq 0 (Z.to_nat len)) ++ [0].

Definition test1_len : Z := 50.
Definition test2_len : Z := 25.
Definition test3_len : Z := 5.

(** [for (i...) EFM_ASSERT(test_str[i] == result_str[i]);] with [n]
    iterations left. *)
Fixpoint compare_loop (n : nat) (i : Z) (test_str result_str : list Z)
  : outcome unit :=
  match n with
  | O => Done tt
  | S n' =>
      _ ← EFM_ASSERT (char_at test_str i =? char_at result_str i);
      compare_loop n' (i + 1) test_str result_str
  end.

(** [buff_empty = ble_circ_pop(CIRC_TEST)] with its effect on
    [test_struct.result_str]. *)
Definition pop_for_test (tx_busy : bool) (result_str : list Z)
    (b : BLE_CIRCULAR_BUF) : outcome (bool * list Z * BLE_CIRCULAR_BUF) :=
  '(buff_empty, d, b') ← ble_circ_pop CIRC_TEST tx_busy b;
  Done (buff_empty,
        match d with To_result_str r => r | _ => result_str end, b').

(** "\nPassed Circular Buffer Test\n" *)
Definition passed_message : list Z :=
  [10; 80; 97; 115; 115; 101; 100; 32; 67; 105; 114; 99; 117; 108; 97; 114;
   32; 66; 117; 102; 102; 101; 114; 32; 84; 101; 115; 116; 10].

Definition circular_buff_test (CSIZE : Z) (tx_busy : bool)
    (result_str : list Z) (b : BLE_CIRCULAR_BUF)
  : outcome (bool * delivery * BLE_CIRCULAR_BUF) :=
  let b := mk_cbuf (cbuf b) (size b) (size_mask b) 0 0 in
  let test_str0 := test_string test1_len 1 in
  let test_str1 := test_string test2_len 20 in
  let test_str2 := test_string test3_len 35 in
  _ ← EFM_ASSERT (ble_circ_space b =? CSIZE);
  b ← ble_circ_push test_str0 b;
  _ ← EFM_ASSERT (ble_circ_space b =? CSIZE - test1_len - 1);
  '(buff_empty, result_str, b) ← pop_for_test tx_busy result_str b;
  _ ← EFM_ASSERT (eqb buff_empty false);
  _ ← compare_loop (Z.to_nat test1_len) 0 test_str0 result_str;
  _ ← EFM_ASSERT (strlen result_str =? test1_len);
  _ ← EFM_ASSERT (ble_circ_space b =? CSIZE);
  b ← ble_circ_push test_str1 b;
  _ ← EFM_ASSERT (ble_circ_space b =? CSIZE - test2_len - 1);
  b ← ble_circ_push test_str2 b;
  _ ← EFM_ASSERT (ble_circ_space b =? CSIZE - test2_len - 1 - test3_len - 1);
  _ ← EFM_ASSERT (Z.abs (write_ptr b - read_ptr b) <? CSIZE);
  '(buff_empty, result_str, b) ← pop_for_test tx_busy result_str b;
  _ ← EFM_ASSERT (eqb buff_empty false);
  _ ← compare_loop (Z.to_nat test2_len) 0 test_str1 result_str;
  _ ← EFM_ASSERT (strlen result_str =? test2_len);
  _ ← EFM_ASSERT (ble_circ_space b =? CSIZE - test3_len - 1);
  '(buff_empty, result_str, b) ← pop_for_test tx_busy result_str b;
  _ ← EFM_ASSERT (eqb buff_empty false);
  _ ← compare_loop (Z.to_nat test3_len) 0 test_str2 result_str;
  _ ← EFM_ASSERT (strlen result_str =? test3_len);
  _ ← EFM_ASSERT (ble_circ_space b =? CSIZE);
  '(buff_empty, result_str, b) ← pop_for_test tx_busy result_str b;
  _ ← EFM_ASSERT (eqb buff_empty true);
  ble_write passed_message tx_busy b.

End Ble.

(** ** app.c of the course project: the handler of the TX-done event *)

Module App.

(** The statics the handler reaches: the scheduler's mask and the circular
    buffer. *)
Record system : Type := mk_system {
  event_scheduled : Z;
  ble_cbuf : Ble.BLE_CIRCULAR_BUF
}.

Section Config.

(** [BLE_TX_DONE_CB], the event mask of app.h, which is absent. *)
Variable BLE_TX_DONE_CB : Z.

(** [scheduled_ble_tx_done_cb]; the result carries what the pop handed
    on. *)
Definition scheduled_ble_tx_done_cb (tx_busy : bool) (s : system)
  : outcome (Ble.delivery * system) :=
  _ ← EFM_ASSERT
        (negb (Z.land BLE_TX_DONE_CB
                 (Scheduler.get_scheduled_events (event_scheduled s)) =? 0));
  let es := Scheduler.remove_scheduled_event BLE_TX_DONE_CB (event_scheduled s) in
  '(_, d, b) ← Ble.ble_circ_pop Ble.CIRC_OPER tx_busy (ble_cbuf s);
  Done (d, mk_system es b).

End Config.

End App.

(** * Properties *)

(** ** Outcomes and arrays *)

Lemma bind_Done {A B} (a : A) (k : A -> outcome B) : (Done a ≫= k) = k a.
Proof. reflexivity. Qed.

Lemma bind_Done_inv {A B} (m : outcome A) (k : A -> outcome B) (b : B) :
  (m ≫= k) = Done b -> exists a, m = Done a /\ k a = Done b.
Proof. destruct m as [a| |]; [eauto | discriminate | discriminate]. Qed.

Lemma arr_read_Done (a : list Z) (i : Z) :
  0 <= i < Z.of_nat (length a) -> arr_read a i = Done (cell a i).
Proof.
  intros Hi. unfold arr_read, cell.
  destruct (Z.ltb_spec i 0) as [?|_]; [lia|].
  destruct (lookup_lt_is_Some_2 a (Z.to_nat i)) as [v Hv]; [lia|].
  now rewrite Hv.
Qed.

Lemma arr_read_inv (a : list Z) (i v : Z) :
  arr_read a i = Done v -> 0 <= i < Z.of_nat (length a) /\ cell a i = v.
Proof.
  unfold arr_read, cell.
  destruct (Z.ltb_spec i 0) as [?|Hi]; [discriminate|].
  destruct (a !! Z.to_nat i) as [x|] eqn:Hx; [|discriminate].
  intros [= ->]. apply lookup_lt_Some in Hx. split; [lia | reflexivity].
Qed.

Lemma arr_write_Done (a : list Z) (i v : Z) :
  0 <= i < Z.of_nat (length a) ->
  arr_write a i v = Done (<[Z.to_nat i := v]> a).
Proof.
  intros Hi. unfold arr_write.
  destruct (Z.leb_spec 0 i); [|lia].
  destruct (Z.ltb_spec i (Z.of_nat (length a))); [reflexivity | lia].
Qed.

Lemma arr_write_inv (a a' : list Z) (i v : Z) :
  arr_write a i v = Done a' ->
  0 <= i < Z.of_nat (length a) /\ a' = <[Z.to_nat i := v]> a.
Proof.
  unfold arr_write.
  destruct (Z.leb_spec 0 i); [|discriminate].
  destruct (Z.ltb_spec i (Z.of_nat (length a))); [|discriminate].
  intros [= <-]. split; [lia | reflexivity].
Qed.

Lemma cell_insert_eq (a : list Z) (i v : Z) :
  0 <= i < Z.of_nat (length a) -> cell (<[Z.to_nat i := v]> a) i = v.
Proof.
  intros Hi. unfold cell. rewrite list_lookup_insert_eq; [reflexivity | lia].
Qed.

Lemma cell_insert_ne (a : list Z) (i j v : Z) :
  0 <= i -> 0 <= j -> i <> j -> cell (<[Z.to_nat i := v]> a) j = cell a j.
Proof.
  intros Hi Hj Hne. unfold cell. rewrite list_lookup_insert_ne; [reflexivity | lia].
Qed.

(** ** The sleep arbiter *)

Section SleepFacts.
Import Sleep.

(** The scan returns the first index from [i] on whose counter is not zero,
    and the deepest mode when the [n] counters it looks at are all zero. *)
Lemma current_block_loop_spec (t : list Z) (n : nat) :
  forall i : Z,
    let m := current_block_loop n i t in
    (i <= m < i + Z.of_nat n /\ cell t m <> 0 /\
     forall j, i <= j < m -> cell t j = 0)
    \/ (m = MAX_ENERGY_MODES - 1 /\
        forall j, i <= j < i + Z.of_nat n -> cell t j = 0).
Proof.
  induction n as [|n IH]; intros i; cbn zeta.
  - right. split; [reflexivity | intros j Hj; lia].
  - cbn [current_block_loop].
    destruct (Z.eqb_spec (cell t i) 0) as [Hz|Hnz]; cbn [negb].
    + destruct (IH (i + 1)) as [(Hm & Hc & Hlow)|(Hm & Hall)].
      * left. split; [lia|]. split; [exact Hc|].
        intros j Hj. destruct (Z.eq_dec j i) as [->|Hne]; [exact Hz|].
        apply Hlow. lia.
      * right. split; [exact Hm|].
        intros j Hj. destruct (Z.eq_dec j i) as [->|Hne]; [exact Hz|].
        apply Hall. lia.
    + left. split; [lia|]. split; [exact Hnz | intros j Hj; lia].
Qed.

Lemma current_block_energy_mode_spec (t : list Z) :
  let m := current_block_energy_mode t in
  (0 <= m < MAX_ENERGY_MODES /\ cell t m <> 0 /\
   forall j, 0 <= j < m -> cell t j = 0)
  \/ (m = MAX_ENERGY_MODES - 1 /\
      forall j, 0 <= j < MAX_ENERGY_MODES -> cell t j = 0).
Proof.
  exact (current_block_loop_spec t (Z.to_nat MAX_ENERGY_MODES) 0).
Qed.

Lemma wrap_int_small (z : Z) : - 2 ^ 31 <= z < 2 ^ 31 -> wrap_int z = z.
Proof. intros Hz. unfold wrap_int. rewrite Z.mod_small; lia. Qed.

Lemma holds_ok_insert (t : list Z) (i : nat) (c : Z) :
  holds_ok t -> 0 <= c < 5 -> holds_ok (<[i := c]> t).
Proof.
  intros [Hlen Hall] Hc. split.
  - now rewrite length_insert.
  - apply Forall_insert; assumption.
Qed.

Lemma run_call_holds_ok (c : hold_call) (t t' : list Z) :
  holds_ok t -> run_call c t = Done t' -> holds_ok t'.
Proof.
  intros Hok Hrun.
  assert (Hrange : forall EM x, arr_read t EM = Done x -> 0 <= x < 5).
  { intros EM x Hx. apply arr_read_inv in Hx as [Hi <-]. unfold cell.
    destruct (lookup_lt_is_Some_2 t (Z.to_nat EM)) as [v Hv]; [lia|].
    rewrite Hv. cbn. destruct Hok as [_ Hall].
    rewrite Forall_lookup in Hall. exact (Hall _ _ Hv). }
  destruct c as [EM|EM]; cbn [run_call] in Hrun;
    unfold sleep_block_mode, sleep_unblock_mode in Hrun;
    apply bind_Done_inv in Hrun as (x & Hx & Hrun);
    apply bind_Done_inv in Hrun as (t1 & Ht1 & Hrun);
    apply bind_Done_inv in Hrun as ([] & Hassert & Hrun);
    injection Hrun as <-;
    apply arr_write_inv in Ht1 as [_ ->];
    specialize (Hrange _ _ Hx);
    unfold EFM_ASSERT in Hassert;
    rewrite wrap_int_small in * by lia.
  - destruct (Z.ltb_spec (x + 1) 5); [|discriminate].
    apply holds_ok_insert; [assumption | lia].
  - destruct (Z.leb_spec 0 (x - 1)); [|discriminate].
    apply holds_ok_insert; [assumption | lia].
Qed.

Lemma run_calls_holds_ok (cs : list hold_call) :
  forall t t', holds_ok t -> run_calls cs t = Done t' -> holds_ok t'.
Proof.
  induction cs as [|c cs IH]; intros t t' Hok Hrun; cbn [run_calls] in Hrun.
  - now injection Hrun as <-.
  - apply bind_Done_inv in Hrun as (t1 & Hc & Hrun).
    eapply IH; [|exact Hrun]. eapply run_call_holds_ok; eassumption.
Qed.

Lemma sleep_open_loop_zero (n : nat) :
  forall (i : Z) (t : list Z),
    0 <= i -> i + Z.of_nat n <= Z.of_nat (length t) ->
    let t' := sleep_open_loop n i t in
    length t' = length t /\
    forall j, 0 <= j < Z.of_nat (length t) ->
      cell t' j = if (i <=? j) && (j <? i + Z.of_nat n) then 0 else cell t j.
Proof.
  induction n as [|n IH]; intros i t Hi Hn; cbn zeta.
  - split; [reflexivity|]. intros j Hj. cbn [sleep_open_loop].
    destruct (Z.leb_spec i j), (Z.ltb_spec j (i + Z.of_nat 0)); cbn; try reflexivity; lia.
  - cbn [sleep_open_loop].
    set (t1 := <[Z.to_nat i := _]> t).
    assert (Hlen1 : length t1 = length t) by apply length_insert.
    destruct (IH (i + 1) t1) as [Hlen Hcells]; [lia | rewrite Hlen1; lia|].
    split; [congruence|].
    intros j Hj. rewrite Hcells by (rewrite Hlen1; lia).
    destruct (Z.eq_dec j i) as [->|Hne].
    + subst t1. rewrite cell_insert_eq by lia.
      destruct (Z.leb_spec (i + 1) i), (Z.leb_spec i i),
        (Z.ltb_spec i (i + Z.of_nat (S n))); cbn; try lia.
      apply Z.land_lnot_diag.
    + subst t1. rewrite cell_insert_ne by lia.
      destruct (Z.leb_spec (i + 1) j), (Z.ltb_spec j (i + 1 + Z.of_nat n)),
        (Z.leb_spec i j), (Z.ltb_spec j (i + Z.of_nat (S n)));
        cbn; try reflexivity; lia.
Qed.

Lemma sleep_open_holds_ok (t : list Z) :
  Z.of_nat (length t) = MAX_ENERGY_MODES -> holds_ok (sleep_open t).
Proof.
  intros Hlen. unfold sleep_open.
  destruct (sleep_open_loop_zero (Z.to_nat MAX_ENERGY_MODES) 0 t) as [Hl Hc];
    [lia | unfold MAX_ENERGY_MODES in *; lia |].
  split; [congruence|].
  apply Forall_lookup. intros k c Hk.
  assert (Hkl : (k < length t)%nat) by (rewrite <- Hl; eapply lookup_lt_Some; eassumption).
  specialize (Hc (Z.of_nat k)). unfold cell in Hc at 1.
  rewrite Nat2Z.id, Hk in Hc. cbn in Hc.
  specialize (Hc ltac:(lia)). revert Hc.
  destruct (Z.leb_spec 0 (Z.of_nat k)),
    (Z.ltb_spec (Z.of_nat k) (0 + Z.of_nat (Z.to_nat MAX_ENERGY_MODES)));
    cbn; unfold MAX_ENERGY_MODES in *; lia.
Qed.

End SleepFacts.

Section SleepClaims.
Import Sleep.

(** C8.  After any sequence of [sleep_block_mode] / [sleep_unblock_mode]
    calls on the initialised table in which no call fails (so the counters
    stay between 0 and 4), [current_block_energy_mode] returns the
    lowest-numbered energy mode whose counter is not zero, or
    [MAX_ENERGY_MODES - 1] when all the counters are zero. *)
Theorem current_block_energy_mode_after_calls
    (cs : list hold_call) (t0 t : list Z) :
  Z.of_nat (length t0) = MAX_ENERGY_MODES ->
  run_calls cs (sleep_open t0) = Done t ->
  holds_ok t /\
  let m := current_block_energy_mode t in
  (0 <= m < MAX_ENERGY_MODES /\ cell t m <> 0 /\
   forall j, 0 <= j < m -> cell t j = 0)
  \/ (m = MAX_ENERGY_MODES - 1 /\
      forall j, 0 <= j < MAX_ENERGY_MODES -> cell t j = 0).
Proof.
  intros Hlen Hrun. split.
  - eapply run_calls_holds_ok; [|exact Hrun]. now apply sleep_open_holds_ok.
  - apply current_block_energy_mode_spec.
Qed.

Lemma current_block_energy_mode_after_calls_witness :
  let cs := [Block EM2; Block EM3; Block EM3; Unblock EM2] in
  let t0 := [7; -3; 0; 9; 1] in
  run_calls cs (sleep_open t0) = Done [0; 0; 0; 2; 0] /\
  current_block_energy_mode [0; 0; 0; 2; 0] = EM3 /\
  (holds_ok [0; 0; 0; 2; 0] /\
   let m := current_block_energy_mode [0; 0; 0; 2; 0] in
   (0 <= m < MAX_ENERGY_MODES /\ cell [0; 0; 0; 2; 0] m <> 0 /\
    forall j, 0 <= j < m -> cell [0; 0; 0; 2; 0] j = 0)
   \/ (m = MAX_ENERGY_MODES - 1 /\
       forall j, 0 <= j < MAX_ENERGY_MODES -> cell [0; 0; 0; 2; 0] j = 0)).
Proof.
  cbv zeta. split; [reflexivity|]. split; [reflexivity|].
  apply (current_block_energy_mode_after_calls
           [Block EM2; Block EM3; Block EM3; Unblock EM2] [7; -3; 0; 9; 1]);
    reflexivity.
Defined.

(** C4, as the design states it, fails: with one hold on EM2 the scan
    returns EM2 but [enter_sleep] enters EM1. *)
Lemma enter_sleep_mode_counterexample :
  ~ (forall t : list Z,
        Z.of_nat (length t) = MAX_ENERGY_MODES ->
        Forall (fun c => 0 <= c) t ->
        entered_mode (enter_sleep t) = current_block_energy_mode t).
Proof.
  intros H. specialize (H [0; 0; 1; 0; 0] eq_refl).
  assert (Hnn : Forall (fun c => 0 <= c) [0; 0; 1; 0; 0])
    by (repeat constructor; lia).
  specialize (H Hnn). vm_compute in H. discriminate H.
Qed.

(** C4, amended.  For non-negative hold counters [enter_sleep] enters the
    mode one level above the mode [current_block_energy_mode] returns (the
    first blocked mode, or EM4 when nothing is held): the blocked mode itself
    is not entered, and when that mode is EM0 or EM1 the core stays in
    EM0. *)
Theorem enter_sleep_one_above_blocked (t : list Z) :
  Z.of_nat (length t) = MAX_ENERGY_MODES ->
  Forall (fun c => 0 <= c) t ->
  entered_mode (enter_sleep t) = Z.max 0 (current_block_energy_mode t - 1).
Proof.
  intros Hlen Hnn.
  destruct t as [|c0 [|c1 [|c2 [|c3 [|c4 [|c5 t]]]]]]; try discriminate Hlen.
  2: { cbn in Hlen. unfold MAX_ENERGY_MODES in Hlen. lia. }
  repeat match goal with
         | H : Forall _ (_ :: _) |- _ => apply Forall_cons in H as [? H]
         end.
  unfold enter_sleep, current_block_energy_mode, entered_mode.
  change (cell [c0; c1; c2; c3; c4] EM0) with c0.
  change (cell [c0; c1; c2; c3; c4] EM1) with c1.
  change (cell [c0; c1; c2; c3; c4] EM2) with c2.
  change (cell [c0; c1; c2; c3; c4] EM3) with c3.
  change (current_block_loop (Z.to_nat MAX_ENERGY_MODES) 0 [c0; c1; c2; c3; c4])
    with (if negb (c0 =? 0) then 0 else
          if negb (c1 =? 0) then 1 else
          if negb (c2 =? 0) then 2 else
          if negb (c3 =? 0) then 3 else
          if negb (c4 =? 0) then 4 else 4).
  unfold EM0, EM1, EM2, EM3.
  destruct (Z.ltb_spec 0 c0), (Z.eqb_spec c0 0); cbn [negb]; try lia;
  destruct (Z.ltb_spec 0 c1), (Z.eqb_spec c1 0); cbn [negb]; try lia;
  destruct (Z.ltb_spec 0 c2), (Z.eqb_spec c2 0); cbn [negb]; try lia;
  destruct (Z.ltb_spec 0 c3), (Z.eqb_spec c3 0); cbn [negb]; try lia;
  destruct (Z.eqb_spec c4 0); cbn [negb]; lia.
Qed.

Lemma enter_sleep_one_above_blocked_witness :
  Z.of_nat (length [0; 0; 1; 0; 2]) = MAX_ENERGY_MODES /\
  Forall (fun c => 0 <= c) [0; 0; 1; 0; 2] /\
  enter_sleep [0; 0; 1; 0; 2] = EMU_EnterEM1 /\
  current_block_energy_mode [0; 0; 1; 0; 2] = EM2 /\
  entered_mode (enter_sleep [0; 0; 1; 0; 2])
  = Z.max 0 (current_block_energy_mode [0; 0; 1; 0; 2] - 1).
Proof.
  assert (Hnn : Forall (fun c => 0 <= c) [0; 0; 1; 0; 2])
    by (repeat constructor; lia).
  split; [reflexivity|]. split; [exact Hnn|].
  split; [reflexivity|]. split; [reflexivity|].
  apply (enter_sleep_one_above_blocked [0; 0; 1; 0; 2]); [reflexivity | exact Hnn].
Defined.

End SleepClaims.

(** ** The event scheduler *)

Section SchedulerClaims.
Import Scheduler.

Lemma scheduler_open_clears (es : Z) : scheduler_open es = 0.
Proof.
  unfold scheduler_open, not32.
  rewrite Z.land_assoc, Z.land_lnot_diag. apply Z.land_0_l.
Qed.

Lemma testbit_above_u32 (x i : Z) :
  0 <= x < 2 ^ 32 -> 32 <= i -> Z.testbit x i = false.
Proof.
  intros Hx Hi. destruct (Z.eq_dec x 0) as [->|Hne]; [apply Z.bits_0|].
  apply Z.bits_above_log2; [lia|].
  assert (Z.log2 x < 32) by (apply Z.log2_lt_pow2; lia). lia.
Qed.

Lemma testbit_not32 (x i : Z) :
  Z.testbit (not32 x) i = negb (Z.testbit x i) && (0 <=? i) && (i <? 32).
Proof.
  unfold not32. rewrite Z.land_spec.
  destruct (Z.leb_spec 0 i) as [Hi|Hi].
  - rewrite Z.lnot_spec by lia. rewrite Z.testbit_ones_nonneg by lia.
    now rewrite andb_true_r.
  - rewrite (Z.testbit_neg_r (Z.ones 32)) by lia.
    now rewrite andb_false_r, andb_false_r.
Qed.

Lemma add_scheduled_event_range (e es : Z) :
  0 <= e < 2 ^ 32 -> 0 <= es < 2 ^ 32 ->
  0 <= add_scheduled_event e es < 2 ^ 32.
Proof.
  intros He Hes. unfold add_scheduled_event.
  assert (Hnn : 0 <= Z.lor es e) by (apply Z.lor_nonneg; lia).
  split; [exact Hnn|].
  destruct (Z.eq_dec (Z.lor es e) 0) as [->|Hne]; [lia|].
  apply Z.log2_lt_pow2; [lia|]. rewrite Z.log2_lor by lia.
  destruct (Z.eq_dec es 0) as [->|]; destruct (Z.eq_dec e 0) as [->|];
    cbn; try lia;
    repeat match goal with
           | |- context [Z.log2 ?x] =>
               lazymatch goal with
               | _ : Z.log2 x < 32 |- _ => fail
               | _ => assert (Z.log2 x < 32) by (apply Z.log2_lt_pow2; lia)
               end
           end; lia.
Qed.

(** C9.  On 32-bit event masks: after [add_scheduled_event e] every bit of
    [e] reads as set in [get_scheduled_events]; after
    [remove_scheduled_event e] every bit of [e] reads as cleared; posting
    [e] twice leaves the same mask as posting it once; and neither call
    changes a bit outside [e]. *)
Theorem scheduler_post_clear (e es : Z) :
  0 <= e < 2 ^ 32 ->
  0 <= es < 2 ^ 32 ->
  let posted := get_scheduled_events (add_scheduled_event e es) in
  let cleared := get_scheduled_events (remove_scheduled_event e es) in
  (forall i, Z.testbit e i = true -> Z.testbit posted i = true) /\
  (forall i, Z.testbit e i = true -> Z.testbit cleared i = false) /\
  add_scheduled_event e (add_scheduled_event e es) = add_scheduled_event e es /\
  (forall i, Z.testbit e i = false ->
     Z.testbit posted i = Z.testbit es i /\
     Z.testbit cleared i = Z.testbit es i).
Proof.
  intros He Hes. cbv zeta.
  unfold get_scheduled_events, add_scheduled_event, remove_scheduled_event.
  repeat split.
  - intros i Hi. rewrite Z.lor_spec, Hi. apply orb_true_r.
  - intros i Hi. rewrite Z.land_spec, testbit_not32, Hi. cbn.
    apply andb_false_r.
  - rewrite <- Z.lor_assoc, Z.lor_diag. reflexivity.
  - rewrite Z.lor_spec, H. apply orb_false_r.
  - rewrite Z.land_spec, testbit_not32, H. cbn.
    destruct (Z.leb_spec 0 i) as [Hi|Hi]; cbn.
    + destruct (Z.ltb_spec i 32) as [Hlt|Hge]; cbn.
      * apply andb_true_r.
      * rewrite testbit_above_u32 by lia. reflexivity.
    + rewrite Z.testbit_neg_r by lia. reflexivity.
Qed.

Lemma scheduler_post_clear_witness :
  0 <= 0x4 < 2 ^ 32 /\ 0 <= 0x13 < 2 ^ 32 /\
  get_scheduled_events (add_scheduled_event 0x4 0x13) = 0x17 /\
  get_scheduled_events (remove_scheduled_event 0x2 0x13) = 0x11 /\
  let posted := get_scheduled_events (add_scheduled_event 0x4 0x13) in
  let cleared := get_scheduled_events (remove_scheduled_event 0x4 0x13) in
  (forall i, Z.testbit 0x4 i = true -> Z.testbit posted i = true) /\
  (forall i, Z.testbit 0x4 i = true -> Z.testbit cleared i = false) /\
  add_scheduled_event 0x4 (add_scheduled_event 0x4 0x13)
  = add_scheduled_event 0x4 0x13 /\
  (forall i, Z.testbit 0x4 i = false ->
     Z.testbit posted i = Z.testbit 0x13 i /\
     Z.testbit cleared i = Z.testbit 0x13 i).
Proof.
  split; [lia|]. split; [lia|]. split; [reflexivity|]. split; [reflexivity|].
  apply (scheduler_post_clear 0x4 0x13); lia.
Defined.

End SchedulerClaims.

(** ** The bus transaction state machine *)

Section I2CFacts.
Import Sleep Shared I2C.

Lemma bind_ret {A} (m : outcome A) : (m ≫= Done) = m.
Proof. now destruct m. Qed.

(** Reduction of the model's own record plumbing, leaving arithmetic on
    register values alone. *)
Ltac i2c_red :=
  lazy beta iota zeta delta
      [deliver_all mbind outcome_bind EFM_ASSERT
       i2c_start_interrupt i2c_ack_interrupt i2c_nack_interrupt
       i2c_mstop_interrupt i2c_rxdatav_interrupt
       on_sm on_peripheral set_sm set_regs set_cb set_ram set_shared regs
       set_state set_sm_busy set_read set_CMD set_TXDATA set_RXDATA
       CMD_or TXDATA_or
       state peripheral device_address command sm_busy read read_value
       i2c0 i2c1 i2c_peripheral_state scheduled_read_cb ram shared
       STATE CMD TXDATA RXDATA
       Shared.add_scheduled_event lowest_energy_mode event_scheduled call_log].

Lemma deliver_START (s : system) : deliver START s = i2c_start_interrupt s.
Proof.
  unfold deliver, I2C_IRQHandler.
  change (flagged I2C_IF_START I2C_IF_START) with true.
  change (flagged I2C_IF_START I2C_IF_ACK) with false.
  change (flagged I2C_IF_START I2C_IF_NACK) with false.
  change (flagged I2C_IF_START I2C_IF_MSTOP) with false.
  change (flagged I2C_IF_START I2C_IF_RXDATAV) with false.
  cbv iota. now destruct (i2c_start_interrupt s).
Qed.

Lemma deliver_ACK (s : system) : deliver ACK s = i2c_ack_interrupt s.
Proof.
  unfold deliver, I2C_IRQHandler.
  change (flagged I2C_IF_ACK I2C_IF_START) with false.
  change (flagged I2C_IF_ACK I2C_IF_ACK) with true.
  change (flagged I2C_IF_ACK I2C_IF_NACK) with false.
  change (flagged I2C_IF_ACK I2C_IF_MSTOP) with false.
  change (flagged I2C_IF_ACK I2C_IF_RXDATAV) with false.
  cbv iota. rewrite bind_Done. now destruct (i2c_ack_interrupt s).
Qed.

Lemma deliver_NACK (s : system) : deliver NACK s = i2c_nack_interrupt s.
Proof.
  unfold deliver, I2C_IRQHandler.
  change (flagged I2C_IF_NACK I2C_IF_START) with false.
  change (flagged I2C_IF_NACK I2C_IF_ACK) with false.
  change (flagged I2C_IF_NACK I2C_IF_NACK) with true.
  change (flagged I2C_IF_NACK I2C_IF_MSTOP) with false.
  change (flagged I2C_IF_NACK I2C_IF_RXDATAV) with false.
  cbv iota. rewrite !bind_Done. now destruct (i2c_nack_interrupt s).
Qed.

Lemma deliver_MSTOP (s : system) : deliver MSTOP s = i2c_mstop_interrupt s.
Proof.
  unfold deliver, I2C_IRQHandler.
  change (flagged I2C_IF_MSTOP I2C_IF_START) with false.
  change (flagged I2C_IF_MSTOP I2C_IF_ACK) with false.
  change (flagged I2C_IF_MSTOP I2C_IF_NACK) with false.
  change (flagged I2C_IF_MSTOP I2C_IF_MSTOP) with true.
  change (flagged I2C_IF_MSTOP I2C_IF_RXDATAV) with false.
  cbv iota. rewrite !bind_Done. now destruct (i2c_mstop_interrupt s).
Qed.

Lemma deliver_RXDATAV (data : Z) (s : system) :
  deliver (RXDATAV data) s
  = i2c_rxdatav_interrupt (on_peripheral (set_RXDATA data) s).
Proof.
  unfold deliver, I2C_IRQHandler.
  change (flagged I2C_IF_RXDATAV I2C_IF_START) with false.
  change (flagged I2C_IF_RXDATAV I2C_IF_ACK) with false.
  change (flagged I2C_IF_RXDATAV I2C_IF_NACK) with false.
  change (flagged I2C_IF_RXDATAV I2C_IF_MSTOP) with false.
  change (flagged I2C_IF_RXDATAV I2C_IF_RXDATAV) with true.
  cbv iota. rewrite !bind_Done. reflexivity.
Qed.

(** A hold taken on a counter below 4, and its release. *)
Lemma shared_block_Done (EM : Z) (g : globals) :
  0 <= EM < Z.of_nat (length (lowest_energy_mode g)) ->
  0 <= cell (lowest_energy_mode g) EM < 4 ->
  Shared.sleep_block_mode EM g
  = Done (mk_globals
            (<[Z.to_nat EM := cell (lowest_energy_mode g) EM + 1]>
               (lowest_energy_mode g))
            (event_scheduled g) (call_log g ++ [Call_block EM])).
Proof.
  intros HEM Hc. unfold Shared.sleep_block_mode, Sleep.sleep_block_mode.
  rewrite arr_read_Done, bind_Done by assumption.
  rewrite wrap_int_small by lia.
  rewrite arr_write_Done, bind_Done by assumption.
  unfold EFM_ASSERT.
  destruct (Z.ltb_spec (cell (lowest_energy_mode g) EM + 1) 5); [reflexivity | lia].
Qed.

Lemma shared_unblock_Done (EM : Z) (g : globals) :
  0 <= EM < Z.of_nat (length (lowest_energy_mode g)) ->
  1 <= cell (lowest_energy_mode g) EM < 2 ^ 31 ->
  Shared.sleep_unblock_mode EM g
  = Done (mk_globals
            (<[Z.to_nat EM := cell (lowest_energy_mode g) EM - 1]>
               (lowest_energy_mode g))
            (event_scheduled g) (call_log g ++ [Call_unblock EM])).
Proof.
  intros HEM Hc. unfold Shared.sleep_unblock_mode, Sleep.sleep_unblock_mode.
  rewrite arr_read_Done, bind_Done by assumption.
  rewrite wrap_int_small by lia.
  rewrite arr_write_Done, bind_Done by assumption.
  unfold EFM_ASSERT.
  destruct (Z.leb_spec 0 (cell (lowest_energy_mode g) EM - 1)); [reflexivity | lia].
Qed.

(** Taking and releasing a hold restores the table. *)
Lemma insert_release (t : list Z) (EM : Z) :
  0 <= EM < Z.of_nat (length t) ->
  <[Z.to_nat EM := cell (<[Z.to_nat EM := cell t EM + 1]> t) EM - 1]>
    (<[Z.to_nat EM := cell t EM + 1]> t) = t.
Proof.
  intros HEM. rewrite cell_insert_eq by assumption.
  rewrite list_insert_insert_eq.
  apply list_insert_id. unfold cell.
  destruct (lookup_lt_is_Some_2 t (Z.to_nat EM)) as [v Hv]; [lia|].
  rewrite Hv. cbn. f_equal. lia.
Qed.

(** C1.  From a machine that is not busy, over an idle bus and with fewer
    than four holds on EM2: [i2c_start] returns, the interrupts acknowledge,
    acknowledge, acknowledge, data-available, data-available, stop-confirmed
    are all handled, and then the machine is not busy again, the table of
    holds is what it was before [i2c_start] (which had raised EM2's counter
    by one), and the calls made in between are exactly one
    [sleep_block_mode(EM2)], one [sleep_unblock_mode(EM2)] and one
    [add_scheduled_event(callback)], in this order.  The two bytes read
    are stored as one 16-bit value. *)
Theorem i2c_read_transaction
    (s : system) (p : I2C_ptr) (addr cmd dst cb hi lo : Z) :
  Z.land (STATE (regs p s)) _I2C_STATE_STATE_MASK = I2C_STATE_STATE_IDLE ->
  sm_busy (i2c_peripheral_state s) = false ->
  Z.of_nat (length (lowest_energy_mode (shared s))) = MAX_ENERGY_MODES ->
  0 <= cell (lowest_energy_mode (shared s)) EM2 < 4 ->
  exists s1 s',
    i2c_start p addr cmd dst cb s = Done s1 /\
    state (i2c_peripheral_state s1) = start_comm /\
    cell (lowest_energy_mode (shared s1)) EM2
    = cell (lowest_energy_mode (shared s)) EM2 + 1 /\
    deliver_all [ACK; ACK; ACK; RXDATAV hi; RXDATAV lo; MSTOP] s1 = Done s' /\
    sm_busy (i2c_peripheral_state s') = false /\
    lowest_energy_mode (shared s') = lowest_energy_mode (shared s) /\
    call_log (shared s')
    = call_log (shared s)
      ++ [Call_block EM2; Call_unblock EM2; Call_add_event cb] /\
    event_scheduled (shared s')
    = Scheduler.add_scheduled_event cb (event_scheduled (shared s)) /\
    ram s' dst = Z.lor (wrap_u32 (Z.shiftl hi 8)) lo.
Proof.
  intros Hidle Hbusy Hlen Hc.
  assert (HEM : 0 <= EM2 < Z.of_nat (length (lowest_energy_mode (shared s))))
    by (rewrite Hlen; unfold EM2, MAX_ENERGY_MODES; lia).
  unfold i2c_start. rewrite Hidle. cbn [EFM_ASSERT Z.eqb I2C_STATE_STATE_IDLE].
  rewrite bind_Done, shared_block_Done, bind_Done by assumption.
  destruct s as [r0 r1 [st per da cm busy rd rv] cbk mem [tbl es log]].
  cbn [shared lowest_energy_mode event_scheduled call_log sm_busy
       i2c_peripheral_state] in *.
  subst busy.
  assert (Hun : forall l,
    Shared.sleep_unblock_mode EM2
      (mk_globals (<[Z.to_nat EM2 := cell tbl EM2 + 1]> tbl) es l)
    = Done (mk_globals tbl es (l ++ [Call_unblock EM2]))).
  { intros l. rewrite shared_unblock_Done; cbn [lowest_energy_mode event_scheduled call_log].
    - now rewrite insert_release.
    - now rewrite length_insert.
    - rewrite cell_insert_eq by assumption. lia. }
  destruct p; (eexists; eexists; split; [reflexivity|]);
    (split; [reflexivity|]);
    (split; [i2c_red; now apply cell_insert_eq|]);
    i2c_red;
    repeat (first [rewrite deliver_ACK | rewrite deliver_RXDATAV
                  | rewrite deliver_MSTOP]; i2c_red);
    rewrite Hun; i2c_red;
    (split; [reflexivity|]); i2c_red;
    (split; [reflexivity|]); (split; [reflexivity|]);
    (split; [rewrite <- !app_assoc; reflexivity|]); (split; [reflexivity|]);
    unfold store; rewrite !Z.eqb_refl; reflexivity.
Qed.


Lemma i2c_read_transaction_witness :
  Z.land (STATE (regs I2C0 boot)) _I2C_STATE_STATE_MASK = I2C_STATE_STATE_IDLE /\
  sm_busy (i2c_peripheral_state boot) = false /\
  Z.of_nat (length (lowest_energy_mode (shared boot))) = MAX_ENERGY_MODES /\
  0 <= cell (lowest_energy_mode (shared boot)) EM2 < 4 /\
  exists s1 s',
    i2c_start I2C0 0x40 0xF3 0x20000000 0x8 boot = Done s1 /\
    state (i2c_peripheral_state s1) = start_comm /\
    cell (lowest_energy_mode (shared s1)) EM2
    = cell (lowest_energy_mode (shared boot)) EM2 + 1 /\
    deliver_all [ACK; ACK; ACK; RXDATAV 0x61; RXDATAV 0x2C; MSTOP] s1
    = Done s' /\
    sm_busy (i2c_peripheral_state s') = false /\
    lowest_energy_mode (shared s') = lowest_energy_mode (shared boot) /\
    call_log (shared s')
    = call_log (shared boot)
      ++ [Call_block EM2; Call_unblock EM2; Call_add_event 0x8] /\
    event_scheduled (shared s')
    = Scheduler.add_scheduled_event 0x8 (event_scheduled (shared boot)) /\
    ram s' 0x20000000 = Z.lor (wrap_u32 (Z.shiftl 0x61 8)) 0x2C.
Proof.
  split; [reflexivity|]. split; [reflexivity|]. split; [reflexivity|].
  split; [vm_compute; split; [discriminate | reflexivity]|].
  apply (i2c_read_transaction boot I2C0 0x40 0xF3 0x20000000 0x8 0x61 0x2C);
    [reflexivity | reflexivity | reflexivity
    | vm_compute; split; [discriminate | reflexivity]].
Defined.

(** The half of C6 the code has: over a bus that is not idle [i2c_start]
    fails its assertion. *)
Lemma i2c_start_bus_not_idle (s : system) (p : I2C_ptr) (addr cmd dst cb : Z) :
  Z.land (STATE (regs p s)) _I2C_STATE_STATE_MASK <> I2C_STATE_STATE_IDLE ->
  i2c_start p addr cmd dst cb s = Fatal.
Proof.
  intros Hbusy. unfold i2c_start.
  destruct (Z.eqb_spec (Z.land (STATE (regs p s)) _I2C_STATE_STATE_MASK)
              I2C_STATE_STATE_IDLE); [contradiction | reflexivity].
Qed.

(** Over an idle bus [i2c_start] returns whatever the state machine is
    doing: neither [sm_busy] nor [state] is looked at. *)
Lemma i2c_start_ignores_machine (s : system) (p : I2C_ptr) (addr cmd dst cb : Z) :
  Z.land (STATE (regs p s)) _I2C_STATE_STATE_MASK = I2C_STATE_STATE_IDLE ->
  Z.of_nat (length (lowest_energy_mode (shared s))) = MAX_ENERGY_MODES ->
  0 <= cell (lowest_energy_mode (shared s)) EM2 < 4 ->
  exists s',
    i2c_start p addr cmd dst cb s = Done s' /\
    state (i2c_peripheral_state s') = start_comm /\
    sm_busy (i2c_peripheral_state s') = sm_busy (i2c_peripheral_state s) /\
    scheduled_read_cb s' = cb.
Proof.
  intros Hidle Hlen Hc.
  assert (HEM : 0 <= EM2 < Z.of_nat (length (lowest_energy_mode (shared s))))
    by (rewrite Hlen; unfold EM2, MAX_ENERGY_MODES; lia).
  unfold i2c_start. rewrite Hidle. cbn [EFM_ASSERT Z.eqb I2C_STATE_STATE_IDLE].
  rewrite bind_Done, shared_block_Done, bind_Done by assumption.
  eexists. split; [reflexivity|]. destruct p; repeat split; reflexivity.
Qed.

(** C6.  The state machine's half of the precondition is not enforced.
    With the machine busy ([sm_busy] set, state [stop_comm], one hold on
    EM2) and the bus reading idle, [i2c_start] does not fail: it returns
    with the machine back in [start_comm], a second hold on EM2 and the
    completion event replaced. *)
Theorem i2c_start_while_machine_busy :
  exists s s',
    awaiting_stop = Done s /\
    sm_busy (i2c_peripheral_state s) = true /\
    state (i2c_peripheral_state s) = stop_comm /\
    Z.land (STATE (regs I2C0 s)) _I2C_STATE_STATE_MASK = I2C_STATE_STATE_IDLE /\
    i2c_start I2C0 0x40 0xF5 0x20000004 0x10 s = Done s' /\
    state (i2c_peripheral_state s') = start_comm /\
    scheduled_read_cb s' = 0x10 /\
    lowest_energy_mode (shared s') = [0; 0; 2; 0; 0].
Proof.
  eexists. eexists.
  split; [vm_compute; reflexivity|].
  split; [reflexivity|]. split; [reflexivity|]. split; [reflexivity|].
  split; [vm_compute; reflexivity|].
  split; [reflexivity|]. split; reflexivity.
Qed.

(** C3, as the design states it, fails: an acknowledge delivered while a
    read waits in [read_ms_byte], which the design does not list, returns
    and leaves the system as it was. *)
Lemma unlisted_interrupt_counterexample :
  ~ (forall (s : system) (i : interrupt),
        listed (state (i2c_peripheral_state s)) i = false ->
        deliver i s = Fatal).
Proof.
  intros H.
  assert (Hs : exists s,
             awaiting_data = Done s /\
             state (i2c_peripheral_state s) = read_ms_byte /\
             deliver ACK s = Done s).
  { eexists. split; [vm_compute; reflexivity|]. split; reflexivity. }
  destruct Hs as (s & _ & Hst & Hack).
  specialize (H s ACK). rewrite Hst in H. specialize (H eq_refl).
  rewrite Hack in H. discriminate H.
Qed.

End I2CFacts.

(** ** The transmit state machine *)

Section LeuartFacts.
Import Sleep Shared Leuart.

Variable LEUART_TX_EM : Z.

Ltac leuart_red :=
  lazy beta iota zeta delta
      [mbind outcome_bind EFM_ASSERT irq irqs LEUART0_IRQHandler
       leuart0_txbl_interrupt leuart0_txc_interrupt send_next leuart_start
       on_leuart on_sm set_shared set_STATUS set_IEN set_IF write_TXDATA
       set_sm_busy set_state set_count
       STATUS IEN IF_ wire sm_busy str_length state output count
       LEUART0 sm rx_done_evt tx_done_evt shared
       Shared.add_scheduled_event lowest_energy_mode event_scheduled call_log].

Lemma raised_and_TXBL (x : Z) :
  Z.land (Z.lor x (Z.lor LEUART_IF_TXBL LEUART_IF_TXC)) LEUART_IEN_TXBL
  = LEUART_IF_TXBL.
Proof.
  change (Z.lor LEUART_IF_TXBL LEUART_IF_TXC) with 3.
  change LEUART_IEN_TXBL with (2 ^ 1). change LEUART_IF_TXBL with (2 ^ 1).
  apply Z.bits_inj'. intros n Hn.
  rewrite Z.land_spec, Z.lor_spec, Z.pow2_bits_eqb by lia.
  destruct (Z.eqb_spec 1 n) as [<-|_]; [|apply andb_false_r].
  cbn. now rewrite orb_true_r.
Qed.

Lemma raised_and_TXC (x : Z) :
  Z.land (Z.lor x (Z.lor LEUART_IF_TXBL LEUART_IF_TXC)) LEUART_IEN_TXC
  = LEUART_IF_TXC.
Proof.
  change (Z.lor LEUART_IF_TXBL LEUART_IF_TXC) with 3.
  change LEUART_IEN_TXC with (2 ^ 0). change LEUART_IF_TXC with (2 ^ 0).
  apply Z.bits_inj'. intros n Hn.
  rewrite Z.land_spec, Z.lor_spec, Z.pow2_bits_eqb by lia.
  destruct (Z.eqb_spec 0 n) as [<-|_]; [|apply andb_false_r].
  cbn. now rewrite orb_true_r.
Qed.

Lemma irqs_add (n m : nat) (s : system) :
  irqs LEUART_TX_EM (n + m) s = irqs LEUART_TX_EM n s ≫= irqs LEUART_TX_EM m.
Proof.
  revert s. induction n as [|n IH]; intros s; [reflexivity|].
  cbn [Nat.add irqs]. destruct (irq LEUART_TX_EM s) as [s'| |]; [|reflexivity..].
  rewrite !bind_Done. apply IH.
Qed.

(** "Buffer has space" while the machine is idle: the first byte goes
    out. *)
Lemma irq_idle (status ifr : Z) (w out : list Z) (busy : bool) (L rx tx : Z)
    (g : globals) :
  0 < Z.of_nat (length out) ->
  exists ifr',
    irq LEUART_TX_EM
      (mk_system (mk_regs status LEUART_IEN_TXBL ifr w)
         (mk_sm busy L idle out 0) rx tx g)
    = Done (mk_system (mk_regs status LEUART_IEN_TXBL ifr' (w ++ [cell out 0]))
              (mk_sm busy L send_data out 1) rx tx g).
Proof.
  intros Hlen. eexists. leuart_red.
  rewrite raised_and_TXBL.
  change (flagged LEUART_IF_TXBL LEUART_IF_TXBL) with true.
  change (flagged LEUART_IF_TXBL LEUART_IF_TXC) with false.
  leuart_red. rewrite arr_read_Done by lia. leuart_red.
  reflexivity.
Qed.

(** "Buffer has space" in [send_data] with more than one byte left. *)
Lemma irq_send_data (status ifr : Z) (w out : list Z) (busy : bool)
    (L k rx tx : Z) (g : globals) :
  0 <= k < Z.of_nat (length out) -> k < 2 ^ 31 -> 0 < L < 2 ^ 31 ->
  k <> L - 1 ->
  exists ifr',
    irq LEUART_TX_EM
      (mk_system (mk_regs status LEUART_IEN_TXBL ifr w)
         (mk_sm busy L send_data out k) rx tx g)
    = Done (mk_system (mk_regs status LEUART_IEN_TXBL ifr' (w ++ [cell out k]))
              (mk_sm busy L send_data out (k + 1)) rx tx g).
Proof.
  intros Hk Hk31 HL Hne. eexists. leuart_red.
  rewrite raised_and_TXBL.
  change (flagged LEUART_IF_TXBL LEUART_IF_TXBL) with true.
  change (flagged LEUART_IF_TXBL LEUART_IF_TXC) with false.
  leuart_red.
  unfold wrap_u32. rewrite (Z.mod_small (L - 1)) by lia.
  destruct (Z.eqb_spec k (L - 1)); [contradiction|].
  leuart_red. rewrite arr_read_Done by lia. leuart_red.
  rewrite Z.mod_small by lia. reflexivity.
Qed.

(** "Buffer has space" in [send_data] on the last byte: it goes out, TXBL
    is disabled and TXC enabled. *)
Lemma irq_last_byte (status ifr : Z) (w out : list Z) (busy : bool)
    (L rx tx : Z) (g : globals) :
  0 < L <= Z.of_nat (length out) -> L < 2 ^ 31 ->
  exists ifr',
    irq LEUART_TX_EM
      (mk_system (mk_regs status LEUART_IEN_TXBL ifr w)
         (mk_sm busy L send_data out (L - 1)) rx tx g)
    = Done (mk_system
              (mk_regs status LEUART_IEN_TXC ifr' (w ++ [cell out (L - 1)]))
              (mk_sm busy L active_trans out L) rx tx g).
Proof.
  intros HL HL31. eexists. leuart_red.
  rewrite raised_and_TXBL.
  change (flagged LEUART_IF_TXBL LEUART_IF_TXBL) with true.
  change (flagged LEUART_IF_TXBL LEUART_IF_TXC) with false.
  leuart_red.
  unfold wrap_u32. rewrite (Z.mod_small (L - 1)) by lia.
  rewrite Z.eqb_refl.
  leuart_red. rewrite arr_read_Done by lia. leuart_red.
  rewrite Z.mod_small by lia.
  change (Z.lor (Z.land LEUART_IEN_TXBL (not32 LEUART_IEN_TXBL)) LEUART_IEN_TXC)
    with LEUART_IEN_TXC.
  replace (L - 1 + 1) with L by lia. reflexivity.
Qed.

(** The first "transmission complete": the flag is set again. *)
Lemma irq_active_trans (status ifr : Z) (w out : list Z) (busy : bool)
    (L c rx tx : Z) (g : globals) :
  exists ifr',
    irq LEUART_TX_EM
      (mk_system (mk_regs status LEUART_IEN_TXC ifr w)
         (mk_sm busy L active_trans out c) rx tx g)
    = Done (mk_system (mk_regs status LEUART_IEN_TXC ifr' w)
              (mk_sm busy L end_comm out c) rx tx g).
Proof.
  eexists. leuart_red.
  rewrite raised_and_TXC.
  change (flagged LEUART_IF_TXC LEUART_IF_TXBL) with false.
  change (flagged LEUART_IF_TXC LEUART_IF_TXC) with true.
  leuart_red. reflexivity.
Qed.

(** The second one, the exit: TXC is disabled, the hold released, the event
    posted. *)
Lemma irq_end_comm (status ifr : Z) (w out : list Z) (busy : bool)
    (L c rx tx : Z) (g : globals) :
  0 <= LEUART_TX_EM < Z.of_nat (length (lowest_energy_mode g)) ->
  1 <= cell (lowest_energy_mode g) LEUART_TX_EM < 2 ^ 31 ->
  exists ifr',
    irq LEUART_TX_EM
      (mk_system (mk_regs status LEUART_IEN_TXC ifr w)
         (mk_sm busy L end_comm out c) rx tx g)
    = Done (mk_system (mk_regs status 0 ifr' w)
              (mk_sm false L end_comm out c) rx tx
              (mk_globals
                 (<[Z.to_nat LEUART_TX_EM :=
                      cell (lowest_energy_mode g) LEUART_TX_EM - 1]>
                    (lowest_energy_mode g))
                 (Scheduler.add_scheduled_event tx (event_scheduled g))
                 (call_log g
                  ++ [Call_unblock LEUART_TX_EM; Call_add_event tx]))).
Proof.
  intros HEM Hc. eexists. leuart_red.
  rewrite raised_and_TXC.
  change (flagged LEUART_IF_TXC LEUART_IF_TXBL) with false.
  change (flagged LEUART_IF_TXC LEUART_IF_TXC) with true.
  leuart_red. rewrite shared_unblock_Done by assumption. leuart_red.
  change (Z.land LEUART_IEN_TXC (not32 LEUART_IEN_TXC)) with 0.
  rewrite <- app_assoc. reflexivity.
Qed.

End LeuartFacts.

Section LeuartDrain.
Import Sleep Shared Leuart.

Variable LEUART_TX_EM : Z.

Lemma strlen_le_length (s : list Z) : 0 <= strlen s <= Z.of_nat (length s).
Proof.
  induction s as [|c s IH]; cbn [strlen length]; [lia|].
  destruct (c =? 0); lia.
Qed.

Lemma take_snoc_cell (l : list Z) (k : nat) :
  (k < length l)%nat -> take k l ++ [cell l (Z.of_nat k)] = take (S k) l.
Proof.
  intros Hk. destruct (lookup_lt_is_Some_2 l k Hk) as [x Hx].
  unfold cell. rewrite Nat2Z.id, Hx. cbn. symmetry. now apply take_S_r.
Qed.

(** The bytes between the first and the last: [n] more interrupts in
    [send_data]. *)
Lemma irqs_send_data (status : Z) (w0 out : list Z) (busy : bool)
    (L rx tx : Z) (g : globals) (n : nat) :
  forall (k : nat) (ifr : Z),
    Z.of_nat (k + n) <= L - 1 -> L <= Z.of_nat (length out) -> L < 2 ^ 31 ->
    exists ifr',
      irqs LEUART_TX_EM n
        (mk_system (mk_regs status LEUART_IEN_TXBL ifr (w0 ++ take k out))
           (mk_sm busy L send_data out (Z.of_nat k)) rx tx g)
      = Done (mk_system
                (mk_regs status LEUART_IEN_TXBL ifr' (w0 ++ take (k + n) out))
                (mk_sm busy L send_data out (Z.of_nat (k + n))) rx tx g).
Proof.
  induction n as [|n IH]; intros k ifr Hkn HL HL31.
  - exists ifr. rewrite Nat.add_0_r. reflexivity.
  - destruct (irq_send_data LEUART_TX_EM status ifr (w0 ++ take k out) out busy
                L (Z.of_nat k) rx tx g) as [ifr1 Hstep]; try lia.
    destruct (IH (S k) ifr1) as [ifr2 Hrest]; try lia.
    exists ifr2. cbn [irqs]. rewrite Hstep, bind_Done.
    rewrite <- app_assoc, take_snoc_cell by lia.
    replace (Z.of_nat k + 1) with (Z.of_nat (S k)) by lia.
    rewrite Hrest. now replace (S k + n)%nat with (k + S n)%nat by lia.
Qed.

(** X12.  The transmit state machine on a payload of two bytes or more.  After
    [leuart_start] only TXBL is enabled; [L] interrupt requests later the
    [L] bytes of the string have gone out in order, TXBL is disabled and TXC
    enabled; two requests later no interrupt is enabled, the machine is not
    busy, the table of holds is restored, and the calls made are one
    [sleep_block_mode], one [sleep_unblock_mode] and one
    [add_scheduled_event(tx_done_evt)]. *)
Lemma leuart_drain (s : system) (string : list Z) (L : nat) :
  strlen string = Z.of_nat L ->
  (2 <= L)%nat ->
  length (output (sm s)) = 80%nat ->
  (L < 80)%nat ->
  0 <= LEUART_TX_EM < Z.of_nat (length (lowest_energy_mode (shared s))) ->
  0 <= cell (lowest_energy_mode (shared s)) LEUART_TX_EM < 4 ->
  exists s0 s1 s',
    leuart_start LEUART_TX_EM string (Z.of_nat L) s = Done s0 /\
    IEN (LEUART0 s0) = LEUART_IEN_TXBL /\
    irqs LEUART_TX_EM L s0 = Done s1 /\
    wire (LEUART0 s1) = wire (LEUART0 s) ++ take L string /\
    IEN (LEUART0 s1) = LEUART_IEN_TXC /\
    state (sm s1) = active_trans /\
    irqs LEUART_TX_EM 2 s1 = Done s' /\
    IEN (LEUART0 s') = 0 /\
    wire (LEUART0 s') = wire (LEUART0 s) ++ take L string /\
    sm_busy (sm s') = false /\
    lowest_energy_mode (shared s') = lowest_energy_mode (shared s) /\
    call_log (shared s')
    = call_log (shared s)
      ++ [Call_block LEUART_TX_EM; Call_unblock LEUART_TX_EM;
          Call_add_event (tx_done_evt s)] /\
    event_scheduled (shared s')
    = Scheduler.add_scheduled_event (tx_done_evt s) (event_scheduled (shared s)).
Proof.
  intros Hstr HL2 Hout HL80 HEM Hc.
  destruct s as [[status ien ifr w] [busy len st out cnt] rx tx g].
  cbn [shared sm output LEUART0 wire tx_done_evt] in *.
  pose proof (strlen_le_length string) as Hsl.
  set (out' := take L string ++ 0 :: drop (S L) out).
  assert (Hout' : length out' = 80%nat).
  { subst out'. rewrite length_app, length_take_le by lia.
    cbn [length]. rewrite length_drop. lia. }
  assert (Htake : take L out' = take L string).
  { subst out'. rewrite take_app_le by (rewrite length_take_le; lia).
    rewrite take_take. f_equal. lia. }
  set (status' := Z.lor status LEUART_STATUS_TXIDLE).
  set (g1 := mk_globals
               (<[Z.to_nat LEUART_TX_EM :=
                    cell (lowest_energy_mode g) LEUART_TX_EM + 1]>
                  (lowest_energy_mode g))
               (event_scheduled g) (call_log g ++ [Call_block LEUART_TX_EM])).
  assert (Hstart : leuart_start LEUART_TX_EM string (Z.of_nat L)
                     (mk_system (mk_regs status ien ifr w)
                        (mk_sm busy len st out cnt) rx tx g)
                   = Done (mk_system (mk_regs status' LEUART_IEN_TXBL ifr w)
                             (mk_sm true (Z.of_nat L) idle out' 0) rx tx g1)).
  { unfold leuart_start.
    cbn [on_leuart on_sm set_shared shared LEUART0 sm STATUS IEN IF_ wire
         set_STATUS set_state set_count output state count rx_done_evt
         tx_done_evt].
    rewrite shared_block_Done, bind_Done by assumption.
    unfold strcpy. rewrite Hstr, Nat2Z.id.
    destruct (Z.leb_spec (Z.of_nat L + 1) (Z.of_nat (length out))); [|lia].
    reflexivity. }
  destruct (irq_idle LEUART_TX_EM status' ifr w out' true (Z.of_nat L) rx tx g1)
    as [ifr1 H1]; [lia|].
  assert (E1 : [cell out' 0] = take 1 out')
    by (apply (take_snoc_cell out' 0); lia).
  rewrite E1 in H1.
  destruct (irqs_send_data status' w out' true (Z.of_nat L) rx tx g1 (L - 2) 1 ifr1)
    as [ifr2 H2]; try lia.
  destruct (irq_last_byte LEUART_TX_EM status' ifr2 (w ++ take (1 + (L - 2)) out')
              out' true (Z.of_nat L) rx tx g1) as [ifr3 H3]; try lia.
  replace (Z.of_nat (1 + (L - 2))) with (Z.of_nat L - 1) in H2 by lia.
  change (Z.of_nat 1) with 1 in H2.
  assert (E3 : (w ++ take (1 + (L - 2)) out') ++ [cell out' (Z.of_nat L - 1)]
               = w ++ take L string).
  { rewrite <- app_assoc.
    replace (Z.of_nat L - 1) with (Z.of_nat (1 + (L - 2))) by lia.
    rewrite take_snoc_cell by lia.
    replace (S (1 + (L - 2))) with L by lia. now rewrite Htake. }
  rewrite E3 in H3.
  destruct (irq_active_trans LEUART_TX_EM status' ifr3 (w ++ take L string) out'
              true (Z.of_nat L) (Z.of_nat L) rx tx g1) as [ifr4 H4].
  destruct (irq_end_comm LEUART_TX_EM status' ifr4 (w ++ take L string) out'
              true (Z.of_nat L) (Z.of_nat L) rx tx g1) as [ifr5 H5].
  { subst g1. cbn [lowest_energy_mode]. rewrite length_insert. exact HEM. }
  { subst g1. cbn [lowest_energy_mode]. rewrite cell_insert_eq by assumption. lia. }
  eexists. eexists. eexists.
  split; [exact Hstart|]. split; [reflexivity|].
  split.
  { replace L with (1 + ((L - 2) + 1))%nat at 1 by lia.
    rewrite irqs_add. cbn [irqs]. rewrite H1, !bind_Done.
    rewrite irqs_add, H2, bind_Done. cbn [irqs]. rewrite H3, bind_Done.
    reflexivity. }
  split; [reflexivity|]. split; [reflexivity|]. split; [reflexivity|].
  split.
  { cbn [irqs]. rewrite H4, bind_Done, H5, bind_Done. reflexivity. }
  split; [reflexivity|]. split; [reflexivity|]. split; [reflexivity|].
  split.
  { subst g1. cbn [shared lowest_energy_mode]. now apply insert_release. }
  split.
  { subst g1. cbn [shared call_log]. rewrite <- app_assoc. reflexivity. }
  reflexivity.
Qed.

End LeuartDrain.

Section LeuartClaims.
Import Sleep Shared Leuart.

(** C7.  A payload of one byte is not drained as the design says ("A",
    with [LEUART_TX_EM] = EM3 and [tx_done_evt] = 4).  The first interrupt
    sends the byte and moves to [send_data]; there the count, 1, is compared
    with [str_length - 1], 0, and every further "buffer has space" interrupt
    sends one more byte of [output] (the terminating zero first).  After
    three requests three bytes are out, after eighty the whole array; TXBL
    is still enabled, the machine still busy, the hold still taken, no event
    posted; the eighty-first reads past the array. *)
Theorem leuart_single_byte_overruns :
  exists s0 s3 s80,
    leuart_start EM3 [65] 1 (boot 0x4) = Done s0 /\
    irqs EM3 3 s0 = Done s3 /\
    wire (LEUART0 s3) = [65; 0; 0] /\
    state (sm s3) = send_data /\
    irqs EM3 80 s0 = Done s80 /\
    wire (LEUART0 s80) = 65 :: replicate 79 0 /\
    state (sm s80) = send_data /\
    IEN (LEUART0 s80) = LEUART_IEN_TXBL /\
    sm_busy (sm s80) = true /\
    lowest_energy_mode (shared s80) = [0; 0; 0; 1; 0] /\
    call_log (shared s80) = [Call_block EM3] /\
    event_scheduled (shared s80) = 0 /\
    irqs EM3 81 s0 = Undef.
Proof.
  eexists. eexists. eexists.
  split; [vm_compute; reflexivity|].
  split; [vm_compute; reflexivity|].
  split; [reflexivity|]. split; [reflexivity|].
  split; [vm_compute; reflexivity|].
  split; [reflexivity|]. split; [reflexivity|]. split; [reflexivity|].
  split; [reflexivity|]. split; [reflexivity|]. split; [reflexivity|].
  split; [reflexivity|].
  vm_compute; reflexivity.
Qed.

(** The same request with two bytes completes. *)
Example leuart_two_bytes :
  exists s0 s',
    leuart_start EM3 [79; 75] 2 (boot 0x4) = Done s0 /\
    irqs EM3 4 s0 = Done s' /\
    wire (LEUART0 s') = [79; 75] /\
    IEN (LEUART0 s') = 0 /\
    call_log (shared s')
    = [Call_block EM3; Call_unblock EM3; Call_add_event 0x4].
Proof.
  eexists. eexists.
  split; [vm_compute; reflexivity|].
  split; [vm_compute; reflexivity|].
  split; [reflexivity|]. split; reflexivity.
Qed.

End LeuartClaims.

(** ** Interrupts the design does not list *)

Section Unlisted.

(** C3, amended.  In the bus machine an interrupt the design does not list
    for the current state fails an assertion, except for the pairs whose arm
    is a bare [break]: the start interrupt in every state but [stop_comm],
    acknowledge in [read_ms_byte] and [read_ls_byte], and not-acknowledge in
    [send_cmd]; these return and change nothing.  In the transmit machine
    every interrupt the design does not list fails an assertion. *)
Theorem unlisted_interrupts
    (s : I2C.system) (i : I2C.interrupt)
    (LEUART_TX_EM : Z) (t : Leuart.system) (j : Leuart.interrupt) :
  I2C.listed (I2C.state (I2C.i2c_peripheral_state s)) i = false ->
  Leuart.listed (Leuart.state (Leuart.sm t)) j = false ->
  I2C.deliver i s
  = (if I2C.ignored (I2C.state (I2C.i2c_peripheral_state s)) i
     then Done s else Fatal)
  /\ Leuart.deliver LEUART_TX_EM j t = Fatal.
Proof.
  intros Hi Hj. split.
  - destruct s as [r0 r1 [st per da cm busy rd rv] cbk mem g].
    destruct i as [| | | |data];
      rewrite ?deliver_START, ?deliver_ACK, ?deliver_NACK, ?deliver_MSTOP,
        ?deliver_RXDATAV;
      destruct st; try discriminate Hi; try reflexivity;
      destruct per; reflexivity.
  - destruct t as [regs [busy len st out cnt] rx tx g].
    destruct j, st; try discriminate Hj; reflexivity.
Qed.

Lemma unlisted_interrupts_witness :
  let s := I2C.on_sm (I2C.set_state I2C.read_ms_byte) I2C.boot in
  let t := Leuart.boot 0x4 in
  I2C.listed (I2C.state (I2C.i2c_peripheral_state s)) I2C.ACK = false /\
  Leuart.listed (Leuart.state (Leuart.sm t)) Leuart.TXC = false /\
  I2C.ignored (I2C.state (I2C.i2c_peripheral_state s)) I2C.ACK = true /\
  (I2C.deliver I2C.ACK s
   = (if I2C.ignored (I2C.state (I2C.i2c_peripheral_state s)) I2C.ACK
      then Done s else Fatal)
   /\ Leuart.deliver Sleep.EM3 Leuart.TXC t = Fatal).
Proof.
  cbv zeta.
  split; [reflexivity|]. split; [reflexivity|]. split; [reflexivity|].
  apply (unlisted_interrupts
           (I2C.on_sm (I2C.set_state I2C.read_ms_byte) I2C.boot) I2C.ACK
           Sleep.EM3 (Leuart.boot 0x4) Leuart.TXC);
    reflexivity.
Defined.

End Unlisted.

(** ** The circular buffer *)

Section BleFacts.
Import Ble.

(** CSIZE is a power of two, [2 ^ k], and at most 128: the space is
    returned as a [uint8_t] and a length byte is a [char]. *)
Variable k : Z.
Hypothesis k_range : 0 <= k <= 7.

Local Abbreviation CSIZE := (2 ^ k).

Lemma CSIZE_range : 1 <= CSIZE <= 128.
Proof.
  split.
  - change 1 with (2 ^ 0). apply Z.pow_le_mono_r; lia.
  - change 128 with (2 ^ 7). apply Z.pow_le_mono_r; lia.
Qed.

Lemma land_mask (x : Z) : Z.land x (CSIZE - 1) = x mod CSIZE.
Proof.
  replace (CSIZE - 1) with (Z.ones k) by (rewrite Z.ones_equiv; lia).
  apply Z.land_ones. lia.
Qed.

Lemma mod_window (a b : Z) :
  a mod CSIZE = b mod CSIZE -> - CSIZE < a - b < CSIZE -> a = b.
Proof.
  pose proof CSIZE_range as HC. intros Hmod Hwin.
  pose proof (Z.div_mod a CSIZE ltac:(lia)) as Ha.
  pose proof (Z.div_mod b CSIZE ltac:(lia)) as Hb.
  rewrite Hmod in Ha.
  assert (Hq : CSIZE * (a / CSIZE - b / CSIZE) = a - b) by lia.
  assert (a / CSIZE - b / CSIZE = 0) by nia.
  lia.
Qed.

Lemma mod_wrap_once (x : Z) :
  CSIZE <= x < 2 * CSIZE -> x mod CSIZE = x - CSIZE.
Proof.
  intros Hx. replace x with (x - CSIZE + 1 * CSIZE) at 1 by lia.
  rewrite Z.mod_add by lia. apply Z.mod_small. lia.
Qed.

(** The free space when [T] bytes are queued, [T] below the capacity. *)
Lemma ble_circ_space_queued (b : BLE_CIRCULAR_BUF) (T : Z) :
  size b = CSIZE -> 0 <= read_ptr b < CSIZE -> 0 <= T < CSIZE ->
  write_ptr b = (read_ptr b + T) mod CSIZE ->
  ble_circ_space b = CSIZE - T.
Proof.
  pose proof CSIZE_range as HC. intros Hsize Hr HT Hw.
  unfold ble_circ_space, wrap_u8. rewrite Hsize, Hw.
  destruct (Z.lt_ge_cases (read_ptr b + T) CSIZE) as [Hlt|Hge].
  - rewrite Z.mod_small by lia.
    destruct (Z.leb_spec (read_ptr b) (read_ptr b + T)); [|lia].
    rewrite Z.abs_eq by lia. rewrite Z.mod_small; lia.
  - rewrite mod_wrap_once by lia.
    destruct (Z.leb_spec (read_ptr b) (read_ptr b + T - CSIZE)); [lia|].
    rewrite Z.mod_small; lia.
Qed.

(** The copy loop of [ble_circ_push] returns; it changes the cells
    [(w + i' + 1) mod CSIZE] for the [i'] it runs through and no other, and
    when these are at most CSIZE they end up holding [string[i']]. *)
Lemma push_loop_spec (string : list Z) (w : Z) (n : nat) :
  forall (i : Z) (c : list Z),
    Z.of_nat (length c) = CSIZE -> 0 <= w -> 0 <= i ->
    exists c',
      push_loop n i string w (CSIZE - 1) c = Done c' /\
      Z.of_nat (length c') = CSIZE /\
      (forall j, 0 <= j < CSIZE ->
         (forall i', i <= i' < i + Z.of_nat n -> (w + i' + 1) mod CSIZE <> j) ->
         cell c' j = cell c j) /\
      (Z.of_nat n <= CSIZE ->
       forall i', i <= i' < i + Z.of_nat n ->
         cell c' ((w + i' + 1) mod CSIZE) = char_at string i').
Proof.
  pose proof CSIZE_range as HC.
  induction n as [|n IH]; intros i c Hlen Hw Hi.
  - exists c. split; [reflexivity|]. split; [exact Hlen|].
    split; [reflexivity | intros _ i' Hi'; lia].
  - cbn [push_loop]. rewrite land_mask.
    assert (Hidx : 0 <= (w + i + 1) mod CSIZE < CSIZE)
      by (apply Z.mod_pos_bound; lia).
    rewrite arr_write_Done, bind_Done by lia.
    set (c1 := <[Z.to_nat ((w + i + 1) mod CSIZE) := char_at string i]> c).
    assert (Hlen1 : Z.of_nat (length c1) = CSIZE)
      by (subst c1; now rewrite length_insert).
    destruct (IH (i + 1) c1 Hlen1 Hw ltac:(lia)) as (c' & Hrun & Hlen' & Hout & Hin).
    exists c'. split; [exact Hrun|]. split; [exact Hlen'|]. split.
    + intros j Hj Havoid. rewrite Hout.
      * subst c1. apply cell_insert_ne; [lia | lia |].
        apply Havoid. lia.
      * exact Hj.
      * intros i' Hi'. apply Havoid. lia.
    + intros Hn i' Hi'. destruct (Z.eq_dec i' i) as [->|Hne].
      * rewrite Hout.
        -- subst c1. apply cell_insert_eq. lia.
        -- exact Hidx.
        -- intros i'' Hi'' Heq. apply mod_window in Heq; lia.
      * apply Hin; lia.
Qed.

(** The copy loop of [ble_circ_pop] reads back what the copy loop of the
    push has left. *)
Lemma pop_loop_spec (string c : list Z) (r : Z) (n : nat) :
  forall i : Z,
    Z.of_nat (length c) = CSIZE -> 0 <= r -> 0 <= i ->
    i + Z.of_nat n <= Z.of_nat (length string) ->
    (forall i', i <= i' < i + Z.of_nat n ->
       cell c ((r + i' + 1) mod CSIZE) = char_at string i') ->
    pop_loop n i r (CSIZE - 1) c = Done (take n (drop (Z.to_nat i) string)).
Proof.
  pose proof CSIZE_range as HC.
  induction n as [|n IH]; intros i Hlen Hr Hi Hn Hcells.
  - reflexivity.
  - cbn [pop_loop]. rewrite land_mask.
    assert (Hidx : 0 <= (r + i + 1) mod CSIZE < CSIZE)
      by (apply Z.mod_pos_bound; lia).
    rewrite arr_read_Done, bind_Done by lia.
    rewrite (IH (i + 1)), bind_Done; try lia.
    2: { intros i' Hi'. apply Hcells. lia. }
    rewrite Hcells by lia.
    destruct (lookup_lt_is_Some_2 string (Z.to_nat i)) as [x Hx]; [lia|].
    rewrite (drop_S _ _ _ Hx). cbn [take].
    unfold char_at, cell. rewrite Hx. cbn.
    now replace (Z.to_nat (i + 1)) with (S (Z.to_nat i)) by lia.
Qed.

(** A push that fits.  With [T] bytes queued behind the read cursor and
    room for the string and its length byte, [ble_circ_push] returns; the
    write cursor has moved by the encoded size, the cell it pointed to holds
    the encoded size and the cells after it, wrapping, the string. *)
Lemma ble_circ_push_fits (string : list Z) (b : BLE_CIRCULAR_BUF) (T : Z) :
  Z.of_nat (length (cbuf b)) = CSIZE -> size b = CSIZE ->
  size_mask b = CSIZE - 1 -> 0 <= read_ptr b < CSIZE -> 0 <= T ->
  write_ptr b = (read_ptr b + T) mod CSIZE ->
  T + strlen string + 1 <= CSIZE ->
  exists c',
    ble_circ_push string b
    = Done (mk_cbuf c' CSIZE (CSIZE - 1) (read_ptr b)
              ((read_ptr b + (T + strlen string + 1)) mod CSIZE)) /\
    Z.of_nat (length c') = CSIZE /\
    cell c' (write_ptr b) = strlen string + 1 /\
    forall i, 0 <= i < strlen string ->
      cell c' ((write_ptr b + i + 1) mod CSIZE) = char_at string i.
Proof.
  pose proof CSIZE_range as HC. pose proof (strlen_le_length string) as HL.
  intros Hlen Hsize Hmask Hr HT Hw Hfit.
  assert (Hwr : 0 <= write_ptr b < CSIZE)
    by (rewrite Hw; apply Z.mod_pos_bound; lia).
  unfold ble_circ_push.
  rewrite (ble_circ_space_queued b T) by (assumption || lia).
  destruct (Z.ltb_spec (CSIZE - T) (strlen string + 1)); [lia|].
  rewrite bind_Done.
  rewrite arr_write_Done, bind_Done by lia.
  unfold wrap_u8. rewrite (Z.mod_small (strlen string + 1)) by lia.
  set (c1 := <[Z.to_nat (write_ptr b) := strlen string + 1]> (cbuf b)).
  assert (Hlen1 : Z.of_nat (length c1) = CSIZE)
    by (subst c1; now rewrite length_insert).
  rewrite Hmask.
  destruct (push_loop_spec string (write_ptr b)
              (Z.to_nat (strlen string + 1 - 1)) 0 c1 Hlen1)
    as (c' & Hrun & Hlen' & Hout & Hin); [lia | lia |].
  rewrite Hrun, bind_Done. exists c'. split.
  - unfold update_circ_wrtindex.
    cbn [cbuf size size_mask read_ptr write_ptr].
    rewrite land_mask, Hsize, Hw, Z.add_mod_idemp_l by lia.
    do 3 f_equal. lia.
  - split; [exact Hlen'|]. split.
    + rewrite Hout.
      * subst c1. apply cell_insert_eq. lia.
      * exact Hwr.
      * intros i' Hi' Heq.
        rewrite <- (Z.mod_small (write_ptr b) CSIZE) in Heq at 2 by lia.
        apply mod_window in Heq; lia.
    + intros i Hi. apply Hin; lia.
Qed.

(** X15.  The round trip below the capacity.  On a buffer whose cursors are both
    at [p], a string of [L] bytes with [L + 1 < CSIZE] that is pushed and
    then popped with the transmitter idle is handed to [leuart_start], its
    [L] bytes in order, and the free space is again what it was. *)
Lemma ble_push_pop_roundtrip
    (string : list Z) (b : BLE_CIRCULAR_BUF) (p : Z) (L : nat) :
  0 <= p < CSIZE -> empty_at CSIZE p b ->
  strlen string = Z.of_nat L -> Z.of_nat L + 1 < CSIZE ->
  exists b1 b2,
    ble_circ_push string b = Done b1 /\
    ble_circ_pop false false b1
    = Done (false, To_leuart_start (take L string) (Z.of_nat L), b2) /\
    read_ptr b2 = write_ptr b2 /\
    ble_circ_space b2 = ble_circ_space b.
Proof.
  pose proof CSIZE_range as HC. pose proof (strlen_le_length string) as HL.
  intros Hp (Hlen & Hsize & Hmask & Hr & Hw) Hstr Hfit.
  destruct (ble_circ_push_fits string b 0) as (c' & Hpush & Hlen' & Hhead & Hbody);
    try assumption; try lia.
  { rewrite Hr, Hw, Z.add_0_r. symmetry. apply Z.mod_small. lia. }
  rewrite Hr, Hw in *. rewrite Hstr in *.
  replace (0 + Z.of_nat L + 1) with (Z.of_nat L + 1) in Hpush by lia.
  assert (Hw' : (p + (Z.of_nat L + 1)) mod CSIZE <> p).
  { intros Heq. rewrite <- (Z.mod_small p CSIZE) in Heq at 2 by lia.
    apply mod_window in Heq; lia. }
  set (b1 := mk_cbuf c' CSIZE (CSIZE - 1) p ((p + (Z.of_nat L + 1)) mod CSIZE))
    in *.
  exists b1, (update_circ_readindex (Z.of_nat L + 1) b1).
  split; [exact Hpush|]. split; [|split].
  - unfold ble_circ_pop. subst b1. cbn [read_ptr write_ptr cbuf size_mask size].
    destruct (Z.eqb_spec p ((p + (Z.of_nat L + 1)) mod CSIZE)) as [Heq|_];
      [congruence|].
    rewrite arr_read_Done, bind_Done by lia.
    rewrite Hhead.
    replace (Z.of_nat L + 1 - 1) with (Z.of_nat L) by lia.
    rewrite (pop_loop_spec string c' p (Z.to_nat (Z.of_nat L)) 0), bind_Done;
      try lia.
    + rewrite Nat2Z.id. reflexivity.
    + intros i' Hi'. apply Hbody. lia.
  - subst b1. unfold update_circ_readindex.
    cbn [read_ptr write_ptr size size_mask cbuf].
    now rewrite land_mask.
  - subst b1. unfold update_circ_readindex, ble_circ_space.
    cbn [read_ptr write_ptr size size_mask cbuf].
    rewrite land_mask, Hr, Hw, Hsize. rewrite !Z.leb_refl, !Z.sub_diag.
    reflexivity.
Qed.

(** Pushes that fill the buffer to at most its capacity all return, and
    leave the write cursor the total encoded size after the read cursor,
    modulo CSIZE. *)
Lemma push_all_fits (strings : list (list Z)) :
  forall (b : BLE_CIRCULAR_BUF) (T : Z),
    Z.of_nat (length (cbuf b)) = CSIZE -> size b = CSIZE ->
    size_mask b = CSIZE - 1 -> 0 <= read_ptr b < CSIZE -> 0 <= T ->
    write_ptr b = (read_ptr b + T) mod CSIZE ->
    T + encoded_size strings <= CSIZE ->
    exists c',
      push_all strings b
      = Done (mk_cbuf c' (size b) (size_mask b) (read_ptr b)
                ((read_ptr b + (T + encoded_size strings)) mod CSIZE)) /\
      Z.of_nat (length c') = CSIZE.
Proof.
  induction strings as [|s rest IH]; intros b T Hlen Hsize Hmask Hr HT Hw Hfit.
  - exists (cbuf b). cbn [push_all encoded_size foldr].
    rewrite Z.add_0_r, <- Hw. split; [now destruct b | exact Hlen].
  - cbn [encoded_size foldr] in *. fold (encoded_size rest) in *.
    assert (Hrest : 0 <= encoded_size rest).
    { clear. induction rest as [|x rest IHr]; cbn [encoded_size foldr]; [lia|].
      fold (encoded_size rest). pose proof (strlen_le_length x). lia. }
    pose proof (strlen_le_length s) as HL.
    destruct (ble_circ_push_fits s b T) as (c1 & Hpush & Hlen1 & _);
      try assumption; try lia.
    cbn [push_all]. rewrite Hpush, bind_Done.
    destruct (IH (mk_cbuf c1 CSIZE (CSIZE - 1) (read_ptr b)
                    ((read_ptr b + (T + strlen s + 1)) mod CSIZE))
                (T + strlen s + 1))
      as (c' & Hall & Hlen'); cbn [cbuf size size_mask read_ptr write_ptr];
      try assumption; try reflexivity; try lia.
    exists c'. rewrite Hall. cbn [cbuf size size_mask read_ptr write_ptr].
    rewrite Hsize, Hmask. split; [|exact Hlen'].
    do 3 f_equal. lia.
Qed.

End BleFacts.

Section BleClaims.
Import Ble.

(** C2.  The round trip is lost for a string whose encoded size is the
    whole free space: CSIZE = 64 and a string of 63 bytes.  The push returns
    and brings the write cursor back to the read cursor; the pop that
    follows, with the transmitter idle, returns true and hands nothing to
    [leuart_start].  The same happens with both cursors at 60, where the
    bytes wrap. *)
Theorem push_pop_full_size_string :
  let string := replicate 63 65 in
  strlen string + 1 = ble_circ_space (fresh 64) /\
  (exists b1,
      ble_circ_push string (fresh 64) = Done b1 /\
      write_ptr b1 = read_ptr b1 /\
      ble_circ_pop false false b1 = Done (true, Nothing, b1)) /\
  (exists b1,
      ble_circ_push string (mk_cbuf (replicate 64 0) 64 63 60 60) = Done b1 /\
      write_ptr b1 = read_ptr b1 /\
      ble_circ_pop false false b1 = Done (true, Nothing, b1)).
Proof.
  cbv zeta. split; [reflexivity|]. split.
  - eexists. split; [vm_compute; reflexivity|]. split; reflexivity.
  - eexists. split; [vm_compute; reflexivity|]. split; reflexivity.
Qed.

(** C5.  A push past the capacity is not always caught: CSIZE = 64, a
    string of 63 bytes (encoded size 64) and then the empty string (encoded
    size 1).  The first push fills the buffer to exactly its capacity; the
    second, which takes the total to 65, does not fail: the space reads 64
    again and the push overwrites the first length byte.  When the total
    before the last push is below the capacity the check does fire, as for
    62 bytes followed by one. *)
Theorem push_past_capacity :
  encoded_size [replicate 63 65; []] = 64 + 1 /\
  (exists b1 b2,
      ble_circ_push (replicate 63 65) (fresh 64) = Done b1 /\
      ble_circ_space b1 = 64 /\
      ble_circ_push [] b1 = Done b2 /\
      cell (cbuf b1) 0 = 64 /\ cell (cbuf b2) 0 = 1) /\
  encoded_size [replicate 62 65; [66]] = 64 + 1 /\
  push_all [replicate 62 65; [66]] (fresh 64) = Fatal.
Proof.
  split; [reflexivity|]. split.
  - eexists. eexists. split; [vm_compute; reflexivity|].
    split; [reflexivity|]. split; [vm_compute; reflexivity|].
    split; reflexivity.
  - split; reflexivity.
Qed.

(** The wrap-around example of the design: CSIZE = 64, a string of 50 bytes
    pushed and popped, then one of 25 bytes, which lies across the indices
    63 and 0, pushed and popped. *)
Example wraparound_64 :
  let s50 := (fun i => Z.of_nat i + 1) <$> seq 0 50 in
  let s25 := (fun i => Z.of_nat i + 20) <$> seq 0 25 in
  exists b1 b2 b3 b4,
    ble_circ_push s50 (fresh 64) = Done b1 /\
    ble_circ_pop false false b1 = Done (false, To_leuart_start s50 50, b2) /\
    read_ptr b2 = 51 /\
    ble_circ_push s25 b2 = Done b3 /\
    write_ptr b3 = 13 /\
    ble_circ_space b3 = 64 - 26 /\
    ble_circ_pop false false b3 = Done (false, To_leuart_start s25 25, b4) /\
    ble_circ_space b4 = 64.
Proof.
  cbv zeta. do 4 eexists.
  split; [vm_compute; reflexivity|]. split; [vm_compute; reflexivity|].
  split; [reflexivity|]. split; [vm_compute; reflexivity|].
  split; [reflexivity|]. split; [reflexivity|].
  split; [vm_compute; reflexivity|]. reflexivity.
Qed.

End BleClaims.

(** * Further properties *)

(** ** The sleep arbiter *)

Section SleepMore.
Import Sleep.

Lemma holds_ok_cell (t : list Z) (EM : Z) :
  holds_ok t -> 0 <= EM < MAX_ENERGY_MODES -> 0 <= cell t EM < 5.
Proof.
  intros [Hlen Hall] HEM. unfold cell.
  destruct (lookup_lt_is_Some_2 t (Z.to_nat EM)) as [v Hv]; [lia|].
  rewrite Hv. cbn. rewrite Forall_lookup in Hall. exact (Hall _ _ Hv).
Qed.

(** X1.  Whatever the counters held, [sleep_open] leaves them all zero: no mode
    is blocked, the scan answers EM4 and [enter_sleep] enters EM3. *)
Theorem sleep_open_resets (t : list Z) :
  Z.of_nat (length t) = MAX_ENERGY_MODES ->
  sleep_open t = [0; 0; 0; 0; 0] /\
  current_block_energy_mode (sleep_open t) = EM4 /\
  enter_sleep (sleep_open t) = EMU_EnterEM3.
Proof.
  intros Hlen.
  destruct t as [|c0 [|c1 [|c2 [|c3 [|c4 [|c5 t]]]]]]; try discriminate Hlen.
  2: { cbn in Hlen. unfold MAX_ENERGY_MODES in Hlen. lia. }
  assert (Hopen : sleep_open [c0; c1; c2; c3; c4] = [0; 0; 0; 0; 0]).
  { change (sleep_open [c0; c1; c2; c3; c4])
      with [Z.land c0 (Z.lnot c0); Z.land c1 (Z.lnot c1);
            Z.land c2 (Z.lnot c2); Z.land c3 (Z.lnot c3);
            Z.land c4 (Z.lnot c4)].
    now rewrite !Z.land_lnot_diag. }
  rewrite Hopen. repeat split; reflexivity.
Qed.

Lemma sleep_open_resets_witness :
  Z.of_nat (length [3; -1; 0; 250; 4]) = MAX_ENERGY_MODES /\
  (sleep_open [3; -1; 0; 250; 4] = [0; 0; 0; 0; 0] /\
   current_block_energy_mode (sleep_open [3; -1; 0; 250; 4]) = EM4 /\
   enter_sleep (sleep_open [3; -1; 0; 250; 4]) = EMU_EnterEM3).
Proof.
  split; [reflexivity|].
  apply (sleep_open_resets [3; -1; 0; 250; 4]). reflexivity.
Defined.

Lemma hold_calls_cases (t : list Z) (EM : Z) :
  holds_ok t -> 0 <= EM < MAX_ENERGY_MODES ->
  sleep_block_mode EM t
  = (if cell t EM <? 4
     then Done (<[Z.to_nat EM := cell t EM + 1]> t) else Fatal) /\
  sleep_unblock_mode EM t
  = (if 0 <? cell t EM
     then Done (<[Z.to_nat EM := cell t EM - 1]> t) else Fatal).
Proof.
  intros Hok HEM. pose proof (holds_ok_cell t EM Hok HEM) as Hc.
  destruct Hok as [Hlen _].
  unfold sleep_block_mode, sleep_unblock_mode.
  rewrite arr_read_Done, !bind_Done by lia.
  rewrite !wrap_int_small by lia.
  rewrite !arr_write_Done, !bind_Done by lia.
  unfold EFM_ASSERT. split.
  - destruct (Z.ltb_spec (cell t EM + 1) 5), (Z.ltb_spec (cell t EM) 4);
      try lia; reflexivity.
  - destruct (Z.leb_spec 0 (cell t EM - 1)), (Z.ltb_spec 0 (cell t EM));
      try lia; reflexivity.
Qed.

(** X2.  The two limits of a counter.  On a table with counters between 0 and 4,
    [sleep_block_mode] returns with the counter raised by one when it was
    below 4 and fails its assertion when it was 4; [sleep_unblock_mode]
    returns with the counter lowered by one when it was above 0 and fails
    its assertion when it was 0. *)
Theorem hold_counter_limits (t : list Z) (EM : Z) :
  holds_ok t -> 0 <= EM < MAX_ENERGY_MODES ->
  sleep_block_mode EM t
  = (if cell t EM <? 4
     then Done (<[Z.to_nat EM := cell t EM + 1]> t) else Fatal) /\
  sleep_unblock_mode EM t
  = (if 0 <? cell t EM
     then Done (<[Z.to_nat EM := cell t EM - 1]> t) else Fatal).
Proof. exact (hold_calls_cases t EM). Qed.

Lemma hold_counter_limits_witness :
  holds_ok [0; 0; 4; 1; 0] /\ 0 <= EM2 < MAX_ENERGY_MODES /\
  sleep_block_mode EM2 [0; 0; 4; 1; 0] = Fatal /\
  sleep_unblock_mode EM0 [0; 0; 4; 1; 0] = Fatal /\
  (sleep_block_mode EM2 [0; 0; 4; 1; 0]
   = (if cell [0; 0; 4; 1; 0] EM2 <? 4
      then Done (<[Z.to_nat EM2 := cell [0; 0; 4; 1; 0] EM2 + 1]> [0; 0; 4; 1; 0])
      else Fatal) /\
   sleep_unblock_mode EM2 [0; 0; 4; 1; 0]
   = (if 0 <? cell [0; 0; 4; 1; 0] EM2
      then Done (<[Z.to_nat EM2 := cell [0; 0; 4; 1; 0] EM2 - 1]> [0; 0; 4; 1; 0])
      else Fatal)).
Proof.
  assert (Hok : holds_ok [0; 0; 4; 1; 0]).
  { split; [reflexivity|]. repeat constructor; lia. }
  split; [exact Hok|]. split; [unfold EM2, MAX_ENERGY_MODES; lia|].
  split; [reflexivity|]. split; [reflexivity|].
  apply (hold_counter_limits [0; 0; 4; 1; 0] EM2);
    [exact Hok | unfold EM2, MAX_ENERGY_MODES; lia].
Defined.

(** X3.  A hold and its release.  [sleep_block_mode] on a counter below 4 raises
    that counter by one and leaves the other modes' counters alone, and the
    [sleep_unblock_mode] that follows gives back the table as it was. *)
Theorem block_then_unblock (t : list Z) (EM : Z) :
  holds_ok t -> 0 <= EM < MAX_ENERGY_MODES -> cell t EM < 4 ->
  exists t1,
    sleep_block_mode EM t = Done t1 /\
    cell t1 EM = cell t EM + 1 /\
    (forall m, 0 <= m -> m <> EM -> cell t1 m = cell t m) /\
    sleep_unblock_mode EM t1 = Done t.
Proof.
  intros Hok HEM Hc4. pose proof (holds_ok_cell t EM Hok HEM) as Hc.
  assert (Hlen : Z.of_nat (length t) = MAX_ENERGY_MODES) by apply Hok.
  exists (<[Z.to_nat EM := cell t EM + 1]> t).
  assert (Hok1 : holds_ok (<[Z.to_nat EM := cell t EM + 1]> t))
    by (apply holds_ok_insert; [assumption | lia]).
  split.
  - destruct (hold_calls_cases t EM Hok HEM) as [-> _].
    destruct (Z.ltb_spec (cell t EM) 4); [reflexivity | lia].
  - split; [apply cell_insert_eq; lia|]. split.
    + intros m Hm Hne. apply cell_insert_ne; lia.
    + destruct (hold_calls_cases _ EM Hok1 HEM) as [_ ->].
      rewrite cell_insert_eq by lia.
      destruct (Z.ltb_spec 0 (cell t EM + 1)); [|lia].
      f_equal. rewrite <- (cell_insert_eq t EM (cell t EM + 1)) at 1 by lia.
      apply insert_release. lia.
Qed.

Lemma block_then_unblock_witness :
  holds_ok [0; 0; 1; 3; 0] /\ 0 <= EM3 < MAX_ENERGY_MODES /\
  cell [0; 0; 1; 3; 0] EM3 < 4 /\
  exists t1,
    sleep_block_mode EM3 [0; 0; 1; 3; 0] = Done t1 /\
    cell t1 EM3 = cell [0; 0; 1; 3; 0] EM3 + 1 /\
    (forall m, 0 <= m -> m <> EM3 -> cell t1 m = cell [0; 0; 1; 3; 0] m) /\
    sleep_unblock_mode EM3 t1 = Done [0; 0; 1; 3; 0].
Proof.
  assert (Hok : holds_ok [0; 0; 1; 3; 0]).
  { split; [reflexivity|]. repeat constructor; lia. }
  split; [exact Hok|]. split; [unfold EM3, MAX_ENERGY_MODES; lia|].
  split; [vm_compute; reflexivity|].
  apply (block_then_unblock [0; 0; 1; 3; 0] EM3);
    [exact Hok | unfold EM3, MAX_ENERGY_MODES; lia | vm_compute; reflexivity].
Defined.

Lemma run_call_cell (c : hold_call) (t t' : list Z) (m : Z) :
  holds_ok t -> run_call c t = Done t' -> 0 <= m < MAX_ENERGY_MODES ->
  cell t' m = cell t m + net_holds m [c].
Proof.
  intros Hok Hrun Hm.
  assert (Hlen : Z.of_nat (length t) = MAX_ENERGY_MODES) by apply Hok.
  destruct c as [EM|EM]; cbn [run_call net_holds] in *;
    unfold sleep_block_mode, sleep_unblock_mode in Hrun;
    apply bind_Done_inv in Hrun as (x & Hx & Hrun);
    apply bind_Done_inv in Hrun as (t1 & Ht1 & Hrun);
    apply bind_Done_inv in Hrun as ([] & _ & Hrun);
    injection Hrun as <-;
    apply arr_write_inv in Ht1 as [HEM ->];
    apply arr_read_inv in Hx as [_ <-];
    pose proof (holds_ok_cell t EM Hok ltac:(lia)) as Hc;
    rewrite wrap_int_small by lia;
    (destruct (Z.eqb_spec EM m) as [->|Hne];
     [rewrite cell_insert_eq by lia | rewrite cell_insert_ne by lia]); lia.
Qed.

(** X4.  The counters count.  After a run of block and unblock calls in which no
    assertion fails, the counter of every mode is its value before the run
    plus the number of blocks less the number of unblocks of that mode. *)
Theorem counters_count_holds (cs : list hold_call) :
  forall (t t' : list Z) (m : Z),
    holds_ok t -> run_calls cs t = Done t' -> 0 <= m < MAX_ENERGY_MODES ->
    cell t' m = cell t m + net_holds m cs.
Proof.
  induction cs as [|c cs IH]; intros t t' m Hok Hrun Hm; cbn [run_calls] in Hrun.
  - injection Hrun as <-. cbn [net_holds]. lia.
  - apply bind_Done_inv in Hrun as (t1 & Hc & Hrun).
    rewrite (IH t1 t' m); [| eapply run_call_holds_ok; eassumption
                           | exact Hrun | exact Hm].
    rewrite (run_call_cell c t t1 m Hok Hc Hm).
    destruct c; cbn [net_holds]; lia.
Qed.

Lemma counters_count_holds_witness :
  let cs := [Block EM2; Block EM3; Block EM2; Unblock EM3; Block EM2;
             Unblock EM2] in
  holds_ok [0; 0; 1; 0; 0] /\
  run_calls cs [0; 0; 1; 0; 0] = Done [0; 0; 3; 0; 0] /\
  0 <= EM2 < MAX_ENERGY_MODES /\
  net_holds EM2 cs = 2 /\
  cell [0; 0; 3; 0; 0] EM2 = cell [0; 0; 1; 0; 0] EM2 + net_holds EM2 cs.
Proof.
  cbv zeta.
  assert (Hok : holds_ok [0; 0; 1; 0; 0]).
  { split; [reflexivity|]. repeat constructor; lia. }
  split; [exact Hok|]. split; [reflexivity|].
  split; [unfold EM2, MAX_ENERGY_MODES; lia|]. split; [reflexivity|].
  apply (counters_count_holds
           [Block EM2; Block EM3; Block EM2; Unblock EM3; Block EM2; Unblock EM2]
           [0; 0; 1; 0; 0] [0; 0; 3; 0; 0] EM2);
    [exact Hok | reflexivity | unfold EM2, MAX_ENERGY_MODES; lia].
Defined.

(** X5.  What [enter_sleep] never does.  It never enters a mode whose counter is
    positive, nor any deeper mode: the mode entered is shallower than every
    held mode from EM1 on, and with a hold on EM0 the core stays awake.  EM4
    is not entered. *)
Theorem enter_sleep_keeps_above_holds (t : list Z) (m : Z) :
  Z.of_nat (length t) = MAX_ENERGY_MODES ->
  0 <= m < MAX_ENERGY_MODES -> 0 < cell t m ->
  entered_mode (enter_sleep t) <= Z.max 0 (m - 1) /\
  entered_mode (enter_sleep t) < EM4.
Proof.
  intros Hlen Hm Hheld.
  destruct t as [|c0 [|c1 [|c2 [|c3 [|c4 [|c5 t]]]]]]; try discriminate Hlen.
  2: { cbn in Hlen. unfold MAX_ENERGY_MODES in Hlen. lia. }
  unfold MAX_ENERGY_MODES in Hm.
  unfold enter_sleep, entered_mode.
  change (cell [c0; c1; c2; c3; c4] EM0) with c0.
  change (cell [c0; c1; c2; c3; c4] EM1) with c1.
  change (cell [c0; c1; c2; c3; c4] EM2) with c2.
  change (cell [c0; c1; c2; c3; c4] EM3) with c3.
  unfold EM0, EM1, EM2, EM3, EM4.
  assert (Hcases : m = 0 \/ m = 1 \/ m = 2 \/ m = 3 \/ m = 4) by lia.
  destruct Hcases as [->|[->|[->|[->| ->]]]];
    [change (cell [c0; c1; c2; c3; c4] 0) with c0 in Hheld
    |change (cell [c0; c1; c2; c3; c4] 1) with c1 in Hheld
    |change (cell [c0; c1; c2; c3; c4] 2) with c2 in Hheld
    |change (cell [c0; c1; c2; c3; c4] 3) with c3 in Hheld
    |change (cell [c0; c1; c2; c3; c4] 4) with c4 in Hheld];
    destruct (Z.ltb_spec 0 c0), (Z.ltb_spec 0 c1), (Z.ltb_spec 0 c2),
      (Z.ltb_spec 0 c3); lia.
Qed.

Lemma enter_sleep_keeps_above_holds_witness :
  Z.of_nat (length [0; 0; 0; 2; 1]) = MAX_ENERGY_MODES /\
  0 <= EM3 < MAX_ENERGY_MODES /\ 0 < cell [0; 0; 0; 2; 1] EM3 /\
  enter_sleep [0; 0; 0; 2; 1] = EMU_EnterEM2 /\
  (entered_mode (enter_sleep [0; 0; 0; 2; 1]) <= Z.max 0 (EM3 - 1) /\
   entered_mode (enter_sleep [0; 0; 0; 2; 1]) < EM4).
Proof.
  split; [reflexivity|]. split; [unfold EM3, MAX_ENERGY_MODES; lia|].
  split; [reflexivity|]. split; [reflexivity|].
  apply (enter_sleep_keeps_above_holds [0; 0; 0; 2; 1] EM3);
    [reflexivity | unfold EM3, MAX_ENERGY_MODES; lia | reflexivity].
Defined.

End SleepMore.

(** ** The event scheduler *)

Section SchedulerMore.
Import Scheduler.

Lemma remove_scheduled_event_range (e es : Z) :
  0 <= remove_scheduled_event e es < 2 ^ 32.
Proof.
  unfold remove_scheduled_event, not32.
  rewrite Z.land_assoc, Z.land_ones by lia. apply Z.mod_pos_bound. lia.
Qed.

(** X6.  Post and clear undo each other on an event that was not pending: the
    mask is then exactly what it was.  Clearing is idempotent, a post after a
    clear of the same event is that post alone, and the mask stays within 32
    bits. *)
Theorem post_then_clear (e es : Z) :
  0 <= e < 2 ^ 32 -> 0 <= es < 2 ^ 32 ->
  (Z.land es e = 0 ->
   remove_scheduled_event e (add_scheduled_event e es) = es) /\
  remove_scheduled_event e (remove_scheduled_event e es)
  = remove_scheduled_event e es /\
  add_scheduled_event e (remove_scheduled_event e es)
  = add_scheduled_event e es /\
  0 <= add_scheduled_event e es < 2 ^ 32 /\
  0 <= remove_scheduled_event e es < 2 ^ 32.
Proof.
  intros He Hes.
  assert (Hbit : forall x i, 0 <= x < 2 ^ 32 -> 0 <= i ->
            Z.testbit x i && (i <? 32) = Z.testbit x i).
  { intros x i Hx Hi. destruct (Z.ltb_spec i 32); [apply andb_true_r|].
    rewrite testbit_above_u32 by lia. reflexivity. }
  split; [|split; [|split; [|split]]].
  - intros Hdisj. unfold remove_scheduled_event, add_scheduled_event.
    apply Z.bits_inj'. intros i Hi.
    rewrite Z.land_spec, Z.lor_spec, testbit_not32.
    assert (Hd : Z.testbit es i && Z.testbit e i = false)
      by (rewrite <- Z.land_spec, Hdisj; apply Z.bits_0).
    destruct (Z.leb_spec 0 i); [|lia]. rewrite andb_true_r.
    rewrite <- (Hbit es i Hes Hi) at 2.
    destruct (Z.testbit es i), (Z.testbit e i), (i <? 32); cbn in *;
      congruence.
  - unfold remove_scheduled_event. rewrite <- Z.land_assoc, Z.land_diag.
    reflexivity.
  - unfold remove_scheduled_event, add_scheduled_event.
    apply Z.bits_inj'. intros i Hi.
    rewrite !Z.lor_spec, Z.land_spec, testbit_not32.
    destruct (Z.leb_spec 0 i); [|lia]. rewrite andb_true_r.
    rewrite <- (Hbit es i Hes Hi) at 2.
    destruct (Z.testbit es i), (Z.testbit e i), (i <? 32); reflexivity.
  - now apply add_scheduled_event_range.
  - apply remove_scheduled_event_range.
Qed.

Lemma post_then_clear_witness :
  0 <= 0x8 < 2 ^ 32 /\ 0 <= 0x5 < 2 ^ 32 /\ Z.land 0x5 0x8 = 0 /\
  remove_scheduled_event 0x8 (add_scheduled_event 0x8 0x5) = 0x5 /\
  remove_scheduled_event 0x4 (add_scheduled_event 0x4 0x5) = 0x1 /\
  ((Z.land 0x5 0x8 = 0 ->
    remove_scheduled_event 0x8 (add_scheduled_event 0x8 0x5) = 0x5) /\
   remove_scheduled_event 0x8 (remove_scheduled_event 0x8 0x5)
   = remove_scheduled_event 0x8 0x5 /\
   add_scheduled_event 0x8 (remove_scheduled_event 0x8 0x5)
   = add_scheduled_event 0x8 0x5 /\
   0 <= add_scheduled_event 0x8 0x5 < 2 ^ 32 /\
   0 <= remove_scheduled_event 0x8 0x5 < 2 ^ 32).
Proof.
  split; [lia|]. split; [lia|]. split; [reflexivity|].
  split; [reflexivity|]. split; [reflexivity|].
  apply (post_then_clear 0x8 0x5); lia.
Defined.

(** X7.  After [scheduler_open] no event is pending, whatever was pending
    before, and the first post then leaves exactly the posted events
    pending. *)
Theorem scheduler_open_then_post (e es : Z) :
  get_scheduled_events (scheduler_open es) = 0 /\
  get_scheduled_events (add_scheduled_event e (scheduler_open es)) = e.
Proof.
  unfold get_scheduled_events, add_scheduled_event.
  rewrite scheduler_open_clears. split; [reflexivity | apply Z.lor_0_l].
Qed.

End SchedulerMore.

(** ** The bus transaction state machine *)

Section I2CMore.
Import Sleep Shared I2C.

Ltac i2c_red :=
  lazy beta iota zeta delta
      [mbind outcome_bind EFM_ASSERT
       i2c_start_interrupt i2c_ack_interrupt i2c_nack_interrupt
       i2c_mstop_interrupt i2c_rxdatav_interrupt
       on_sm on_peripheral set_sm set_regs set_cb set_ram set_shared regs
       set_state set_sm_busy set_read set_CMD set_TXDATA set_RXDATA
       CMD_or TXDATA_or
       state peripheral device_address command sm_busy read read_value
       i2c0 i2c1 i2c_peripheral_state scheduled_read_cb ram shared
       STATE CMD TXDATA RXDATA
       Shared.add_scheduled_event lowest_energy_mode event_scheduled call_log].

Lemma lor_twice (c a b : Z) :
  Z.lor (Z.lor (Z.lor (Z.lor c a) b) a) b = Z.lor (Z.lor c a) b.
Proof.
  apply Z.bits_inj'. intros i _. rewrite !Z.lor_spec.
  destruct (Z.testbit c i), (Z.testbit a i), (Z.testbit b i); reflexivity.
Qed.

Lemma lor_again (c a : Z) : Z.lor (Z.lor c a) a = Z.lor c a.
Proof. now rewrite <- Z.lor_assoc, Z.lor_diag. Qed.

(** X8.  The retry on not-acknowledge has no bound.  In [read_request] any
    number of not-acknowledge interrupts is handled: each reissues the start
    and the read address, so that after the first as after any later one
    the command register of the machine's peripheral has CLEARTX and START
    or-ed in, its transmit register the device address with the read bit,
    and [read] is set; the machine stays in [read_request] on the same
    peripheral and device, with the holds, the events, the calls made, the
    destination and the busy flag untouched. *)
Theorem nack_retries_without_bound (n : nat) :
  forall s : system,
    state (i2c_peripheral_state s) = read_request ->
    exists s',
      deliver_all (replicate n NACK) s = Done s' /\
      state (i2c_peripheral_state s') = read_request /\
      shared s' = shared s /\
      sm_busy (i2c_peripheral_state s') = sm_busy (i2c_peripheral_state s) /\
      scheduled_read_cb s' = scheduled_read_cb s /\
      ram s' = ram s /\
      peripheral (i2c_peripheral_state s') = peripheral (i2c_peripheral_state s) /\
      device_address (i2c_peripheral_state s')
      = device_address (i2c_peripheral_state s) /\
      (n <> 0%nat ->
       read (i2c_peripheral_state s') = true /\
       CMD (regs (peripheral (i2c_peripheral_state s)) s')
       = Z.lor (Z.lor (CMD (regs (peripheral (i2c_peripheral_state s)) s))
                  I2C_CMD_CLEARTX) I2C_CMD_START /\
       TXDATA (regs (peripheral (i2c_peripheral_state s)) s')
       = Z.lor (TXDATA (regs (peripheral (i2c_peripheral_state s)) s))
           (address_byte (device_address (i2c_peripheral_state s)) true)).
Proof.
  induction n as [|n IH]; intros s Hst.
  - exists s. repeat split; try assumption; try reflexivity; contradiction.
  - cbn [replicate deliver_all]. rewrite deliver_NACK.
    destruct s as [r0 r1 [st per da cm busy rd rv] cbk mem g].
    cbn [state i2c_peripheral_state] in Hst. subst st.
    destruct per; i2c_red;
      match goal with
      | |- context [deliver_all (replicate n NACK) ?s1] =>
          destruct (IH s1 eq_refl)
            as (s' & Hrun & Hst' & Hsh & Hb & Hcb & Hram & Hper & Hda & Hregs);
          exists s'; rewrite Hrun
      end;
      cbn [peripheral device_address i2c_peripheral_state regs i2c0 i2c1
           CMD TXDATA] in Hper, Hda, Hregs;
      (split; [reflexivity|]); (split; [exact Hst'|]);
      (split; [exact Hsh|]); (split; [exact Hb|]); (split; [exact Hcb|]);
      (split; [exact Hram|]); (split; [exact Hper|]); (split; [exact Hda|]);
      intros _;
      (destruct n as [|m];
       [ cbn [replicate deliver_all] in Hrun; injection Hrun as <-;
         repeat split
       | destruct (Hregs ltac:(discriminate)) as (Hrd & Hcmd & Htx);
         split; [exact Hrd|]; split;
         [ exact (eq_trans Hcmd (lor_twice _ _ _))
         | exact (eq_trans Htx (lor_again _ _)) ] ]).
Qed.

Lemma nack_retries_without_bound_witness :
  exists s1,
    (s ← i2c_start I2C0 0x40 0xF3 0x20000000 0x8 boot; deliver_all [ACK; ACK] s)
    = Done s1 /\
    state (i2c_peripheral_state s1) = read_request /\
    exists s',
      deliver_all (replicate 1000 NACK) s1 = Done s' /\
      state (i2c_peripheral_state s') = read_request /\
      shared s' = shared s1 /\
      sm_busy (i2c_peripheral_state s') = sm_busy (i2c_peripheral_state s1) /\
      scheduled_read_cb s' = scheduled_read_cb s1 /\
      ram s' = ram s1 /\
      peripheral (i2c_peripheral_state s') = peripheral (i2c_peripheral_state s1) /\
      device_address (i2c_peripheral_state s')
      = device_address (i2c_peripheral_state s1) /\
      (1000%nat <> 0%nat ->
       read (i2c_peripheral_state s') = true /\
       CMD (regs (peripheral (i2c_peripheral_state s1)) s')
       = Z.lor (Z.lor (CMD (regs (peripheral (i2c_peripheral_state s1)) s1))
                  I2C_CMD_CLEARTX) I2C_CMD_START /\
       TXDATA (regs (peripheral (i2c_peripheral_state s1)) s')
       = Z.lor (TXDATA (regs (peripheral (i2c_peripheral_state s1)) s1))
           (address_byte (device_address (i2c_peripheral_state s1)) true)).
Proof.
  eexists. split; [vm_compute; reflexivity|].
  split; [reflexivity|].
  apply (nack_retries_without_bound 1000). reflexivity.
Defined.

Lemma lor_high_low (hi lo : Z) :
  0 <= hi < 2 ^ 8 -> 0 <= lo < 2 ^ 8 ->
  Z.lor (wrap_u32 (Z.shiftl hi 8)) lo = 256 * hi + lo.
Proof.
  intros Hhi Hlo. unfold wrap_u32.
  rewrite Z.shiftl_mul_pow2 by lia. rewrite Z.mod_small by lia.
  assert (Hdisj : Z.land (hi * 2 ^ 8) lo = 0).
  { apply Z.bits_inj'. intros i Hi. rewrite Z.land_spec, Z.bits_0.
    destruct (Z.lt_ge_cases i 8) as [Hlt|Hge].
    - rewrite Z.mul_pow2_bits_low by lia. reflexivity.
    - destruct (Z.eq_dec lo 0) as [->|Hne];
        [rewrite Z.bits_0; apply andb_false_r|].
      rewrite (Z.bits_above_log2 lo i); [apply andb_false_r | lia |].
      assert (Z.log2 lo < 8) by (apply Z.log2_lt_pow2; lia). lia. }
  rewrite <- Z.lxor_lor, <- Z.add_nocarry_lxor by exact Hdisj. lia.
Qed.

(** X9.  The data phase.  From [read_ms_byte], the two data-available interrupts
    with the bytes [hi] and [lo] leave the machine in [stop_comm] and the
    word the caller's pointer designates holding [256 * hi + lo], whatever
    it held before; no other word, no hold and no event is touched. *)
Theorem data_phase_stores_16_bits (s : system) (hi lo : Z) :
  state (i2c_peripheral_state s) = read_ms_byte ->
  0 <= hi < 2 ^ 8 -> 0 <= lo < 2 ^ 8 ->
  exists s',
    deliver_all [RXDATAV hi; RXDATAV lo] s = Done s' /\
    state (i2c_peripheral_state s') = stop_comm /\
    ram s' (read_value (i2c_peripheral_state s)) = 256 * hi + lo /\
    (forall a, a <> read_value (i2c_peripheral_state s) -> ram s' a = ram s a) /\
    shared s' = shared s.
Proof.
  intros Hst Hhi Hlo.
  destruct s as [r0 r1 [st per da cm busy rd rv] cbk mem g].
  cbn [state i2c_peripheral_state read_value ram shared] in *. subst st.
  destruct per.
  all: eexists; split;
    [cbn [deliver_all]; rewrite deliver_RXDATAV; i2c_red;
     rewrite deliver_RXDATAV; i2c_red; reflexivity|].
  all: i2c_red; split; [reflexivity|].
  all: unfold store; rewrite ?Z.eqb_refl.
  all: split; [now apply lor_high_low|].
  all: split; [|reflexivity].
  all: intros a Ha; destruct (Z.eqb_spec a rv); [contradiction | reflexivity].
Qed.

Lemma data_phase_stores_16_bits_witness :
  exists s,
    awaiting_data = Done s /\
    state (i2c_peripheral_state s) = read_ms_byte /\
    0 <= 0x61 < 2 ^ 8 /\ 0 <= 0x2C < 2 ^ 8 /\
    exists s',
      deliver_all [RXDATAV 0x61; RXDATAV 0x2C] s = Done s' /\
      state (i2c_peripheral_state s') = stop_comm /\
      ram s' (read_value (i2c_peripheral_state s)) = 256 * 0x61 + 0x2C /\
      (forall a, a <> read_value (i2c_peripheral_state s) -> ram s' a = ram s a) /\
      shared s' = shared s.
Proof.
  eexists. split; [vm_compute; reflexivity|].
  split; [reflexivity|]. split; [lia|]. split; [lia|].
  apply data_phase_stores_16_bits; [reflexivity | lia | lia].
Defined.

(** X10.  When [i2c_start] returns.  Over a table of holds with counters between 0
    and 4: with the bus idle and fewer than four holds on EM2 the call
    returns, in [start_comm] and with one more hold on EM2; in every other
    case, a bus that is not idle or a fourth hold already taken, it fails an
    assertion. *)
Theorem i2c_start_returns_or_halts
    (s : system) (p : I2C_ptr) (addr cmd dst cb : Z) :
  holds_ok (lowest_energy_mode (shared s)) ->
  (Z.land (STATE (regs p s)) _I2C_STATE_STATE_MASK = I2C_STATE_STATE_IDLE /\
   cell (lowest_energy_mode (shared s)) EM2 < 4 ->
   exists s',
     i2c_start p addr cmd dst cb s = Done s' /\
     state (i2c_peripheral_state s') = start_comm /\
     cell (lowest_energy_mode (shared s')) EM2
     = cell (lowest_energy_mode (shared s)) EM2 + 1) /\
  (~ (Z.land (STATE (regs p s)) _I2C_STATE_STATE_MASK = I2C_STATE_STATE_IDLE /\
      cell (lowest_energy_mode (shared s)) EM2 < 4) ->
   i2c_start p addr cmd dst cb s = Fatal).
Proof.
  intros Hok.
  assert (HEM : 0 <= EM2 < MAX_ENERGY_MODES) by (unfold EM2, MAX_ENERGY_MODES; lia).
  pose proof (holds_ok_cell _ EM2 Hok HEM) as Hc.
  assert (Hlen : Z.of_nat (length (lowest_energy_mode (shared s)))
                 = MAX_ENERGY_MODES) by apply Hok.
  split.
  - intros [Hidle Hc4]. unfold i2c_start. rewrite Hidle.
    cbn [EFM_ASSERT Z.eqb I2C_STATE_STATE_IDLE].
    rewrite bind_Done, shared_block_Done, bind_Done by lia.
    eexists. split; [reflexivity|].
    destruct s as [r0 r1 m cbk mem [tbl es log]].
    destruct p; i2c_red; (split; [reflexivity|]);
      apply cell_insert_eq; cbn [shared lowest_energy_mode] in Hlen; lia.
  - intros Hnot. unfold i2c_start.
    destruct (Z.eqb_spec (Z.land (STATE (regs p s)) _I2C_STATE_STATE_MASK)
                I2C_STATE_STATE_IDLE) as [Hidle|_]; [|reflexivity].
    cbn [EFM_ASSERT]. rewrite bind_Done.
    unfold Shared.sleep_block_mode.
    destruct (hold_calls_cases _ EM2 Hok HEM) as [-> _].
    destruct (Z.ltb_spec (cell (lowest_energy_mode (shared s)) EM2) 4);
      [exfalso; apply Hnot; split; assumption | reflexivity].
Qed.

Lemma i2c_start_returns_or_halts_witness :
  holds_ok (lowest_energy_mode (shared boot)) /\
  i2c_start I2C0 0x40 0xF3 0x20000000 0x8
    (set_regs I2C0 (mk_regs 0x21 0 0 0) boot) = Fatal /\
  ((Z.land (STATE (regs I2C0 boot)) _I2C_STATE_STATE_MASK = I2C_STATE_STATE_IDLE /\
    cell (lowest_energy_mode (shared boot)) EM2 < 4 ->
    exists s',
      i2c_start I2C0 0x40 0xF3 0x20000000 0x8 boot = Done s' /\
      state (i2c_peripheral_state s') = start_comm /\
      cell (lowest_energy_mode (shared s')) EM2
      = cell (lowest_energy_mode (shared boot)) EM2 + 1) /\
   (~ (Z.land (STATE (regs I2C0 boot)) _I2C_STATE_STATE_MASK = I2C_STATE_STATE_IDLE /\
       cell (lowest_energy_mode (shared boot)) EM2 < 4) ->
    i2c_start I2C0 0x40 0xF3 0x20000000 0x8 boot = Fatal)).
Proof.
  assert (Hok : holds_ok (lowest_energy_mode (shared boot))).
  { split; [reflexivity|]. repeat constructor; lia. }
  split; [exact Hok|]. split; [reflexivity|].
  apply (i2c_start_returns_or_halts boot I2C0 0x40 0xF3 0x20000000 0x8).
  exact Hok.
Defined.

(** X11.  The stop handler does not leave [stop_comm].  Every stop-confirmed
    interrupt delivered there, the first as any later one, clears the busy
    flag, releases one hold on EM2 and posts the completion event; when no
    hold on EM2 is left the release fails its assertion. *)
Theorem stop_confirmed_in_stop_comm (s : system) :
  state (i2c_peripheral_state s) = stop_comm ->
  holds_ok (lowest_energy_mode (shared s)) ->
  (cell (lowest_energy_mode (shared s)) EM2 = 0 -> deliver MSTOP s = Fatal) /\
  (0 < cell (lowest_energy_mode (shared s)) EM2 ->
   exists s',
     deliver MSTOP s = Done s' /\
     state (i2c_peripheral_state s') = stop_comm /\
     sm_busy (i2c_peripheral_state s') = false /\
     cell (lowest_energy_mode (shared s')) EM2
     = cell (lowest_energy_mode (shared s)) EM2 - 1 /\
     call_log (shared s')
     = call_log (shared s)
       ++ [Call_unblock EM2; Call_add_event (scheduled_read_cb s)] /\
     event_scheduled (shared s')
     = Scheduler.add_scheduled_event (scheduled_read_cb s)
         (event_scheduled (shared s))).
Proof.
  intros Hst Hok.
  assert (HEM : 0 <= EM2 < MAX_ENERGY_MODES) by (unfold EM2, MAX_ENERGY_MODES; lia).
  pose proof (holds_ok_cell _ EM2 Hok HEM) as Hc.
  assert (Hlen : Z.of_nat (length (lowest_energy_mode (shared s)))
                 = MAX_ENERGY_MODES) by apply Hok.
  destruct s as [r0 r1 [st per da cm busy rd rv] cbk mem [tbl es log]].
  cbn [state i2c_peripheral_state shared lowest_energy_mode call_log
       event_scheduled scheduled_read_cb] in *.
  subst st. rewrite deliver_MSTOP. split.
  - intros Hzero. i2c_red. unfold Shared.sleep_unblock_mode.
    cbn [lowest_energy_mode].
    destruct (hold_calls_cases tbl EM2 Hok HEM) as [_ ->].
    rewrite Hzero. reflexivity.
  - intros Hpos. i2c_red.
    rewrite shared_unblock_Done by (cbn [lowest_energy_mode]; lia).
    i2c_red. eexists. split; [reflexivity|]. i2c_red.
    split; [reflexivity|]. split; [reflexivity|].
    split; [apply cell_insert_eq; lia|].
    split; [now rewrite <- app_assoc | reflexivity].
Qed.

Lemma stop_confirmed_in_stop_comm_witness :
  exists s1 s2,
    awaiting_stop = Done s1 /\
    state (i2c_peripheral_state s1) = stop_comm /\
    holds_ok (lowest_energy_mode (shared s1)) /\
    deliver MSTOP s1 = Done s2 /\
    state (i2c_peripheral_state s2) = stop_comm /\
    holds_ok (lowest_energy_mode (shared s2)) /\
    cell (lowest_energy_mode (shared s2)) EM2 = 0 /\
    deliver MSTOP s2 = Fatal.
Proof.
  assert (H1 : exists s1, awaiting_stop = Done s1 /\
             state (i2c_peripheral_state s1) = stop_comm /\
             lowest_energy_mode (shared s1) = [0; 0; 1; 0; 0]).
  { eexists. split; [vm_compute; reflexivity|]. split; reflexivity. }
  destruct H1 as (s1 & Hrun & Hst1 & Htbl1).
  assert (Hok1 : holds_ok (lowest_energy_mode (shared s1))).
  { rewrite Htbl1. split; [reflexivity|]. repeat constructor; lia. }
  destruct (stop_confirmed_in_stop_comm s1 Hst1 Hok1) as [_ Hpos].
  destruct Hpos as (s2 & Hd & Hst2 & _ & Hc2 & _).
  { rewrite Htbl1. reflexivity. }
  assert (Htbl2 : cell (lowest_energy_mode (shared s2)) EM2 = 0)
    by (rewrite Hc2, Htbl1; reflexivity).
  assert (Hok2 : holds_ok (lowest_energy_mode (shared s2))).
  { rewrite deliver_MSTOP in Hd. unfold i2c_mstop_interrupt in Hd.
    rewrite Hst1 in Hd. apply bind_Done_inv in Hd as (g & Hg & Hd).
    injection Hd as <-. cbn [shared set_shared Shared.add_scheduled_event
                             lowest_energy_mode].
    unfold Shared.sleep_unblock_mode in Hg.
    apply bind_Done_inv in Hg as (t & Ht & Hg). injection Hg as <-.
    cbn [lowest_energy_mode].
    eapply (run_call_holds_ok (Unblock EM2)); [|exact Ht].
    destruct s1; exact Hok1. }
  exists s1, s2. split; [exact Hrun|]. split; [exact Hst1|].
  split; [exact Hok1|]. split; [exact Hd|]. split; [exact Hst2|].
  split; [exact Hok2|]. split; [exact Htbl2|].
  apply (stop_confirmed_in_stop_comm s2 Hst2 Hok2). exact Htbl2.
Defined.

End I2CMore.

(** ** The transmit state machine *)

Section LeuartMore.
Import Sleep Shared Leuart.

Lemma leuart_drain_witness :
  strlen [79; 75] = Z.of_nat 2 /\ (2 <= 2)%nat /\
  length (output (sm (boot 0x4))) = 80%nat /\ (2 < 80)%nat /\
  0 <= EM3 < Z.of_nat (length (lowest_energy_mode (shared (boot 0x4)))) /\
  0 <= cell (lowest_energy_mode (shared (boot 0x4))) EM3 < 4 /\
  exists s0 s1 s',
    leuart_start EM3 [79; 75] (Z.of_nat 2) (boot 0x4) = Done s0 /\
    IEN (LEUART0 s0) = LEUART_IEN_TXBL /\
    irqs EM3 2 s0 = Done s1 /\
    wire (LEUART0 s1) = wire (LEUART0 (boot 0x4)) ++ take 2 [79; 75] /\
    IEN (LEUART0 s1) = LEUART_IEN_TXC /\
    state (sm s1) = active_trans /\
    irqs EM3 2 s1 = Done s' /\
    IEN (LEUART0 s') = 0 /\
    wire (LEUART0 s') = wire (LEUART0 (boot 0x4)) ++ take 2 [79; 75] /\
    sm_busy (sm s') = false /\
    lowest_energy_mode (shared s') = lowest_energy_mode (shared (boot 0x4)) /\
    call_log (shared s')
    = call_log (shared (boot 0x4))
      ++ [Call_block EM3; Call_unblock EM3;
          Call_add_event (tx_done_evt (boot 0x4))] /\
    event_scheduled (shared s')
    = Scheduler.add_scheduled_event (tx_done_evt (boot 0x4))
        (event_scheduled (shared (boot 0x4))).
Proof.
  split; [reflexivity|]. split; [lia|]. split; [reflexivity|]. split; [lia|].
  split; [vm_compute; split; [discriminate | reflexivity]|].
  split; [vm_compute; split; [discriminate | reflexivity]|].
  apply (leuart_drain EM3 (boot 0x4) [79; 75] 2);
    [reflexivity | lia | reflexivity | lia
    | vm_compute; split; [discriminate | reflexivity]
    | vm_compute; split; [discriminate | reflexivity]].
Defined.

Lemma irq_masked (LEUART_TX_EM : Z) (s : system) :
  IEN (LEUART0 s) = 0 ->
  exists s',
    irq LEUART_TX_EM s = Done s' /\
    sm s' = sm s /\ shared s' = shared s /\
    wire (LEUART0 s') = wire (LEUART0 s) /\ IEN (LEUART0 s') = 0.
Proof.
  intros Hien. destruct s as [[status ien ifr w] m rx tx g].
  cbn [IEN LEUART0] in Hien. subst ien.
  unfold irq, LEUART0_IRQHandler.
  cbn [on_leuart LEUART0 set_IF IF_ IEN STATUS wire sm rx_done_evt
       tx_done_evt shared].
  rewrite Z.land_0_r.
  change (flagged 0 LEUART_IF_TXBL) with false.
  change (flagged 0 LEUART_IF_TXC) with false.
  cbv iota. rewrite bind_Done.
  eexists. split; [reflexivity|]. repeat split.
Qed.

(** X13.  With no interrupt enabled, as after the exit point, interrupt requests
    reach no handler: however many arrive, no byte is sent, the state
    machine, the holds, the events and the calls made stay as they are, and
    no interrupt becomes enabled. *)
Theorem masked_requests_do_nothing (LEUART_TX_EM : Z) (n : nat) :
  forall s : system,
    IEN (LEUART0 s) = 0 ->
    exists s',
      irqs LEUART_TX_EM n s = Done s' /\
      sm s' = sm s /\ shared s' = shared s /\
      wire (LEUART0 s') = wire (LEUART0 s) /\ IEN (LEUART0 s') = 0.
Proof.
  induction n as [|n IH]; intros s Hien.
  - exists s. repeat split; assumption || reflexivity.
  - destruct (irq_masked LEUART_TX_EM s Hien) as (s1 & Hirq & Hsm & Hsh & Hw & Hien1).
    destruct (IH s1 Hien1) as (s' & Hrun & Hsm' & Hsh' & Hw' & Hien').
    exists s'. cbn [irqs]. rewrite Hirq, bind_Done.
    split; [exact Hrun|]. repeat split; congruence.
Qed.

Lemma masked_requests_do_nothing_witness :
  IEN (LEUART0 (boot 0x4)) = 0 /\
  exists s',
    irqs EM3 5 (boot 0x4) = Done s' /\
    sm s' = sm (boot 0x4) /\ shared s' = shared (boot 0x4) /\
    wire (LEUART0 s') = wire (LEUART0 (boot 0x4)) /\ IEN (LEUART0 s') = 0.
Proof.
  split; [reflexivity|].
  apply (masked_requests_do_nothing EM3 5 (boot 0x4)). reflexivity.
Defined.

(** X14.  When [leuart_start] returns.  Over holds between 0 and 4 and the 80
    bytes of [output]: with the mode's counter at 4 the call fails its
    assertion; otherwise a string of 80 bytes or more is copied past the end
    of [output]; otherwise the call returns with one more hold, the machine
    busy in [idle] with the count at zero, [output] holding the string and
    its terminating zero, and TXBL the only interrupt enabled. *)
Theorem leuart_start_outcomes
    (LEUART_TX_EM : Z) (s : system) (string : list Z) (string_len : Z) :
  holds_ok (lowest_energy_mode (shared s)) ->
  0 <= LEUART_TX_EM < MAX_ENERGY_MODES ->
  length (output (sm s)) = 80%nat ->
  (cell (lowest_energy_mode (shared s)) LEUART_TX_EM = 4 ->
   leuart_start LEUART_TX_EM string string_len s = Fatal) /\
  (cell (lowest_energy_mode (shared s)) LEUART_TX_EM < 4 ->
   80 <= strlen string ->
   leuart_start LEUART_TX_EM string string_len s = Undef) /\
  (cell (lowest_energy_mode (shared s)) LEUART_TX_EM < 4 ->
   strlen string < 80 ->
   exists s0,
     leuart_start LEUART_TX_EM string string_len s = Done s0 /\
     state (sm s0) = idle /\ count (sm s0) = 0 /\ sm_busy (sm s0) = true /\
     str_length (sm s0) = string_len /\
     take (S (Z.to_nat (strlen string))) (output (sm s0))
     = take (Z.to_nat (strlen string)) string ++ [0] /\
     length (output (sm s0)) = 80%nat /\
     IEN (LEUART0 s0) = LEUART_IEN_TXBL /\
     wire (LEUART0 s0) = wire (LEUART0 s) /\
     cell (lowest_energy_mode (shared s0)) LEUART_TX_EM
     = cell (lowest_energy_mode (shared s)) LEUART_TX_EM + 1).
Proof.
  intros Hok HEM Hout.
  pose proof (holds_ok_cell _ LEUART_TX_EM Hok HEM) as Hc.
  pose proof (strlen_le_length string) as HL.
  assert (Hlen : Z.of_nat (length (lowest_energy_mode (shared s)))
                 = MAX_ENERGY_MODES) by apply Hok.
  destruct s as [[status ien ifr w] [busy len st out cnt] rx tx g].
  cbn [shared sm output LEUART0 wire] in *.
  unfold leuart_start.
  cbn [on_leuart on_sm set_shared shared LEUART0 sm STATUS IEN IF_ wire
       set_STATUS set_state set_count output state count rx_done_evt
       tx_done_evt].
  split; [|split].
  - intros H4. unfold Shared.sleep_block_mode.
    destruct (hold_calls_cases _ LEUART_TX_EM Hok HEM) as [-> _].
    rewrite H4. reflexivity.
  - intros Hc4 Hlong.
    rewrite shared_block_Done, bind_Done by lia.
    unfold strcpy.
    destruct (Z.leb_spec (strlen string + 1) (Z.of_nat (length out))); [lia|].
    reflexivity.
  - intros Hc4 Hshort.
    rewrite shared_block_Done, bind_Done by lia.
    unfold strcpy.
    destruct (Z.leb_spec (strlen string + 1) (Z.of_nat (length out))); [|lia].
    eexists. split; [reflexivity|].
    cbn [on_leuart on_sm set_shared shared LEUART0 sm STATUS IEN IF_ wire
         set_IEN output state count sm_busy str_length lowest_energy_mode].
    assert (Hlt : length (take (Z.to_nat (strlen string)) string)
                  = Z.to_nat (strlen string))
      by (apply length_take_le; lia).
    repeat split.
    + rewrite take_app_ge by lia. rewrite Hlt.
      replace (S (Z.to_nat (strlen string)) - Z.to_nat (strlen string))%nat
        with 1%nat by lia.
      reflexivity.
    + rewrite length_app, Hlt. cbn [length]. rewrite length_drop. lia.
    + apply cell_insert_eq. lia.
Qed.

Lemma leuart_start_outcomes_witness :
  holds_ok (lowest_energy_mode (shared (boot 0x4))) /\
  0 <= EM3 < MAX_ENERGY_MODES /\
  length (output (sm (boot 0x4))) = 80%nat /\
  leuart_start EM3 (replicate 80 65) 80 (boot 0x4) = Undef /\
  ((cell (lowest_energy_mode (shared (boot 0x4))) EM3 = 4 ->
    leuart_start EM3 [79; 75] 2 (boot 0x4) = Fatal) /\
   (cell (lowest_energy_mode (shared (boot 0x4))) EM3 < 4 ->
    80 <= strlen [79; 75] ->
    leuart_start EM3 [79; 75] 2 (boot 0x4) = Undef) /\
   (cell (lowest_energy_mode (shared (boot 0x4))) EM3 < 4 ->
    strlen [79; 75] < 80 ->
    exists s0,
      leuart_start EM3 [79; 75] 2 (boot 0x4) = Done s0 /\
      state (sm s0) = idle /\ count (sm s0) = 0 /\ sm_busy (sm s0) = true /\
      str_length (sm s0) = 2 /\
      take (S (Z.to_nat (strlen [79; 75]))) (output (sm s0))
      = take (Z.to_nat (strlen [79; 75])) [79; 75] ++ [0] /\
      length (output (sm s0)) = 80%nat /\
      IEN (LEUART0 s0) = LEUART_IEN_TXBL /\
      wire (LEUART0 s0) = wire (LEUART0 (boot 0x4)) /\
      cell (lowest_energy_mode (shared s0)) EM3
      = cell (lowest_energy_mode (shared (boot 0x4))) EM3 + 1)).
Proof.
  assert (Hok : holds_ok (lowest_energy_mode (shared (boot 0x4)))).
  { split; [reflexivity|]. repeat constructor; lia. }
  split; [exact Hok|]. split; [unfold EM3, MAX_ENERGY_MODES; lia|].
  split; [reflexivity|]. split; [vm_compute; reflexivity|].
  apply (leuart_start_outcomes EM3 (boot 0x4) [79; 75] 2);
    [exact Hok | unfold EM3, MAX_ENERGY_MODES; lia | reflexivity].
Defined.

End LeuartMore.

(** ** The circular buffer as a queue of strings *)

Section BleQueue.
Import Ble.

Variable k : Z.
Hypothesis k_range : 0 <= k <= 7.

Local Abbreviation CSIZE := (2 ^ k).

Lemma encoded_size_nonneg (q : list (list Z)) : 0 <= encoded_size q.
Proof.
  induction q as [|s q IH]; cbn [encoded_size foldr]; [lia|].
  fold (encoded_size q). pose proof (strlen_le_length s). lia.
Qed.

Lemma encoded_size_cons (s : list Z) (q : list (list Z)) :
  encoded_size (s :: q) = strlen s + 1 + encoded_size q.
Proof. reflexivity. Qed.

Lemma encoded_size_app (q1 q2 : list (list Z)) :
  encoded_size (q1 ++ q2) = encoded_size q1 + encoded_size q2.
Proof.
  induction q1 as [|s q1 IH]; [reflexivity|].
  cbn [app]. rewrite !encoded_size_cons, IH. lia.
Qed.

Lemma queued_frame (c c' : list Z) (q : list (list Z)) :
  forall pos : Z,
    (forall o, 0 <= o < encoded_size q ->
       cell c' ((pos + o) mod CSIZE) = cell c ((pos + o) mod CSIZE)) ->
    queued CSIZE c pos q -> queued CSIZE c' pos q.
Proof.
  induction q as [|s q IH]; intros pos Hsame Hq; [exact I|].
  pose proof (strlen_le_length s) as HL.
  pose proof (encoded_size_nonneg q) as Hnn.
  rewrite encoded_size_cons in Hsame.
  destruct Hq as (Hhead & Hbody & Hrest). cbn [queued]. split; [|split].
  - rewrite <- Hhead. specialize (Hsame 0 ltac:(lia)).
    now rewrite Z.add_0_r in Hsame.
  - intros i Hi. rewrite <- (Hbody i Hi).
    specialize (Hsame (i + 1) ltac:(lia)).
    now rewrite Z.add_assoc in Hsame.
  - apply IH; [|exact Hrest]. intros o Ho.
    specialize (Hsame (strlen s + 1 + o) ltac:(lia)).
    now rewrite Z.add_assoc in Hsame.
Qed.

Lemma queued_app (c : list Z) (q1 q2 : list (list Z)) :
  forall pos : Z,
    queued CSIZE c pos (q1 ++ q2) <->
    queued CSIZE c pos q1 /\ queued CSIZE c (pos + encoded_size q1) q2.
Proof.
  induction q1 as [|s q1 IH]; intros pos.
  - cbn [app queued encoded_size foldr]. rewrite Z.add_0_r. tauto.
  - cbn [app queued]. rewrite encoded_size_cons, IH.
    replace (pos + (strlen s + 1) + encoded_size q1)
      with (pos + (strlen s + 1 + encoded_size q1)) by lia.
    tauto.
Qed.

Lemma queued_mod_eq (c : list Z) (q : list (list Z)) :
  forall pos pos' : Z,
    pos mod CSIZE = pos' mod CSIZE ->
    queued CSIZE c pos q -> queued CSIZE c pos' q.
Proof.
  pose proof (CSIZE_range k k_range) as HC.
  induction q as [|s q IH]; intros pos pos' Heq Hq; [exact I|].
  destruct Hq as (Hhead & Hbody & Hrest). cbn [queued].
  assert (Hshift : forall d, (pos + d) mod CSIZE = (pos' + d) mod CSIZE).
  { intros d. rewrite <- (Z.add_mod_idemp_l pos), <- (Z.add_mod_idemp_l pos')
      by lia. now rewrite Heq. }
  split; [|split].
  - now rewrite <- Heq.
  - intros i Hi. rewrite <- (Hbody i Hi).
    rewrite <- !Z.add_assoc. f_equal. symmetry. apply Hshift.
  - eapply IH; [|exact Hrest]. apply Hshift.
Qed.

(** A push, with the cells it leaves alone. *)
Lemma ble_circ_push_spec (string : list Z) (b : BLE_CIRCULAR_BUF) (T : Z) :
  Z.of_nat (length (cbuf b)) = CSIZE -> size b = CSIZE ->
  size_mask b = CSIZE - 1 -> 0 <= read_ptr b < CSIZE -> 0 <= T ->
  write_ptr b = (read_ptr b + T) mod CSIZE ->
  T + strlen string + 1 <= CSIZE ->
  exists c',
    ble_circ_push string b
    = Done (mk_cbuf c' CSIZE (CSIZE - 1) (read_ptr b)
              ((read_ptr b + (T + strlen string + 1)) mod CSIZE)) /\
    Z.of_nat (length c') = CSIZE /\
    cell c' (write_ptr b) = strlen string + 1 /\
    (forall i, 0 <= i < strlen string ->
       cell c' ((write_ptr b + i + 1) mod CSIZE) = char_at string i) /\
    (forall j, 0 <= j < CSIZE ->
       (forall o, 0 <= o < strlen string + 1 ->
          (write_ptr b + o) mod CSIZE <> j) ->
       cell c' j = cell (cbuf b) j).
Proof.
  pose proof (CSIZE_range k k_range) as HC.
  pose proof (strlen_le_length string) as HL.
  intros Hlen Hsize Hmask Hr HT Hw Hfit.
  assert (Hwr : 0 <= write_ptr b < CSIZE)
    by (rewrite Hw; apply Z.mod_pos_bound; lia).
  destruct (ble_circ_push_fits k k_range string b T)
    as (c' & Hpush & Hlen' & Hhead & Hbody); try assumption.
  exists c'. split; [exact Hpush|]. split; [exact Hlen'|].
  split; [exact Hhead|]. split; [exact Hbody|].
  intros j Hj Havoid.
  (* the array the push returns is the one its two loops compute *)
  unfold ble_circ_push in Hpush.
  rewrite (ble_circ_space_queued k k_range b T) in Hpush by (assumption || lia).
  destruct (Z.ltb_spec (CSIZE - T) (strlen string + 1)); [lia|].
  rewrite bind_Done in Hpush.
  rewrite arr_write_Done, bind_Done in Hpush by lia.
  rewrite Hmask in Hpush.
  set (c1 := <[Z.to_nat (write_ptr b) := wrap_u8 (strlen string + 1)]> (cbuf b))
    in Hpush.
  assert (Hlen1 : Z.of_nat (length c1) = CSIZE)
    by (subst c1; now rewrite length_insert).
  destruct (push_loop_spec k k_range string (write_ptr b)
              (Z.to_nat (strlen string + 1 - 1)) 0 c1 Hlen1)
    as (c2 & Hrun & _ & Hout & _); [lia | lia |].
  rewrite Hrun, bind_Done in Hpush.
  injection Hpush as Hc _. subst c'.
  rewrite Hout.
  - subst c1. apply cell_insert_ne; [lia | lia |].
    specialize (Havoid 0 ltac:(lia)). rewrite Z.add_0_r in Havoid.
    rewrite Z.mod_small in Havoid by lia. exact Havoid.
  - exact Hj.
  - intros i' Hi'. rewrite <- Z.add_assoc. apply Havoid. lia.
Qed.

Lemma push_represents (s : list Z) (b : BLE_CIRCULAR_BUF) (q : list (list Z)) :
  represents CSIZE b q ->
  encoded_size q + (strlen s + 1) < CSIZE ->
  exists b',
    ble_circ_push s b = Done b' /\ represents CSIZE b' (q ++ [s]) /\
    read_ptr b' = read_ptr b.
Proof.
  pose proof (CSIZE_range k k_range) as HC.
  pose proof (strlen_le_length s) as HL.
  pose proof (encoded_size_nonneg q) as Hnn.
  intros (Hlen & Hsize & Hmask & Hr & Hsz & Hw & Hq) Hfit.
  destruct (ble_circ_push_spec s b (encoded_size q))
    as (c' & Hpush & Hlen' & Hhead & Hbody & Hframe); try assumption; try lia.
  eexists. split; [exact Hpush|]. split; [|reflexivity].
  unfold represents. cbn [cbuf size size_mask read_ptr write_ptr].
  rewrite encoded_size_app. cbn [encoded_size foldr].
  split; [exact Hlen'|]. split; [reflexivity|]. split; [reflexivity|].
  split; [exact Hr|]. split; [lia|]. split; [f_equal; lia|].
  apply queued_app. split.
  - apply (queued_frame (cbuf b)); [|exact Hq].
    intros o Ho. apply Hframe; [apply Z.mod_pos_bound; lia|].
    intros o' Ho' Heq. rewrite Hw, Z.add_mod_idemp_l in Heq by lia.
    apply (mod_window k k_range) in Heq; lia.
  - cbn [queued]. split; [|split; [|exact I]].
    + rewrite <- Hw. exact Hhead.
    + intros i Hi. rewrite <- (Hbody i Hi), Hw. f_equal.
      replace ((read_ptr b + encoded_size q) mod CSIZE + i + 1)
        with ((read_ptr b + encoded_size q) mod CSIZE + (i + 1)) by lia.
      rewrite Z.add_mod_idemp_l by lia. f_equal. lia.
Qed.

Lemma space_represents (b : BLE_CIRCULAR_BUF) (q : list (list Z)) :
  represents CSIZE b q -> ble_circ_space b = CSIZE - encoded_size q.
Proof.
  pose proof (encoded_size_nonneg q) as Hnn.
  intros (Hlen & Hsize & Hmask & Hr & Hsz & Hw & Hq).
  apply (ble_circ_space_queued k k_range); assumption || lia.
Qed.

Lemma push_overflow (s : list Z) (b : BLE_CIRCULAR_BUF) (q : list (list Z)) :
  represents CSIZE b q ->
  CSIZE < encoded_size q + (strlen s + 1) ->
  ble_circ_push s b = Fatal.
Proof.
  intros Hrep Hover. unfold ble_circ_push.
  rewrite (space_represents b q Hrep).
  destruct (Z.ltb_spec (CSIZE - encoded_size q) (strlen s + 1)); [reflexivity | lia].
Qed.

Lemma pop_loop_head (s : list Z) (b : BLE_CIRCULAR_BUF) (q : list (list Z)) :
  represents CSIZE b (s :: q) ->
  read_ptr b <> write_ptr b /\
  arr_read (cbuf b) (read_ptr b) = Done (strlen s + 1) /\
  pop_loop (Z.to_nat (strlen s + 1 - 1)) 0 (read_ptr b) (size_mask b) (cbuf b)
  = Done (take (Z.to_nat (strlen s)) s) /\
  represents CSIZE (update_circ_readindex (strlen s + 1) b) q.
Proof.
  pose proof (CSIZE_range k k_range) as HC.
  pose proof (strlen_le_length s) as HL.
  pose proof (encoded_size_nonneg q) as Hnn.
  intros (Hlen & Hsize & Hmask & Hr & Hsz & Hw & Hhead & Hbody & Hrest).
  rewrite encoded_size_cons in Hsz, Hw.
  rewrite Z.mod_small in Hhead by lia.
  split; [|split; [|split]].
  - intros Heq. rewrite Hw in Heq.
    rewrite <- (Z.mod_small (read_ptr b) CSIZE) in Heq at 1 by lia.
    apply (mod_window k k_range) in Heq; lia.
  - rewrite arr_read_Done by lia. now rewrite Hhead.
  - rewrite Hmask.
    replace (strlen s + 1 - 1) with (strlen s) by lia.
    rewrite (pop_loop_spec k k_range s (cbuf b) (read_ptr b)
               (Z.to_nat (strlen s)) 0); try lia.
    + reflexivity.
    + intros i' Hi'. apply Hbody. lia.
  - unfold represents, update_circ_readindex.
    cbn [cbuf size size_mask read_ptr write_ptr].
    rewrite Hmask, (land_mask k k_range).
    split; [exact Hlen|]. split; [exact Hsize|]. split; [reflexivity|].
    split; [apply Z.mod_pos_bound; lia|]. split; [lia|]. split.
    + rewrite Hw, Z.add_mod_idemp_l by lia. f_equal. lia.
    + apply (queued_mod_eq (cbuf b) q (read_ptr b + (strlen s + 1)));
        [|exact Hrest].
      symmetry. apply Z.mod_mod. lia.
Qed.

Lemma pop_represents (s : list Z) (b : BLE_CIRCULAR_BUF) (q : list (list Z)) :
  represents CSIZE b (s :: q) ->
  exists b',
    ble_circ_pop CIRC_OPER false b = Done (false, payload s, b') /\
    represents CSIZE b' q /\ write_ptr b' = write_ptr b.
Proof.
  intros Hrep. destruct (pop_loop_head s b q Hrep) as (Hne & Hlenb & Hloop & Hrep').
  exists (update_circ_readindex (strlen s + 1) b).
  split; [|split; [exact Hrep' | reflexivity]].
  unfold ble_circ_pop, CIRC_OPER.
  destruct (Z.eqb_spec (read_ptr b) (write_ptr b)); [contradiction|].
  rewrite Hlenb, bind_Done, Hloop, bind_Done. unfold payload.
  now replace (strlen s + 1 - 1) with (strlen s) by lia.
Qed.

Lemma pop_nothing (b : BLE_CIRCULAR_BUF) (q : list (list Z))
    (test tx_busy : bool) :
  represents CSIZE b q -> tx_busy = true \/ q = [] ->
  ble_circ_pop test tx_busy b = Done (true, Nothing, b).
Proof.
  pose proof (CSIZE_range k k_range) as HC.
  intros (Hlen & Hsize & Hmask & Hr & Hsz & Hw & Hq) [->| ->];
    unfold ble_circ_pop; [reflexivity|].
  cbn [encoded_size foldr] in Hw. rewrite Z.add_0_r, Z.mod_small in Hw by lia.
  rewrite Hw, Z.eqb_refl. now destruct tx_busy.
Qed.

Lemma fifo_refines (ops : list op) :
  forall (b : BLE_CIRCULAR_BUF) (q q' : list (list Z)) (ds : list delivery),
    represents CSIZE b q -> fifo CSIZE ops q = Some (ds, q') ->
    exists b', run_ops ops b = Done (ds, b') /\ represents CSIZE b' q'.
Proof.
  induction ops as [|[s|] ops IH]; intros b q q' ds Hrep Hfifo.
  - injection Hfifo as <- <-. exists b. split; [reflexivity | exact Hrep].
  - cbn [fifo] in Hfifo.
    destruct (Z.ltb_spec (encoded_size q + (strlen s + 1)) CSIZE) as [Hfit|];
      [|discriminate].
    destruct (push_represents s b q Hrep Hfit) as (b1 & Hpush & Hrep1 & _).
    destruct (IH b1 _ _ _ Hrep1 Hfifo) as (b' & Hrun & Hrep').
    exists b'. cbn [run_ops]. rewrite Hpush, bind_Done. split; assumption.
  - cbn [fifo] in Hfifo. destruct q as [|s q0].
    + destruct (fifo CSIZE ops []) as [[ds0 q0]|] eqn:Hrest; [|discriminate].
      cbn in Hfifo. injection Hfifo as <- <-.
      destruct (IH b _ _ _ Hrep Hrest) as (b' & Hrun & Hrep').
      exists b'. cbn [run_ops].
      rewrite (pop_nothing b [] CIRC_OPER false Hrep) by (now right).
      rewrite bind_Done. cbv beta iota. rewrite Hrun, bind_Done.
      split; [reflexivity | exact Hrep'].
    + destruct (fifo CSIZE ops q0) as [[ds0 q1]|] eqn:Hrest; [|discriminate].
      cbn in Hfifo. injection Hfifo as <- <-.
      destruct (pop_represents s b q0 Hrep) as (b1 & Hpop & Hrep1 & _).
      destruct (IH b1 _ _ _ Hrep1 Hrest) as (b' & Hrun & Hrep').
      exists b'. cbn [run_ops]. rewrite Hpop, bind_Done. cbv beta iota.
      rewrite Hrun, bind_Done. split; [reflexivity | exact Hrep'].
Qed.

Lemma strlen_take_zero (s rest : list Z) :
  strlen (take (Z.to_nat (strlen s)) s ++ 0 :: rest) = strlen s.
Proof.
  induction s as [|c s IH]; [reflexivity|].
  cbn [strlen]. destruct (Z.eqb_spec c 0) as [->|Hne]; [reflexivity|].
  pose proof (strlen_le_length s) as HL.
  replace (Z.to_nat (1 + strlen s)) with (S (Z.to_nat (strlen s))) by lia.
  cbn [take app strlen].
  destruct (Z.eqb_spec c 0); [contradiction|]. now rewrite IH.
Qed.

End BleQueue.

(** ** The buffer filled to its capacity *)

Section BleFullBuffer.
Import Ble.

Variable k : Z.
Hypothesis k_range : 0 <= k <= 7.

Local Abbreviation CSIZE := (2 ^ k).

(** A push behind the strings [q], which may fill the array to its last
    byte: the strings queued before stay where they are and the new one
    lies behind them. *)
Lemma push_queued (s : list Z) (b : BLE_CIRCULAR_BUF) (q : list (list Z)) :
  Z.of_nat (length (cbuf b)) = CSIZE -> size b = CSIZE ->
  size_mask b = CSIZE - 1 -> 0 <= read_ptr b < CSIZE ->
  write_ptr b = (read_ptr b + encoded_size q) mod CSIZE ->
  queued CSIZE (cbuf b) (read_ptr b) q ->
  encoded_size q + (strlen s + 1) <= CSIZE ->
  exists c',
    ble_circ_push s b
    = Done (mk_cbuf c' CSIZE (CSIZE - 1) (read_ptr b)
              ((read_ptr b + encoded_size (q ++ [s])) mod CSIZE)) /\
    Z.of_nat (length c') = CSIZE /\
    queued CSIZE c' (read_ptr b) (q ++ [s]).
Proof.
  pose proof (CSIZE_range k k_range) as HC.
  pose proof (strlen_le_length s) as HL.
  pose proof (encoded_size_nonneg q) as Hnn.
  intros Hlen Hsize Hmask Hr Hw Hq Hfit.
  destruct (ble_circ_push_spec k k_range s b (encoded_size q))
    as (c' & Hpush & Hlen' & Hhead & Hbody & Hframe); try assumption; try lia.
  exists c'. rewrite encoded_size_app. cbn [encoded_size foldr].
  split; [rewrite Hpush; do 3 f_equal; lia|]. split; [exact Hlen'|].
  apply (queued_app k k_range). split.
  - apply (queued_frame k k_range (cbuf b)); [|exact Hq].
    intros o Ho. apply Hframe; [apply Z.mod_pos_bound; lia|].
    intros o' Ho' Heq. rewrite Hw, Z.add_mod_idemp_l in Heq by lia.
    apply (mod_window k k_range) in Heq; lia.
  - cbn [queued]. split; [|split; [|exact I]].
    + rewrite <- Hw. exact Hhead.
    + intros i Hi. rewrite <- (Hbody i Hi), Hw. f_equal.
      replace ((read_ptr b + encoded_size q) mod CSIZE + i + 1)
        with ((read_ptr b + encoded_size q) mod CSIZE + (i + 1)) by lia.
      rewrite Z.add_mod_idemp_l by lia. f_equal. lia.
Qed.

(** Pushes that fill the array to at most its capacity all return; the
    write cursor is the total encoded size after the read cursor, modulo
    CSIZE, and every string lies in the array, in the order pushed. *)
Lemma push_all_queued (strings : list (list Z)) :
  forall (b : BLE_CIRCULAR_BUF) (q : list (list Z)),
    Z.of_nat (length (cbuf b)) = CSIZE -> size b = CSIZE ->
    size_mask b = CSIZE - 1 -> 0 <= read_ptr b < CSIZE ->
    write_ptr b = (read_ptr b + encoded_size q) mod CSIZE ->
    queued CSIZE (cbuf b) (read_ptr b) q ->
    encoded_size q + encoded_size strings <= CSIZE ->
    exists c',
      push_all strings b
      = Done (mk_cbuf c' CSIZE (CSIZE - 1) (read_ptr b)
                ((read_ptr b + encoded_size (q ++ strings)) mod CSIZE)) /\
      Z.of_nat (length c') = CSIZE /\
      queued CSIZE c' (read_ptr b) (q ++ strings).
Proof.
  induction strings as [|s rest IH]; intros b q Hlen Hsize Hmask Hr Hw Hq Hfit.
  - exists (cbuf b). rewrite app_nil_r. rewrite <- Hw, <- Hmask.
    rewrite <- Hsize at 1.
    split; [now destruct b|]. split; [exact Hlen | exact Hq].
  - rewrite encoded_size_cons in Hfit.
    pose proof (encoded_size_nonneg rest) as Hrest.
    destruct (push_queued s b q) as (c1 & Hpush & Hlen1 & Hq1);
      try assumption; try lia.
    cbn [push_all]. rewrite Hpush, bind_Done.
    destruct (IH (mk_cbuf c1 CSIZE (CSIZE - 1) (read_ptr b)
                    ((read_ptr b + encoded_size (q ++ [s])) mod CSIZE))
                (q ++ [s]))
      as (c' & Hall & Hlen' & Hq');
      cbn [cbuf size size_mask read_ptr write_ptr];
      try assumption; try reflexivity.
    { rewrite encoded_size_app. cbn [encoded_size foldr]. lia. }
    cbn [cbuf size size_mask read_ptr write_ptr] in Hall, Hq'.
    rewrite <- app_assoc in Hall, Hq'. cbn [app] in Hall, Hq'.
    exists c'. split; [exact Hall|]. split; [exact Hlen' | exact Hq'].
Qed.

End BleFullBuffer.

Section BleFullBufferClaims.
Import Ble.

(** C10.  When strings whose encoded sizes add up to exactly CSIZE are
    pushed into an empty buffer, every push returns: after each of them the
    write cursor is the encoded size of the strings pushed so far beyond the
    read cursor, modulo CSIZE, away from the read cursor until the last push
    brings it back there, and the strings pushed lie in the array in order.
    After the last push the cursors are those of an empty buffer while all
    the strings lie in the array.  In that state [ble_circ_space] answers
    CSIZE and [ble_circ_pop], in either mode, returns true and delivers
    nothing, leaving the buffer as it is; and the next push is accepted and
    writes its length byte over that of the oldest queued string. *)
Theorem full_buffer_reads_empty
    (k p : Z) (b : BLE_CIRCULAR_BUF) (strings : list (list Z)) :
  0 <= k <= 7 -> 0 <= p < 2 ^ k -> empty_at (2 ^ k) p b ->
  encoded_size strings = 2 ^ k ->
  exists b',
    push_all strings b = Done b' /\
    write_ptr b' = read_ptr b' /\
    empty_at (2 ^ k) p b' /\
    ble_circ_space b' = 2 ^ k /\
    (forall test tx_busy : bool,
        ble_circ_pop test tx_busy b' = Done (true, Nothing, b')) /\
    (forall s : list Z,
        strlen s + 1 <= 2 ^ k ->
        exists b'',
          ble_circ_push s b' = Done b'' /\ cell (cbuf b'') p = strlen s + 1) /\
    queued (2 ^ k) (cbuf b') p strings /\
    (forall pre post : list (list Z),
        strings = pre ++ post ->
        exists b1,
          push_all pre b = Done b1 /\
          read_ptr b1 = p /\
          write_ptr b1 = (p + encoded_size pre) mod 2 ^ k /\
          queued (2 ^ k) (cbuf b1) p pre /\
          (pre <> [] -> post <> [] -> write_ptr b1 <> read_ptr b1)).
Proof.
  intros Hk Hp (Hlen & Hsize & Hmask & Hr & Hw) Htotal.
  pose proof (CSIZE_range k Hk) as HC.
  assert (Hw0 : write_ptr b = (read_ptr b + encoded_size []) mod 2 ^ k).
  { cbn [encoded_size foldr]. rewrite Hr, Hw, Z.add_0_r. symmetry.
    apply Z.mod_small. lia. }
  destruct (push_all_queued k Hk strings b []) as (c' & Hall & Hlen' & Hq');
    try assumption; try lia; [exact I | cbn [encoded_size foldr]; lia |].
  cbn [app] in Hall, Hq'. rewrite Htotal, Hr in Hall. rewrite Hr in Hq'.
  replace ((p + 2 ^ k) mod 2 ^ k) with p in Hall.
  2: { replace (p + 2 ^ k) with (p + 1 * 2 ^ k) by lia.
       rewrite Z.mod_add by lia. symmetry. apply Z.mod_small. lia. }
  exists (mk_cbuf c' (2 ^ k) (2 ^ k - 1) p p).
  split; [exact Hall|]. split; [reflexivity|].
  split; [repeat split; assumption|].
  split; [|split; [|split; [|split]]].
  - unfold ble_circ_space, wrap_u8. cbn [read_ptr write_ptr size].
    rewrite Z.leb_refl, Z.sub_diag. cbn [Z.abs].
    rewrite Z.sub_0_r. apply Z.mod_small. lia.
  - intros test tx_busy. unfold ble_circ_pop. cbn [read_ptr write_ptr].
    rewrite Z.eqb_refl. now destruct tx_busy.
  - intros s Hs. pose proof (strlen_le_length s) as HL.
    destruct (ble_circ_push_fits k Hk s (mk_cbuf c' (2 ^ k) (2 ^ k - 1) p p) 0)
      as (c'' & Hpush & _ & Hhead & _);
      cbn [cbuf size size_mask read_ptr write_ptr]; try assumption;
      try reflexivity; try lia.
    { rewrite Z.add_0_r. symmetry. apply Z.mod_small. lia. }
    eexists. split; [exact Hpush|]. exact Hhead.
  - exact Hq'.
  - intros pre post Hsplit.
    pose proof (encoded_size_nonneg pre) as Hpre.
    pose proof (encoded_size_nonneg post) as Hpost.
    assert (Hsum : encoded_size pre + encoded_size post = 2 ^ k)
      by (rewrite <- encoded_size_app, <- Hsplit; exact Htotal).
    destruct (push_all_queued k Hk pre b []) as (c1 & Hpush & Hlen1 & Hq1);
      try assumption; try lia; [exact I | cbn [encoded_size foldr]; lia |].
    cbn [app] in Hpush, Hq1. rewrite Hr in Hpush, Hq1.
    eexists. split; [exact Hpush|].
    cbn [cbuf size size_mask read_ptr write_ptr].
    split; [reflexivity|]. split; [reflexivity|]. split; [exact Hq1|].
    intros Hne_pre Hne_post Heq.
    assert (0 < encoded_size pre).
    { destruct pre as [|x pre]; [contradiction|].
      rewrite encoded_size_cons.
      pose proof (encoded_size_nonneg pre). pose proof (strlen_le_length x).
      lia. }
    assert (0 < encoded_size post).
    { destruct post as [|x post]; [contradiction|].
      rewrite encoded_size_cons.
      pose proof (encoded_size_nonneg post). pose proof (strlen_le_length x).
      lia. }
    rewrite <- (Z.mod_small p (2 ^ k)) in Heq at 2 by lia.
    apply (mod_window k Hk) in Heq; lia.
Qed.

Lemma full_buffer_reads_empty_witness :
  let b := mk_cbuf (replicate 64 0) 64 63 60 60 in
  let strings := [replicate 49 65; replicate 13 66] in
  0 <= 6 <= 7 /\ 0 <= 60 < 2 ^ 6 /\ empty_at (2 ^ 6) 60 b /\
  encoded_size strings = 2 ^ 6 /\
  exists b',
    push_all strings b = Done b' /\
    write_ptr b' = read_ptr b' /\
    empty_at (2 ^ 6) 60 b' /\
    ble_circ_space b' = 2 ^ 6 /\
    (forall test tx_busy : bool,
        ble_circ_pop test tx_busy b' = Done (true, Nothing, b')) /\
    (forall s : list Z,
        strlen s + 1 <= 2 ^ 6 ->
        exists b'',
          ble_circ_push s b' = Done b'' /\ cell (cbuf b'') 60 = strlen s + 1) /\
    queued (2 ^ 6) (cbuf b') 60 strings /\
    (forall pre post : list (list Z),
        strings = pre ++ post ->
        exists b1,
          push_all pre b = Done b1 /\
          read_ptr b1 = 60 /\
          write_ptr b1 = (60 + encoded_size pre) mod 2 ^ 6 /\
          queued (2 ^ 6) (cbuf b1) 60 pre /\
          (pre <> [] -> post <> [] -> write_ptr b1 <> read_ptr b1)).
Proof.
  cbv zeta.
  assert (He : empty_at (2 ^ 6) 60 (mk_cbuf (replicate 64 0) 64 63 60 60))
    by (repeat split; reflexivity).
  split; [lia|]. split; [lia|]. split; [exact He|]. split; [reflexivity|].
  apply (full_buffer_reads_empty 6 60 (mk_cbuf (replicate 64 0) 64 63 60 60)
           [replicate 49 65; replicate 13 66]);
    [lia | lia | exact He | reflexivity].
Defined.

End BleFullBufferClaims.

Section BleQueueClaims.
Import Ble.

Lemma represents_fresh (k : Z) :
  0 <= k <= 7 -> represents (2 ^ k) (fresh (2 ^ k)) [].
Proof.
  intros Hk. pose proof (CSIZE_range k Hk) as HC.
  unfold represents, fresh, ble_circ_init.
  cbn [cbuf size size_mask read_ptr write_ptr encoded_size foldr queued].
  rewrite length_replicate.
  repeat split; try lia; rewrite ?Z.mod_small; lia.
Qed.

(** A buffer of 64 bytes holding the string "Hi" across the end of the
    array: its length byte at index 62, its bytes at 63 and 0. *)
Lemma represents_across_the_end :
  represents (2 ^ 6) (mk_cbuf (105 :: replicate 61 0 ++ [3; 72]) 64 63 62 1)
    [[72; 105]].
Proof.
  unfold represents. cbn [cbuf size size_mask read_ptr write_ptr].
  split; [reflexivity|]. split; [reflexivity|]. split; [reflexivity|].
  split; [lia|]. split; [reflexivity|]. split; [reflexivity|].
  cbn [queued]. split; [reflexivity|]. split; [|exact I].
  intros i Hi. change (strlen [72; 105]) with 2 in Hi.
  assert (Hcases : i = 0 \/ i = 1) by lia.
  destruct Hcases as [-> | ->]; reflexivity.
Qed.

(** X16.  A push that leaves room.  On a buffer holding the queue [q], a push
    after which the queued bytes are still fewer than CSIZE returns; the
    buffer then holds [q] with the string at its end, the strings queued
    before are intact, and the free space has gone down by the string's
    length plus one. *)
Theorem ble_push_appends
    (k : Z) (b : BLE_CIRCULAR_BUF) (q : list (list Z)) (s : list Z) :
  0 <= k <= 7 -> represents (2 ^ k) b q ->
  encoded_size q + (strlen s + 1) < 2 ^ k ->
  exists b',
    ble_circ_push s b = Done b' /\
    represents (2 ^ k) b' (q ++ [s]) /\
    ble_circ_space b' = ble_circ_space b - (strlen s + 1).
Proof.
  intros Hk Hrep Hfit.
  destruct (push_represents k Hk s b q Hrep Hfit) as (b' & Hpush & Hrep' & _).
  exists b'. split; [exact Hpush|]. split; [exact Hrep'|].
  rewrite (space_represents k Hk b q Hrep), (space_represents k Hk b' _ Hrep').
  rewrite encoded_size_app. cbn [encoded_size foldr]. lia.
Qed.

Lemma ble_push_appends_witness :
  0 <= 6 <= 7 /\
  represents (2 ^ 6) (mk_cbuf (105 :: replicate 61 0 ++ [3; 72]) 64 63 62 1)
    [[72; 105]] /\
  encoded_size [[72; 105]] + (strlen [79; 75; 33] + 1) < 2 ^ 6 /\
  exists b',
    ble_circ_push [79; 75; 33]
      (mk_cbuf (105 :: replicate 61 0 ++ [3; 72]) 64 63 62 1) = Done b' /\
    represents (2 ^ 6) b' ([[72; 105]] ++ [[79; 75; 33]]) /\
    ble_circ_space b'
    = ble_circ_space (mk_cbuf (105 :: replicate 61 0 ++ [3; 72]) 64 63 62 1)
      - (strlen [79; 75; 33] + 1).
Proof.
  split; [lia|]. split; [exact represents_across_the_end|].
  split; [reflexivity|].
  apply (ble_push_appends 6 _ [[72; 105]] [79; 75; 33]);
    [lia | exact represents_across_the_end | reflexivity].
Defined.

(** X17.  A push past the capacity.  On a buffer holding the queue [q], a push
    that would take the queued bytes beyond CSIZE fails its assertion. *)
Theorem ble_push_overflow_halts
    (k : Z) (b : BLE_CIRCULAR_BUF) (q : list (list Z)) (s : list Z) :
  0 <= k <= 7 -> represents (2 ^ k) b q ->
  2 ^ k < encoded_size q + (strlen s + 1) ->
  ble_circ_push s b = Fatal.
Proof. intros Hk. apply (push_overflow k Hk). Qed.

Lemma ble_push_overflow_halts_witness :
  0 <= 6 <= 7 /\
  represents (2 ^ 6) (mk_cbuf (105 :: replicate 61 0 ++ [3; 72]) 64 63 62 1)
    [[72; 105]] /\
  2 ^ 6 < encoded_size [[72; 105]] + (strlen (replicate 61 65) + 1) /\
  ble_circ_push (replicate 61 65)
    (mk_cbuf (105 :: replicate 61 0 ++ [3; 72]) 64 63 62 1) = Fatal.
Proof.
  split; [lia|]. split; [exact represents_across_the_end|].
  split; [reflexivity|].
  apply (ble_push_overflow_halts 6 _ [[72; 105]] (replicate 61 65));
    [lia | exact represents_across_the_end | reflexivity].
Defined.

(** X18.  What a pop does.  On a buffer holding the queue [q], [ble_circ_pop]
    with CIRC_OPER returns true, delivers nothing and leaves the buffer as
    it is when the transmitter is busy or the queue is empty; otherwise it
    returns false, hands the oldest string to [leuart_start] with its
    length, and the buffer holds the rest of the queue, with the free space
    up by that string's length plus one. *)
Theorem ble_pop_takes_oldest
    (k : Z) (b : BLE_CIRCULAR_BUF) (q : list (list Z)) (tx_busy : bool) :
  0 <= k <= 7 -> represents (2 ^ k) b q ->
  ble_circ_pop CIRC_OPER tx_busy b
  = Done (if tx_busy then (true, Nothing, b)
          else match q with
               | [] => (true, Nothing, b)
               | s :: _ =>
                   (false, payload s, update_circ_readindex (strlen s + 1) b)
               end) /\
  (forall s q', q = s :: q' ->
     represents (2 ^ k) (update_circ_readindex (strlen s + 1) b) q' /\
     ble_circ_space (update_circ_readindex (strlen s + 1) b)
     = ble_circ_space b + (strlen s + 1)).
Proof.
  intros Hk Hrep. split.
  - destruct tx_busy.
    + apply (pop_nothing k Hk b q); [exact Hrep | now left].
    + destruct q as [|s q'].
      * apply (pop_nothing k Hk b []); [exact Hrep | now right].
      * destruct (pop_loop_head k Hk s b q' Hrep) as (Hne & Hlenb & Hloop & _).
        unfold ble_circ_pop, CIRC_OPER.
        destruct (Z.eqb_spec (read_ptr b) (write_ptr b)); [contradiction|].
        rewrite Hlenb, bind_Done, Hloop, bind_Done. unfold payload.
        now replace (strlen s + 1 - 1) with (strlen s) by lia.
  - intros s q' ->.
    destruct (pop_loop_head k Hk s b q' Hrep) as (_ & _ & _ & Hrep').
    split; [exact Hrep'|].
    rewrite (space_represents k Hk _ _ Hrep), (space_represents k Hk _ _ Hrep').
    rewrite encoded_size_cons. lia.
Qed.

Lemma ble_pop_takes_oldest_witness :
  let b := mk_cbuf (105 :: replicate 61 0 ++ [3; 72]) 64 63 62 1 in
  0 <= 6 <= 7 /\ represents (2 ^ 6) b [[72; 105]] /\
  ble_circ_pop CIRC_OPER false b
  = Done (false, To_leuart_start [72; 105] 2,
          mk_cbuf (105 :: replicate 61 0 ++ [3; 72]) 64 63 1 1) /\
  (ble_circ_pop CIRC_OPER false b
   = Done (if false then (true, Nothing, b)
           else match [[72; 105]] with
                | [] => (true, Nothing, b)
                | s :: _ =>
                    (false, payload s, update_circ_readindex (strlen s + 1) b)
                end) /\
   (forall s q', [[72; 105]] = s :: q' ->
      represents (2 ^ 6) (update_circ_readindex (strlen s + 1) b) q' /\
      ble_circ_space (update_circ_readindex (strlen s + 1) b)
      = ble_circ_space b + (strlen s + 1))).
Proof.
  cbv zeta.
  split; [lia|]. split; [exact represents_across_the_end|].
  split; [reflexivity|].
  apply (ble_pop_takes_oldest 6 _ [[72; 105]] false);
    [lia | exact represents_across_the_end].
Defined.

(** X19.  The free space.  On a buffer holding the queue [q], [ble_circ_space]
    is CSIZE less the encoded size of the queue, wherever the cursors are;
    it is never zero. *)
Theorem ble_space_counts_free_bytes
    (k : Z) (b : BLE_CIRCULAR_BUF) (q : list (list Z)) :
  0 <= k <= 7 -> represents (2 ^ k) b q ->
  ble_circ_space b = 2 ^ k - encoded_size q /\
  0 < ble_circ_space b <= 2 ^ k.
Proof.
  intros Hk Hrep. pose proof (encoded_size_nonneg q) as Hnn.
  rewrite (space_represents k Hk b q Hrep).
  destruct Hrep as (_ & _ & _ & _ & Hsz & _). lia.
Qed.

Lemma ble_space_counts_free_bytes_witness :
  let b := mk_cbuf (105 :: replicate 61 0 ++ [3; 72]) 64 63 62 1 in
  0 <= 6 <= 7 /\ represents (2 ^ 6) b [[72; 105]] /\
  ble_circ_space b = 61 /\
  (ble_circ_space b = 2 ^ 6 - encoded_size [[72; 105]] /\
   0 < ble_circ_space b <= 2 ^ 6).
Proof.
  cbv zeta.
  split; [lia|]. split; [exact represents_across_the_end|].
  split; [reflexivity|].
  apply (ble_space_counts_free_bytes 6 _ [[72; 105]]);
    [lia | exact represents_across_the_end].
Defined.

(** X20.  First in, first out.  Any sequence of pushes and pops (CIRC_OPER,
    transmitter idle) during which the queued bytes stay below CSIZE runs on
    the buffer as it does on a queue of strings: no push fails, every pop
    delivers the oldest string not yet delivered, whole and in order, or
    nothing when none is queued, and the buffer holds the strings still
    queued. *)
Theorem ble_behaves_as_fifo
    (k : Z) (ops : list op) (b : BLE_CIRCULAR_BUF) (q q' : list (list Z))
    (ds : list delivery) :
  0 <= k <= 7 -> represents (2 ^ k) b q ->
  fifo (2 ^ k) ops q = Some (ds, q') ->
  exists b', run_ops ops b = Done (ds, b') /\ represents (2 ^ k) b' q'.
Proof. intros Hk. apply (fifo_refines k Hk). Qed.

Lemma ble_behaves_as_fifo_witness :
  let ops := [Push (replicate 40 65); Push [79; 75]; Pop; Push (replicate 30 66);
              Pop; Pop; Pop; Push [33]] in
  let ds := [payload (replicate 40 65); payload [79; 75];
             payload (replicate 30 66); Nothing] in
  0 <= 6 <= 7 /\ represents (2 ^ 6) (fresh (2 ^ 6)) [] /\
  fifo (2 ^ 6) ops [] = Some (ds, [[33]]) /\
  exists b',
    run_ops ops (fresh (2 ^ 6)) = Done (ds, b') /\
    represents (2 ^ 6) b' [[33]].
Proof.
  cbv zeta.
  split; [lia|]. split; [apply represents_fresh; lia|].
  split; [reflexivity|].
  apply (ble_behaves_as_fifo 6 _ (fresh (2 ^ 6)) []);
    [lia | apply represents_fresh; lia | reflexivity].
Defined.

(** X21.  A pop for the self-test.  On a buffer holding a queue that is not
    empty, [ble_circ_pop] with CIRC_TEST and the transmitter idle returns
    false and leaves in [result_str], over CSIZE bytes, the oldest string
    followed by zeros: [strlen(result_str)] is the string's length.  The
    buffer holds the rest of the queue. *)
Theorem ble_pop_test_fills_result_str
    (k : Z) (b : BLE_CIRCULAR_BUF) (s : list Z) (q : list (list Z)) :
  0 <= k <= 7 -> represents (2 ^ k) b (s :: q) ->
  exists r b',
    ble_circ_pop CIRC_TEST false b = Done (false, To_result_str r, b') /\
    Z.of_nat (length r) = 2 ^ k /\
    take (Z.to_nat (strlen s)) r = take (Z.to_nat (strlen s)) s /\
    strlen r = strlen s /\
    represents (2 ^ k) b' q.
Proof.
  intros Hk Hrep. pose proof (CSIZE_range k Hk) as HC.
  pose proof (strlen_le_length s) as HL.
  pose proof (encoded_size_nonneg q) as Hnn.
  destruct (pop_loop_head k Hk s b q Hrep) as (Hne & Hlenb & Hloop & Hrep').
  destruct Hrep as (_ & Hsize & _ & _ & Hsz & _).
  rewrite encoded_size_cons in Hsz.
  assert (Hlt : length (take (Z.to_nat (strlen s)) s) = Z.to_nat (strlen s))
    by (apply length_take_le; lia).
  eexists. eexists. split.
  - unfold ble_circ_pop, CIRC_TEST.
    destruct (Z.eqb_spec (read_ptr b) (write_ptr b)); [contradiction|].
    rewrite Hlenb, bind_Done, Hloop, bind_Done. reflexivity.
  - rewrite Hsize, Hlt. split; [|split; [|split; [|exact Hrep']]].
    + rewrite length_app, Hlt, length_replicate. lia.
    + rewrite take_app_le by lia. rewrite take_take. f_equal. lia.
    + replace (Z.to_nat (2 ^ k) - Z.to_nat (strlen s))%nat
        with (S (Z.to_nat (2 ^ k) - Z.to_nat (strlen s) - 1)) by lia.
      cbn [replicate]. apply strlen_take_zero.
Qed.

Lemma ble_pop_test_fills_result_str_witness :
  let b := mk_cbuf (105 :: replicate 61 0 ++ [3; 72]) 64 63 62 1 in
  0 <= 6 <= 7 /\ represents (2 ^ 6) b ([72; 105] :: []) /\
  ble_circ_pop CIRC_TEST false b
  = Done (false, To_result_str (72 :: 105 :: replicate 62 0),
          mk_cbuf (105 :: replicate 61 0 ++ [3; 72]) 64 63 1 1) /\
  exists r b',
    ble_circ_pop CIRC_TEST false b = Done (false, To_result_str r, b') /\
    Z.of_nat (length r) = 2 ^ 6 /\
    take (Z.to_nat (strlen [72; 105])) r
    = take (Z.to_nat (strlen [72; 105])) [72; 105] /\
    strlen r = strlen [72; 105] /\
    represents (2 ^ 6) b' [].
Proof.
  cbv zeta.
  split; [lia|]. split; [exact represents_across_the_end|].
  split; [reflexivity|].
  apply (ble_pop_test_fills_result_str 6 _ [72; 105] []);
    [lia | exact represents_across_the_end].
Defined.

Lemma ble_push_pop_roundtrip_witness :
  let b := mk_cbuf (replicate 64 0) 64 63 60 60 in
  0 <= 6 <= 7 /\ 0 <= 60 < 2 ^ 6 /\ empty_at (2 ^ 6) 60 b /\
  strlen (replicate 10 65) = Z.of_nat 10 /\ Z.of_nat 10 + 1 < 2 ^ 6 /\
  exists b1 b2,
    ble_circ_push (replicate 10 65) b = Done b1 /\
    ble_circ_pop false false b1
    = Done (false, To_leuart_start (take 10 (replicate 10 65)) (Z.of_nat 10),
            b2) /\
    read_ptr b2 = write_ptr b2 /\
    ble_circ_space b2 = ble_circ_space b.
Proof.
  cbv zeta.
  split; [lia|]. split; [lia|].
  split; [repeat split; reflexivity|].
  split; [reflexivity|]. split; [reflexivity|].
  apply (ble_push_pop_roundtrip 6 ltac:(lia) (replicate 10 65) _ 60 10);
    [lia | repeat split; reflexivity | reflexivity | reflexivity].
Defined.

(** X22.  [ble_write] on a buffer holding the queue [q], with room for the
    string.  With the transmitter busy the string is queued behind [q] and
    nothing is handed on.  With the transmitter idle the string is queued
    and the oldest queued string is handed to [leuart_start]: the string
    just written only when nothing was queued before it. *)
Theorem ble_write_queues_then_sends_oldest
    (k : Z) (b : BLE_CIRCULAR_BUF) (q : list (list Z)) (s : list Z)
    (tx_busy : bool) :
  0 <= k <= 7 -> represents (2 ^ k) b q ->
  encoded_size q + (strlen s + 1) < 2 ^ k ->
  exists b',
    ble_write s tx_busy b
    = Done (if tx_busy then (true, Nothing, b')
            else (false, payload (hd s q), b')) /\
    represents (2 ^ k) b' (if tx_busy then q ++ [s] else tl (q ++ [s])).
Proof.
  intros Hk Hrep Hfit.
  destruct (push_represents k Hk s b q Hrep Hfit) as (b1 & Hpush & Hrep1 & _).
  unfold ble_write. rewrite Hpush, bind_Done. destruct tx_busy.
  - exists b1. split; [|exact Hrep1].
    apply (pop_nothing k Hk b1 (q ++ [s])); [exact Hrep1 | now left].
  - destruct q as [|s0 q0]; cbn [app hd tl] in *.
    + destruct (pop_represents k Hk s b1 [] Hrep1) as (b2 & Hpop & Hrep2 & _).
      exists b2. split; assumption.
    + destruct (pop_represents k Hk s0 b1 _ Hrep1) as (b2 & Hpop & Hrep2 & _).
      exists b2. split; assumption.
Qed.

Lemma ble_write_queues_then_sends_oldest_witness :
  let b := mk_cbuf (105 :: replicate 61 0 ++ [3; 72]) 64 63 62 1 in
  0 <= 6 <= 7 /\ represents (2 ^ 6) b [[72; 105]] /\
  encoded_size [[72; 105]] + (strlen [79; 75] + 1) < 2 ^ 6 /\
  exists b',
    ble_write [79; 75] false b
    = Done (if false then (true, Nothing, b')
            else (false, payload (hd [79; 75] [[72; 105]]), b')) /\
    represents (2 ^ 6) b'
      (if false then [[72; 105]] ++ [[79; 75]]
       else tl ([[72; 105]] ++ [[79; 75]])).
Proof.
  cbv zeta.
  split; [lia|]. split; [exact represents_across_the_end|].
  split; [reflexivity|].
  apply (ble_write_queues_then_sends_oldest 6 _ [[72; 105]] [79; 75] false);
    [lia | exact represents_across_the_end | reflexivity].
Defined.

Lemma pop_test_head
    (k : Z) (s : list Z) (b : BLE_CIRCULAR_BUF) (q : list (list Z)) :
  0 <= k <= 7 -> represents (2 ^ k) b (s :: q) ->
  ble_circ_pop CIRC_TEST false b
  = Done (false,
          To_result_str
            (take (Z.to_nat (strlen s)) s ++
             replicate (Z.to_nat (2 ^ k) - Z.to_nat (strlen s))%nat 0),
          update_circ_readindex (strlen s + 1) b) /\
  represents (2 ^ k) (update_circ_readindex (strlen s + 1) b) q.
Proof.
  intros Hk Hrep. pose proof (strlen_le_length s) as HL.
  destruct (pop_loop_head k Hk s b q Hrep) as (Hne & Hlenb & Hloop & Hrep').
  split; [|exact Hrep'].
  destruct Hrep as (_ & Hsize & _).
  unfold ble_circ_pop, CIRC_TEST.
  destruct (Z.eqb_spec (read_ptr b) (write_ptr b)); [contradiction|].
  rewrite Hlenb, bind_Done, Hloop, bind_Done, Hsize.
  rewrite length_take_le by lia. reflexivity.
Qed.

Lemma EFM_ASSERT_true (c : bool) : c = true -> EFM_ASSERT c = Done tt.
Proof. now intros ->. Qed.

Lemma space_assert
    (k : Z) (b : BLE_CIRCULAR_BUF) (q : list (list Z)) (n : Z) :
  0 <= k <= 7 -> represents (2 ^ k) b q -> 2 ^ k - encoded_size q = n ->
  EFM_ASSERT (ble_circ_space b =? n) = Done tt.
Proof.
  intros Hk Hrep <-. rewrite (space_represents k Hk b q Hrep).
  now rewrite Z.eqb_refl.
Qed.

Lemma represents_reset (k : Z) (b : BLE_CIRCULAR_BUF) :
  0 <= k <= 7 -> Z.of_nat (length (cbuf b)) = 2 ^ k -> size b = 2 ^ k ->
  size_mask b = 2 ^ k - 1 ->
  represents (2 ^ k) (mk_cbuf (cbuf b) (size b) (size_mask b) 0 0) [].
Proof.
  intros Hk Hlen Hsize Hmask. pose proof (CSIZE_range k Hk) as HC.
  unfold represents.
  cbn [cbuf size size_mask read_ptr write_ptr encoded_size foldr queued].
  repeat split; try lia; rewrite ?Z.mod_small; lia.
Qed.

(** One step of the self-test: an assertion that holds, or a comparison
    loop that finds the strings equal. *)
Local Ltac self_test_cond Hk Hk' A4 :=
  first
    [ exact A4
    | match goal with
      | R : represents _ ?b ?q |- (ble_circ_space ?b =? _) = true =>
          rewrite (space_represents _ Hk' b q R);
          destruct Hk as [-> | ->]; reflexivity
      end
    | destruct Hk as [-> | ->]; vm_compute; reflexivity ].
Local Ltac self_test_step Hk Hk' A4 :=
  match goal with
  | |- (EFM_ASSERT ?c ≫= _) = _ =>
      rewrite (EFM_ASSERT_true c) by self_test_cond Hk Hk' A4;
      rewrite bind_Done
  | |- (compare_loop ?n ?i ?t ?r ≫= _) = _ =>
      replace (compare_loop n i t r) with (Done tt)
        by (symmetry; destruct Hk as [-> | ->]; vm_compute; reflexivity);
      rewrite bind_Done
  end.

Lemma self_test_run (k : Z) (result_str : list Z) (b : BLE_CIRCULAR_BUF) :
  k = 6 \/ k = 7 ->
  Z.of_nat (length (cbuf b)) = 2 ^ k -> size b = 2 ^ k ->
  size_mask b = 2 ^ k - 1 ->
  exists b',
    circular_buff_test (2 ^ k) false result_str b
    = Done (false, payload passed_message, b') /\
    represents (2 ^ k) b' [].
Proof.
  intros Hk Hlen Hsize Hmask.
  assert (Hk' : 0 <= k <= 7) by lia.
  pose proof (represents_reset k b Hk' Hlen Hsize Hmask) as R0.
  set (b0 := mk_cbuf (cbuf b) (size b) (size_mask b) 0 0) in R0.
  set (t0 := test_string test1_len 1).
  set (t1 := test_string test2_len 20).
  set (t2 := test_string test3_len 35).
  assert (F0 : encoded_size [] + (strlen t0 + 1) < 2 ^ k)
    by (destruct Hk as [-> | ->]; reflexivity).
  destruct (push_represents k Hk' t0 b0 [] R0 F0) as (b1 & P1 & R1 & _).
  destruct (pop_test_head k t0 b1 [] Hk' R1) as (Q1 & R2).
  set (b2 := update_circ_readindex (strlen t0 + 1) b1) in Q1, R2.
  assert (F2 : encoded_size [] + (strlen t1 + 1) < 2 ^ k)
    by (destruct Hk as [-> | ->]; reflexivity).
  destruct (push_represents k Hk' t1 b2 [] R2 F2) as (b3 & P3 & R3 & _).
  assert (F3 : encoded_size [t1] + (strlen t2 + 1) < 2 ^ k)
    by (destruct Hk as [-> | ->]; reflexivity).
  destruct (push_represents k Hk' t2 b3 [t1] R3 F3) as (b4 & P4 & R4 & _).
  assert (A4 : (Z.abs (write_ptr b4 - read_ptr b4) <? 2 ^ k) = true).
  { destruct R4 as (_ & _ & _ & Hr & _ & Hw & _).
    pose proof (CSIZE_range k Hk') as HC.
    apply Z.ltb_lt. rewrite Hw.
    match goal with
    | |- context [?x mod ?y] => pose proof (Z.mod_pos_bound x y ltac:(lia))
    end.
    lia. }
  destruct (pop_test_head k t1 b4 [t2] Hk' R4) as (Q4 & R5).
  set (b5 := update_circ_readindex (strlen t1 + 1) b4) in Q4, R5.
  destruct (pop_test_head k t2 b5 [] Hk' R5) as (Q5 & R6).
  set (b6 := update_circ_readindex (strlen t2 + 1) b5) in Q5, R6.
  pose proof (pop_nothing k Hk' b6 [] CIRC_TEST false R6 (or_intror eq_refl))
    as Q6.
  assert (F6 : encoded_size [] + (strlen passed_message + 1) < 2 ^ k)
    by (destruct Hk as [-> | ->]; reflexivity).
  destruct (push_represents k Hk' passed_message b6 [] R6 F6)
    as (b7 & P7 & R7 & _).
  destruct (pop_represents k Hk' passed_message b7 [] R7)
    as (b8 & Q8 & R8 & _).
  exists b8. split; [|exact R8].
  unfold circular_buff_test, pop_for_test, ble_write. cbv zeta.
  fold b0 t0 t1 t2.
  self_test_step Hk Hk' A4. rewrite P1, bind_Done.
  self_test_step Hk Hk' A4.
  rewrite Q1, !bind_Done. cbv beta iota.
  do 4 self_test_step Hk Hk' A4.
  rewrite P3, bind_Done. self_test_step Hk Hk' A4.
  rewrite P4, bind_Done. do 2 self_test_step Hk Hk' A4.
  rewrite Q4, !bind_Done. cbv beta iota.
  do 4 self_test_step Hk Hk' A4.
  rewrite Q5, !bind_Done. cbv beta iota.
  do 4 self_test_step Hk Hk' A4.
  rewrite Q6, !bind_Done. cbv beta iota.
  self_test_step Hk Hk' A4.
  rewrite P7, bind_Done. exact Q8.
Qed.

Lemma self_test_halts
    (k : Z) (tx_busy : bool) (result_str : list Z) (b : BLE_CIRCULAR_BUF) :
  0 <= k <= 7 ->
  Z.of_nat (length (cbuf b)) = 2 ^ k -> size b = 2 ^ k ->
  size_mask b = 2 ^ k - 1 ->
  k < 6 \/ tx_busy = true ->
  circular_buff_test (2 ^ k) tx_busy result_str b = Fatal.
Proof.
  intros Hk Hlen Hsize Hmask Hcase.
  pose proof (represents_reset k b Hk Hlen Hsize Hmask) as R0.
  unfold circular_buff_test, pop_for_test. cbv zeta.
  set (b0 := mk_cbuf (cbuf b) (size b) (size_mask b) 0 0) in *.
  set (t0 := test_string test1_len 1).
  rewrite (space_assert k b0 [] (2 ^ k) Hk R0)
    by (cbn [encoded_size foldr]; lia).
  rewrite bind_Done.
  destruct (Z.lt_ge_cases k 6) as [Hsmall | Hbig].
  - assert (Hpow : 2 ^ k <= 2 ^ 5) by (apply Z.pow_le_mono_r; lia).
    rewrite (push_overflow k Hk t0 b0 [] R0); [reflexivity|].
    change (encoded_size [] + (strlen t0 + 1)) with 51.
    change (2 ^ 5) with 32 in Hpow. lia.
  - destruct Hcase as [Hsmall | ->]; [lia|].
    assert (Hpow : 2 ^ 6 <= 2 ^ k) by (apply Z.pow_le_mono_r; lia).
    assert (F0 : encoded_size [] + (strlen t0 + 1) < 2 ^ k).
    { change (encoded_size [] + (strlen t0 + 1)) with 51.
      change (2 ^ 6) with 64 in Hpow. lia. }
    destruct (push_represents k Hk t0 b0 [] R0 F0) as (b1 & P1 & R1 & _).
    rewrite P1, bind_Done.
    rewrite (space_assert k b1 [t0] (2 ^ k - test1_len - 1) Hk R1)
      by (change (encoded_size [t0]) with 51; unfold test1_len; lia).
    rewrite bind_Done.
    rewrite (pop_nothing k Hk b1 [t0] CIRC_TEST true R1 (or_introl eq_refl)).
    reflexivity.
Qed.

(** X23.  The self-test of the circular buffer, run on a buffer of CSIZE bytes
    of any content.  With CSIZE 64 or 128 and the transmitter idle all its
    assertions hold, it ends by handing "\nPassed Circular Buffer Test\n" to
    [leuart_start] and leaves the buffer empty.  With a CSIZE below 64, or
    with the transmitter busy, it halts on an assertion. *)
Theorem circular_buff_test_outcome
    (k : Z) (tx_busy : bool) (result_str : list Z) (b : BLE_CIRCULAR_BUF) :
  0 <= k <= 7 ->
  Z.of_nat (length (cbuf b)) = 2 ^ k -> size b = 2 ^ k ->
  size_mask b = 2 ^ k - 1 ->
  (6 <= k -> tx_busy = false ->
   exists b',
     circular_buff_test (2 ^ k) tx_busy result_str b
     = Done (false, To_leuart_start passed_message 29, b') /\
     represents (2 ^ k) b' []) /\
  (k < 6 \/ tx_busy = true ->
   circular_buff_test (2 ^ k) tx_busy result_str b = Fatal).
Proof.
  intros Hk Hlen Hsize Hmask. split.
  - intros Hbig ->.
    apply (self_test_run k result_str b); [lia | assumption..].
  - apply self_test_halts; assumption.
Qed.

Lemma circular_buff_test_outcome_witness :
  0 <= 6 <= 7 /\
  Z.of_nat (length (cbuf (fresh (2 ^ 6)))) = 2 ^ 6 /\
  size (fresh (2 ^ 6)) = 2 ^ 6 /\ size_mask (fresh (2 ^ 6)) = 2 ^ 6 - 1 /\
  6 <= 6 /\ false = false /\
  exists b',
    circular_buff_test (2 ^ 6) false [] (fresh (2 ^ 6))
    = Done (false, To_leuart_start passed_message 29, b') /\
    represents (2 ^ 6) b' [].
Proof.
  split; [lia|]. split; [reflexivity|]. split; [reflexivity|].
  split; [reflexivity|]. split; [lia|]. split; [reflexivity|].
  apply (circular_buff_test_outcome 6 false [] (fresh (2 ^ 6)));
    [lia | reflexivity | reflexivity | reflexivity | lia | reflexivity].
Defined.

End BleQueueClaims.

Section AppFacts.
Import Ble App.

(** X24.  The handler of the TX-done event, on a buffer holding the queue [q].
    When the event is not pending the handler halts.  When it is, the
    event's bits are cleared and the other events kept; with the
    transmitter idle the oldest queued string is handed to [leuart_start]
    and leaves the queue, and nothing is handed on when the queue is
    empty. *)
Theorem tx_done_sends_next_string
    (k BLE_TX_DONE_CB : Z) (s : system) (q : list (list Z)) :
  0 <= k <= 7 -> represents (2 ^ k) (ble_cbuf s) q ->
  (Z.land BLE_TX_DONE_CB (event_scheduled s) = 0 ->
   forall tx_busy, scheduled_ble_tx_done_cb BLE_TX_DONE_CB tx_busy s = Fatal) /\
  (Z.land BLE_TX_DONE_CB (event_scheduled s) <> 0 ->
   exists s',
     scheduled_ble_tx_done_cb BLE_TX_DONE_CB false s
     = Done (match q with [] => Nothing | m :: _ => payload m end, s') /\
     represents (2 ^ k) (ble_cbuf s') (tl q) /\
     Z.land BLE_TX_DONE_CB (event_scheduled s') = 0 /\
     (forall n, 0 <= n -> Z.testbit BLE_TX_DONE_CB n = false ->
        Z.testbit (event_scheduled s') n
        = (Z.testbit (event_scheduled s) n && (n <? 32)))).
Proof.
  intros Hk Hrep. unfold scheduled_ble_tx_done_cb, Scheduler.get_scheduled_events.
  split.
  - intros -> tx_busy. reflexivity.
  - intros Hpending.
    destruct (Z.eqb_spec (Z.land BLE_TX_DONE_CB (event_scheduled s)) 0)
      as [Hzero | _]; [contradiction|].
    cbn [negb EFM_ASSERT]. rewrite bind_Done.
    assert (Hclear :
      Z.land BLE_TX_DONE_CB
        (Scheduler.remove_scheduled_event BLE_TX_DONE_CB (event_scheduled s))
      = 0).
    { unfold Scheduler.remove_scheduled_event, not32.
      apply Z.bits_inj'. intros n Hn.
      rewrite !Z.land_spec, Z.lnot_spec, Z.bits_0 by lia.
      destruct (Z.testbit BLE_TX_DONE_CB n); cbn;
        [now rewrite andb_false_r | reflexivity]. }
    assert (Hkeep : forall n, 0 <= n -> Z.testbit BLE_TX_DONE_CB n = false ->
      Z.testbit
        (Scheduler.remove_scheduled_event BLE_TX_DONE_CB (event_scheduled s)) n
      = (Z.testbit (event_scheduled s) n && (n <? 32))).
    { intros n Hn Hbit. unfold Scheduler.remove_scheduled_event, not32.
      rewrite !Z.land_spec, Z.lnot_spec, Hbit by lia.
      rewrite Z.testbit_ones by lia.
      destruct (Z.leb_spec 0 n); [|lia]. reflexivity. }
    destruct q as [|m q0].
    + rewrite (pop_nothing k Hk _ [] CIRC_OPER false Hrep (or_intror eq_refl)).
      rewrite bind_Done. eexists. split; [reflexivity|].
      cbn [ble_cbuf event_scheduled tl].
      split; [exact Hrep|]. split; [exact Hclear | exact Hkeep].
    + destruct (pop_represents k Hk m _ q0 Hrep) as (b' & Hpop & Hrep' & _).
      rewrite Hpop, bind_Done. eexists. split; [reflexivity|].
      cbn [ble_cbuf event_scheduled tl].
      split; [exact Hrep'|]. split; [exact Hclear | exact Hkeep].
Qed.

Lemma tx_done_sends_next_string_witness :
  let s := mk_system 0x14
             (mk_cbuf (105 :: replicate 61 0 ++ [3; 72]) 64 63 62 1) in
  0 <= 6 <= 7 /\ represents (2 ^ 6) (ble_cbuf s) [[72; 105]] /\
  Z.land 0x10 (event_scheduled s) <> 0 /\
  scheduled_ble_tx_done_cb 0x10 false s
  = Done (To_leuart_start [72; 105] 2,
          mk_system 0x4
            (mk_cbuf (105 :: replicate 61 0 ++ [3; 72]) 64 63 1 1)) /\
  ((Z.land 0x10 (event_scheduled s) = 0 ->
    forall tx_busy, scheduled_ble_tx_done_cb 0x10 tx_busy s = Fatal) /\
   (Z.land 0x10 (event_scheduled s) <> 0 ->
    exists s',
      scheduled_ble_tx_done_cb 0x10 false s
      = Done (match [[72; 105]] with [] => Nothing | m :: _ => payload m end,
              s') /\
      represents (2 ^ 6) (ble_cbuf s') (tl [[72; 105]]) /\
      Z.land 0x10 (event_scheduled s') = 0 /\
      (forall n, 0 <= n -> Z.testbit 0x10 n = false ->
         Z.testbit (event_scheduled s') n
         = (Z.testbit (event_scheduled s) n && (n <? 32))))).
Proof.
  cbv zeta.
  split; [lia|]. split; [exact represents_across_the_end|].
  split; [discriminate|]. split; [reflexivity|].
  apply (tx_done_sends_next_string 6 0x10 _ [[72; 105]]);
    [lia | exact represents_across_the_end].
Defined.

End AppFacts.
